(** * NVTabular binary batch reader: a shallow embedding

    Source: [examples/nvt_dataloader/nvt_binary_dataloader.py].

    The embedding follows the Python code function by function:
    - [get_categorical_feature_type] picks the integer type of a categorical
      column;
    - [__init__] computes the byte layout, opens the column files and derives
      the number of batches from the label file;
    - [_get_label], [_get_numerical_features], [_get_categorical_features] and
      [_get_item] read and decode one batch with positional reads;
    - [__getitem__] drives the prefetch queue.

    Python integers are [Z]. Bytes are [Byte.byte]. A Python exception is a
    constructor of [exn]; a call that never returns ([queue.Queue.get] on an
    empty queue whose producer is the caller itself) is [Blocks]. Mutable
    state (the prefetch queue) and the operating system calls the code makes
    are threaded through a state monad whose state also keeps the trace of
    those calls. *)

From Stdlib Require Import ZArith QArith Qround Lia Ascii String.
From stdpp Require Import base tactics option list gmap strings.

Open Scope Z_scope.

(** ** Outcomes of a Python call *)

Inductive exn : Type :=
| IndexError
| RuntimeError
| ValueError
| OSError
| FileNotFoundError
| KeyError
| ZeroDivisionError.

Inductive res (A : Type) : Type :=
| Ok (a : A)
| Raise (e : exn)
| Blocks.

Arguments Ok {A} a.
Arguments Raise {A} e.
Arguments Blocks {A}.

#[global] Instance res_ret : MRet res := fun A a => Ok a.
#[global] Instance res_bind : MBind res := fun A B f m =>
  match m with
  | Ok a => f a
  | Raise e => Raise e
  | Blocks => Blocks
  end.

(** ** numpy / torch values

    An array or tensor is a dtype, a shape and its elements in row-major
    order. Integer elements are stored as their value, booleans as 0 or 1,
    floating-point elements as their IEEE bit pattern (the reader performs
    no floating-point arithmetic on the elements). *)

Inductive dtype : Type :=
| np_bool
| np_float16
| np_int8
| np_int16
| np_int32
| torch_float32
| torch_long.

(** [np.dtype(t).itemsize] *)
Definition itemsize (t : dtype) : Z :=
  match t with
  | np_bool => 1
  | np_float16 => 2
  | np_int8 => 1
  | np_int16 => 2
  | np_int32 => 4
  | torch_float32 => 4
  | torch_long => 8
  end.

(** [np.iinfo(t).max] for the three candidate types. *)
Definition iinfo_max (t : dtype) : Z :=
  match t with
  | np_int8 => 127
  | np_int16 => 32767
  | np_int32 => 2147483647
  | _ => 0
  end.

Record tensor : Type := Tensor {
  t_dtype : dtype;
  t_shape : list Z;
  t_data : list Z
}.

Definition byte_val (b : Byte.byte) : Z := Z.of_N (Byte.to_N b).

(** Little-endian value of a group of bytes. *)
Fixpoint le_unsigned (bs : list Byte.byte) : Z :=
  match bs with
  | [] => 0
  | b :: rest => byte_val b + 256 * le_unsigned rest
  end.

Definition to_signed (bits : Z) (u : Z) : Z :=
  if u <? 2 ^ (bits - 1) then u else u - 2 ^ bits.

(** One element of dtype [t] read from its [itemsize t] bytes. *)
Definition decode_elem (t : dtype) (bs : list Byte.byte) : Z :=
  match t with
  | np_bool => if le_unsigned bs =? 0 then 0 else 1
  | np_int8 | np_int16 | np_int32 | torch_long =>
      to_signed (8 * itemsize t) (le_unsigned bs)
  | np_float16 | torch_float32 => le_unsigned bs
  end.

Fixpoint chunks (count : nat) (k : nat) (l : list Byte.byte)
  : list (list Byte.byte) :=
  match count with
  | O => []
  | S count' => take k l :: chunks count' k (drop k l)
  end.

(** [np.frombuffer(raw, dtype=t)]: a buffer whose size is not a multiple of
    the element size is rejected with [ValueError]. *)
Definition np_frombuffer (raw : list Byte.byte) (t : dtype) : res tensor :=
  let size := Z.of_nat (length raw) in
  if size mod itemsize t =? 0 then
    let n := size / itemsize t in
    Ok (Tensor t [n]
          (decode_elem t <$> chunks (Z.to_nat n) (Z.to_nat (itemsize t)) raw))
  else Raise ValueError.

(** [torch.from_numpy] keeps dtype, shape and elements. *)
Definition torch_from_numpy (a : tensor) : tensor := a.

(** Bit patterns of the float32 values 0.0 and 1.0. *)
Definition f32_zero : Z := 0.
Definition f32_one : Z := 1065353216.

(** [t.to(torch.float32)] for a boolean tensor. *)
Definition to_float32 (t : tensor) : tensor :=
  Tensor torch_float32 (t_shape t)
    ((fun b => if b =? 0 then f32_zero else f32_one) <$> t_data t).

(** [t.to(torch.long)] for an integer tensor: every value is kept. *)
Definition to_long (t : tensor) : tensor :=
  Tensor torch_long (t_shape t) (t_data t).

(** [t.unsqueeze(0)] *)
Definition unsqueeze0 (t : tensor) : tensor :=
  Tensor (t_dtype t) (1 :: t_shape t) (t_data t).

Definition numel (t : tensor) : Z := Z.of_nat (length (t_data t)).

(** [t.view(-1, k)]: the element count must be a multiple of [k > 0]. *)
Definition view_rows (k : Z) (t : tensor) : res tensor :=
  if (k <=? 0) || negb (numel t mod k =? 0) then Raise RuntimeError
  else Ok (Tensor (t_dtype t) [numel t / k; k] (t_data t)).

(** [t.view(-1)] *)
Definition view_flat (t : tensor) : tensor :=
  Tensor (t_dtype t) [numel t] (t_data t).

(** [torch.amax(t)] / [torch.amin(t)] over all elements: an empty tensor is
    rejected with [RuntimeError]. *)
Definition torch_amax (t : tensor) : res Z :=
  match t_data t with
  | [] => Raise RuntimeError
  | x :: rest => Ok (foldl Z.max x rest)
  end.

Definition torch_amin (t : tensor) : res Z :=
  match t_data t with
  | [] => Raise RuntimeError
  | x :: rest => Ok (foldl Z.min x rest)
  end.

(** [torch.cat(ts, dim=1)] for tensors of shape [1 x m]: an empty list is
    rejected with [RuntimeError]. *)
Definition torch_cat_dim1 (ts : list tensor) : res tensor :=
  match ts with
  | [] => Raise RuntimeError
  | t :: _ =>
      Ok (Tensor (t_dtype t)
            [1; Z.of_nat (length (concat (t_data <$> ts)))]
            (concat (t_data <$> ts)))
  end.

(** ** Feature layout resolver *)

Definition types : list dtype := [np_int8; np_int16; np_int32].

Fixpoint first_type_above (size : Z) (ts : list dtype) : res dtype :=
  match ts with
  | [] => Raise RuntimeError
  | numpy_type :: rest =>
      if size <? iinfo_max numpy_type then Ok numpy_type
      else first_type_above size rest
  end.

Definition get_categorical_feature_type (size : Z) : res dtype :=
  first_type_above size types.

(** ** State: the prefetch queue and the trace of calls *)

(** A batch as [_get_item] returns it:
    [(numerical_features, categorical_features, click)]. *)
Definition Batch : Type := (option tensor * option tensor * tensor)%type.

(** A [concurrent.futures.Future] of [executor.submit(self._get_item, i)]:
    the index it was submitted for and what [.result()] gives. The column
    files are opened read-only and never written, so the result of the task
    does not depend on when the single worker runs it. *)
Record Future : Type := mkFuture {
  fut_idx : Z;
  fut_result : res Batch
}.

Inductive event : Type :=
| Pread (fd : string) (n : Z) (offset : Z)   (* os.pread(fd, n, offset) *)
| Submit (idx : Z)      (* executor.submit(self._get_item, idx) *)
| Get (idx : Z).        (* queue.get() handed out the future of idx *)

Record world : Type := mkWorld {
  prefetch_queue : list Future;
  trace : list event
}.

(** [queue.Queue()] at construction: nothing queued, nothing called yet. *)
Definition new_world : world := mkWorld [] [].

Definition M (A : Type) : Type := world → res A * world.

#[global] Instance M_ret : MRet M := fun A a w => (Ok a, w).
#[global] Instance M_bind : MBind M := fun A B f m w =>
  match m w with
  | (Ok a, w') => f a w'
  | (Raise e, w') => (Raise e, w')
  | (Blocks, w') => (Blocks, w')
  end.

Definition lift {A} (r : res A) : M A := fun w => (r, w).

Definition log (e : event) : M unit := fun w =>
  (Ok tt, mkWorld (prefetch_queue w) (trace w ++ [e])).

Definition when (b : bool) (body : M unit) : M unit :=
  if b then body else mret tt.

Fixpoint for_each {A} (l : list A) (body : A → M unit) : M unit :=
  match l with
  | [] => mret tt
  | x :: rest => body x ;; for_each rest body
  end.

(** Submissions minus hand-outs in a trace: the fetches that were submitted
    and not yet taken by the caller. *)
Fixpoint outstanding (tr : list event) : Z :=
  match tr with
  | [] => 0
  | Submit _ :: rest => outstanding rest + 1
  | Get _ :: rest => outstanding rest - 1
  | Pread _ _ _ :: rest => outstanding rest
  end.

(** The indices submitted to the executor, in the order of submission. *)
Fixpoint submitted (tr : list event) : list Z :=
  match tr with
  | [] => []
  | Submit i :: rest => i :: submitted rest
  | _ :: rest => submitted rest
  end.

(** The positional reads of a trace, in order. *)
Fixpoint preads (tr : list event) : list (string * Z * Z) :=
  match tr with
  | [] => []
  | Pread fd n off :: rest => (fd, n, off) :: preads rest
  | _ :: rest => preads rest
  end.

(** [os.path.join(a, b)] on POSIX. *)
Definition ends_with_slash (a : string) : bool :=
  match last (String.list_ascii_of_string a) with
  | Some c => bool_decide (c = "/"%char)
  | None => false
  end.

Definition os_path_join (a b : string) : string :=
  match b with
  | String "/"%char _ => b
  | _ => if bool_decide (a = ""%string) || ends_with_slash a
         then String.append a b
         else String.append a (String "/"%char b)
  end.

(** [a / b] on Python integers is the double nearest to the exact quotient,
    ties to the even significand. A double is kept as the rational it
    stands for; the quotient is a file size over a byte count, its sign is
    the only thing a negative zero would add, and [math.ceil] and
    [math.floor] do not see it. *)

(** [floor (log2 (n / d))] for positive [n] and [d]. *)
Definition floor_log2_quotient (n d : Z) : Z :=
  let e := Z.log2 n - Z.log2 d in
  if (if 0 <=? e then d * 2 ^ e <=? n else d <=? n * 2 ^ (- e)) then e
  else e - 1.

(** The integer nearest to [n / d], the even one of two at equal distance,
    for [n >= 0] and [d > 0]. *)
Definition round_half_even (n d : Z) : Z :=
  let q := n / d in
  match 2 * (n mod d) ?= d with
  | Lt => q
  | Gt => q + 1
  | Eq => if Z.even q then q else q + 1
  end.

(** [n / d] rounded to 53 significant bits, or to a multiple of [2^-1074]
    below the normal range, for [n >= 0] and [d > 0]. *)
Definition round_to_double (n d : Z) : Q :=
  if n =? 0 then 0%Q
  else
    let e := floor_log2_quotient n d in
    let ulp := Z.max e (-1022) - 52 in
    if 0 <? ulp
    then inject_Z (round_half_even n (d * 2 ^ ulp) * 2 ^ ulp)
    else (inject_Z (round_half_even (n * 2 ^ (- ulp)) d)
          / inject_Z (2 ^ (- ulp)))%Q.

Definition float_quotient (a b : Z) : Q :=
  let q := round_to_double (Z.abs a) (Z.abs b) in
  if xorb (a <? 0) (b <? 0) then (- q)%Q else q.

(** [a / b]. The [OverflowError] of a quotient beyond the largest double is
    left out: the dividend is always the size of a file, below [2^63]. *)
Definition true_div (a b : Z) : res Q :=
  if b =? 0 then Raise ZeroDivisionError
  else Ok (float_quotient a b).

Definition math_ceil (x : Q) : Z := Qceiling x.
Definition math_floor (x : Q) : Z := Qfloor x.

(** [d[k]] on a dict. *)
Definition dict_get {V} (d : gmap string V) (k : string) : res V :=
  match d !! k with
  | Some v => Ok v
  | None => Raise KeyError
  end.

(** [l[i]] on a list, for [i >= 0]. *)
Definition list_get {V} (l : list V) (i : nat) : res V :=
  match l !! i with
  | Some v => Ok v
  | None => Raise IndexError
  end.

Record ParametricDataset : Type := mkDataset {
  _batch_size : Z;
  _categorical_types : list dtype;
  _numerical_features_file : option string;
  _label_file : string;
  _categorical_features_files : option (list string);
  _numerical_bytes_per_batch : Z;
  _label_bytes_per_batch : Z;
  _categorical_bytes_per_batch : list Z;
  _num_entries : Z;
  _prefetch_depth : Z
}.

Section Dataset.

(** [DEFAULT_CAT_NAMES] and [DEFAULT_INT_NAMES] are imported from
    [torchrec.datasets.criteo]; their values are parameters here. *)
Variable DEFAULT_CAT_NAMES : list string.
Variable DEFAULT_INT_NAMES : list string.

(** The files on disk: path to content. A file descriptor is modelled by the
    path it was opened from; the reader never writes. *)
Variable fs : gmap string (list Byte.byte).

Definition os_open (path : string) : res string :=
  match fs !! path with
  | Some _ => Ok path
  | None => Raise FileNotFoundError
  end.

(** [os.fstat(fd).st_size] *)
Definition st_size (fd : string) : res Z :=
  match fs !! fd with
  | Some content => Ok (Z.of_nat (length content))
  | None => Raise OSError
  end.

(** [os.pread(fd, n, offset)]: a negative length or offset is [EINVAL]; a
    read that reaches the end of the file returns the bytes that are there.
    Length and offset are taken as 64-bit integers by the call: a file is
    shorter than [2^63] bytes, so a read inside a file is in that range, and
    the properties about reads outside a file bound the length and the
    offsets. *)
Definition os_pread (fd : string) (n offset : Z) : M (list Byte.byte) :=
  log (Pread fd n offset) ;;
  lift (if (n <? 0) || (offset <? 0) then Raise OSError
        else match fs !! fd with
             | Some content =>
                 Ok (take (Z.to_nat n) (drop (Z.to_nat offset) content))
             | None => Raise OSError
             end).

Definition __init__ (binary_file_path : string)
    (json_dict : gmap string Z)
    (batch_size : Z) (prefetch_depth : Z) (drop_last_batch : bool)
  : res ParametricDataset :=
  categorical_types ←
    mapM (fun name => v ← dict_get json_dict name;
                      get_categorical_feature_type (v + 1))
         DEFAULT_CAT_NAMES;
  let bytes_per_feature : gmap string Z :=
    foldl (fun d name => <[name := itemsize np_float16]> d) ∅
          DEFAULT_INT_NAMES in
  let bytes_per_feature : gmap string Z :=
    foldl (fun d nt => <[nt.1 := itemsize nt.2]> d) bytes_per_feature
          (zip DEFAULT_CAT_NAMES categorical_types) in
  first_int ← list_get DEFAULT_INT_NAMES 0;
  first_bytes ← dict_get bytes_per_feature first_int;
  let numerical_bytes_per_batch :=
    first_bytes * Z.of_nat (length DEFAULT_INT_NAMES) * batch_size in
  let label_bytes_per_batch := itemsize np_bool * batch_size in
  categorical_bytes_per_batch ←
    mapM (fun feature => b ← dict_get bytes_per_feature feature;
                         mret (b * batch_size))
         DEFAULT_CAT_NAMES;
  (* Load categorical *)
  categorical_features_files ←
    mapM (fun feature_name =>
            cat_file ← os_open (os_path_join binary_file_path
                                  (String.append feature_name ".bin"));
            b ← dict_get bytes_per_feature feature_name;
            let bytes_per_batch := b * batch_size in
            size ← st_size cat_file;
            _ ← true_div size bytes_per_batch;
            mret cat_file)
         DEFAULT_CAT_NAMES;
  (* Load numerical *)
  numerical_features_file ←
    os_open (os_path_join binary_file_path "numerical.bin");
  size ← st_size numerical_features_file;
  _ ← true_div size numerical_bytes_per_batch;
  (* Load label *)
  label_file ← os_open (os_path_join binary_file_path "label.bin");
  size ← st_size label_file;
  batch_num_float ← true_div size label_bytes_per_batch;
  let number_of_batches :=
    if negb drop_last_batch then math_ceil batch_num_float
    else math_floor batch_num_float in
  mret {| _batch_size := batch_size;
          _categorical_types := categorical_types;
          _numerical_features_file := Some numerical_features_file;
          _label_file := label_file;
          _categorical_features_files := Some categorical_features_files;
          _numerical_bytes_per_batch := numerical_bytes_per_batch;
          _label_bytes_per_batch := label_bytes_per_batch;
          _categorical_bytes_per_batch := categorical_bytes_per_batch;
          _num_entries := number_of_batches;
          _prefetch_depth := Z.min prefetch_depth number_of_batches |}.

Definition __len__ (self : ParametricDataset) : Z := _num_entries self.

Definition _get_label (self : ParametricDataset) (idx : Z) : M tensor :=
  raw_label_data ←
    os_pread (_label_file self) (_label_bytes_per_batch self)
             (idx * _label_bytes_per_batch self);
  array ← lift (np_frombuffer raw_label_data np_bool);
  mret (to_float32 (torch_from_numpy array)).

Definition _get_numerical_features (self : ParametricDataset) (idx : Z)
  : M (option tensor) :=
  match _numerical_features_file self with
  | None => mret None
  | Some numerical_features_file =>
      raw_numerical_data ←
        os_pread numerical_features_file (_numerical_bytes_per_batch self)
                 (idx * _numerical_bytes_per_batch self);
      array ← lift (np_frombuffer raw_numerical_data np_float16);
      t ← lift (view_rows (Z.of_nat (length DEFAULT_INT_NAMES))
                  (torch_from_numpy array));
      mret (Some t)
  end.

(** The body of the loop of [_get_categorical_features], over the zipped
    [(cat_bytes, cat_type, cat_file)] triples; [categorical_features] is the
    list built so far. The lists [max_tensor] and [min_tensor] are filled
    and never read: of [torch.amax] and [torch.amin] only the exception on
    an empty tensor is kept. *)
Fixpoint cat_loop (idx : Z) (triples : list (Z * dtype * string))
    (categorical_features : list tensor) : M (list tensor) :=
  match triples with
  | [] => mret categorical_features
  | (cat_bytes, cat_type, cat_file) :: rest =>
      raw_cat_data ← os_pread cat_file cat_bytes (idx * cat_bytes);
      array ← lift (np_frombuffer raw_cat_data cat_type);
      let tensor := to_long (unsqueeze0 (torch_from_numpy array)) in
      _ ← lift (torch_amax tensor);
      _ ← lift (torch_amin tensor);
      cat_loop idx rest (categorical_features ++ [tensor])
  end.

Definition _get_categorical_features (self : ParametricDataset) (idx : Z)
  : M (option tensor) :=
  match _categorical_features_files self with
  | None => mret None
  | Some categorical_features_files =>
      categorical_features ←
        cat_loop idx
          (zip (zip (_categorical_bytes_per_batch self)
                    (_categorical_types self))
               categorical_features_files) [];
      t ← lift (torch_cat_dim1 categorical_features);
      mret (Some (view_flat t))
  end.

Definition _get_item (self : ParametricDataset) (idx : Z) : M Batch :=
  click ← _get_label self idx;
  numerical_features ← _get_numerical_features self idx;
  categorical_features ← _get_categorical_features self idx;
  mret (numerical_features, categorical_features, click).

(** [self._executor.submit(task, i)]: the task runs on the single worker and
    an exception it raises is kept in the future. The worker takes its
    tasks in submission order and is the only reader in window mode, so its
    reads enter the trace in submission order; they are logged when the
    task is submitted. *)
Definition run_task (task : Z → M Batch) (i : Z) : M Future := fun w =>
  let '(r, w') := task i w in (Ok (mkFuture i r), w').

Definition executor_submit (task : Z → M Batch) (i : Z) : M Future :=
  log (Submit i) ;; run_task task i.

(** [self._prefetch_queue.put(f)] *)
Definition queue_put (f : Future) : M unit := fun w =>
  (Ok tt, mkWorld (prefetch_queue w ++ [f]) (trace w)).

(** [self._prefetch_queue.put(self._executor.submit(self._get_item, i))] *)
Definition submit_put (self : ParametricDataset) (i : Z) : M unit :=
  f ← executor_submit (_get_item self) i;
  queue_put f.

(** [self._prefetch_queue.get()]: the front of the queue; on an empty queue
    the caller waits for a [put] that only the caller itself could make. *)
Definition queue_get : M Future := fun w =>
  match prefetch_queue w with
  | [] => (Blocks, w)
  | f :: rest => (Ok f, mkWorld rest (trace w ++ [Get (fut_idx f)]))
  end.

(** [future.result()] *)
Definition result (f : Future) : M Batch := lift (fut_result f).

(** The statements of [__getitem__] between the two guards and the final
    [return]: filling and extending the window. *)
Definition extend_window (self : ParametricDataset) (idx : Z) : M unit :=
  (* At the start, fill up the prefetching queue *)
  when (idx =? 0)
    (for_each (seqZ 0 (_prefetch_depth self)) (submit_put self)) ;;
  (* Extend the prefetching window by one if not at the end of the dataset *)
  when (idx <? _num_entries self - _prefetch_depth self)
    (submit_put self (idx + _prefetch_depth self)).

Definition __getitem__ (self : ParametricDataset) (idx : Z) : M Batch :=
  if idx >=? _num_entries self then lift (Raise IndexError)
  else if _prefetch_depth self <=? 1 then _get_item self idx
  else
    extend_window self idx ;;
    f ← queue_get;
    result f.

(** A caller making the calls [__getitem__(i)] for [i] in [idxs], one after
    the other, and keeping what each call gave. *)
Fixpoint consume (self : ParametricDataset) (idxs : list Z) (w : world)
  : list (res Batch) * world :=
  match idxs with
  | [] => ([], w)
  | i :: rest =>
      let '(r, w1) := __getitem__ self i w in
      let '(rs, w2) := consume self rest w1 in
      (r :: rs, w2)
  end.

End Dataset.

(** ** The dataloader around the dataset

    [NvtBinaryDataloader] builds the dataset and the constant metadata of the
    [KeyedJaggedTensor] every batch is wrapped in. [KeyedJaggedTensor] and
    [Batch] are classes of [torchrec.sparse.jagged_tensor] and
    [torchrec.datasets.utils]; here they are the records of the keyword
    arguments [collate_fn] passes to their constructors. A tensor of dtype
    [torch.int32] carries the dtype tag [np_int32], the one [torch.from_numpy]
    gives an [np.int32] array. *)

Module NvtBinaryDataloader.

Record KeyedJaggedTensor : Type := mkKJT {
  kjt_keys : list string;
  kjt_values : option tensor;
  kjt_lengths : tensor;
  kjt_offsets : tensor;
  kjt_stride : Z;
  kjt_length_per_key : list Z;
  kjt_offset_per_key : list Z;
  kjt_index_per_key : gmap string Z
}.

Record TorchrecBatch : Type := mkBatch {
  dense_features : tensor;
  sparse_features : KeyedJaggedTensor;
  labels : tensor
}.

Record t : Type := mkDataloader {
  dataset : ParametricDataset;
  _num_ids_in_batch : Z;
  keys : list string;
  lengths : tensor;
  offsets : tensor;
  stride : Z;
  length_per_key : list Z;
  offset_per_key : list Z;
  index_per_key : gmap string Z
}.

(** What [collate_fn] gives: the batch, or the [AttributeError] of
    [None.type(...)]. *)
Inductive collated : Type :=
| Collated (b : TorchrecBatch)
| AttributeError.

(** [torch.ones((n,), dtype=torch.int32)]: a negative size is rejected. The
    properties that build on a returned tensor bound its size. *)
Definition torch_ones (n : Z) : res tensor :=
  if n <? 0 then Raise RuntimeError
  else Ok (Tensor np_int32 [n] (replicate (Z.to_nat n) 1)).

(** [torch.arange(0, stop, dtype=torch.int32)]: a negative [stop] is
    rejected. The elements are exact as long as [stop] is below [2^31]; the
    properties that build on a returned tensor bound its size. *)
Definition torch_arange (stop : Z) : res tensor :=
  if stop <? 0 then Raise RuntimeError
  else Ok (Tensor np_int32 [stop] (seqZ 0 stop)).

(** [{key: i for (i, key) in enumerate(keys)}], the entries made in the
    order of the list, a later one replacing an earlier one of the same
    key. *)
Fixpoint enumerate_dict (i : Z) (keys : list string) (d : gmap string Z)
  : gmap string Z :=
  match keys with
  | [] => d
  | key :: rest => enumerate_dict (i + 1) rest (<[key := i]> d)
  end.

Section Dataloader.

Variable DEFAULT_CAT_NAMES : list string.
Variable DEFAULT_INT_NAMES : list string.

(** [CAT_FEATURE_COUNT] is imported from [torchrec.datasets.criteo] like the
    name lists. *)
Variable CAT_FEATURE_COUNT : Z.

Variable fs : gmap string (list Byte.byte).

(** [x.type(torch.FloatTensor)] on one element of a tensor of the given
    dtype: the conversion of [torch], on the stored representation. *)
Variable cast_float32 : dtype → Z → Z.

Definition __init__ (binary_file_path : string) (json_dict : gmap string Z)
    (batch_size : Z) (prefetch_depth : Z) (drop_last_batch : bool) : res t :=
  dataset ← __init__ DEFAULT_CAT_NAMES DEFAULT_INT_NAMES fs binary_file_path
              json_dict batch_size prefetch_depth drop_last_batch;
  let num_ids_in_batch := CAT_FEATURE_COUNT * batch_size in
  let keys := DEFAULT_CAT_NAMES in
  lengths ← torch_ones num_ids_in_batch;
  offsets ← torch_arange (num_ids_in_batch + 1);
  mret {| dataset := dataset;
          _num_ids_in_batch := num_ids_in_batch;
          keys := keys;
          lengths := lengths;
          offsets := offsets;
          stride := batch_size;
          length_per_key :=
            replicate (Z.to_nat CAT_FEATURE_COUNT) batch_size;
          offset_per_key :=
            (fun i => batch_size * i) <$> seqZ 0 (CAT_FEATURE_COUNT + 1);
          index_per_key := enumerate_dict 0 keys ∅ |}.

(** [t.type(torch.FloatTensor)] *)
Definition type_FloatTensor (x : tensor) : tensor :=
  Tensor torch_float32 (t_shape x) (cast_float32 (t_dtype x) <$> t_data x).

Definition collate_fn (self : t) (attr_dict : Batch) : collated :=
  let '(dense, sparse, labels) := attr_dict in
  match dense with
  | None => AttributeError
  | Some dense =>
      Collated
        {| dense_features := type_FloatTensor dense;
           sparse_features :=
             {| kjt_keys := DEFAULT_CAT_NAMES;
                kjt_values := sparse;
                kjt_lengths := lengths self;
                kjt_offsets := offsets self;
                kjt_stride := stride self;
                kjt_length_per_key := length_per_key self;
                kjt_offset_per_key := offset_per_key self;
                kjt_index_per_key := index_per_key self |};
           labels := labels |}
  end.

End Dataloader.

End NvtBinaryDataloader.

(** The indices [queue.get()] handed out, in order. *)
Fixpoint handed_out (tr : list event) : list Z :=
  match tr with
  | [] => []
  | Get i :: rest => i :: handed_out rest
  | _ :: rest => handed_out rest
  end.

(** ** Vocabulary of the properties *)

Definition is_pread (e : event) : Prop :=
  match e with
  | Pread _ _ _ => True
  | _ => False
  end.

(** [runs m r t]: whatever the state, [m] gives [r], leaves the queue as it
    is and adds the calls [t] to the trace. *)
Definition runs {A} (m : M A) (r : res A) (t : list event) : Prop :=
  ∀ w, m w = (r, mkWorld (prefetch_queue w) (trace w ++ t)).

(** A computation that only reads files. *)
Definition reads_only {A} (m : M A) : Prop :=
  ∃ r t, runs m r t ∧ Forall is_pread t.

(** The rule of the specification for the integer type of a cardinality [c]:
    the first width whose largest value is at least [c]. *)
Fixpoint spec_first_type_holding (c : Z) (ts : list dtype) : res dtype :=
  match ts with
  | [] => Raise RuntimeError
  | t :: rest =>
      if c <=? iinfo_max t then Ok t else spec_first_type_holding c rest
  end.

Definition spec_resolved_type (c : Z) : res dtype :=
  spec_first_type_holding c types.

(** The batch count a group's file implies, in the words of the
    specification: ceiling of [file_length / bytes_per_batch], or its floor
    when the last batch is dropped. *)
Definition spec_group_batch_count (file_length bytes_per_batch : Z)
    (drop_last_batch : bool) : Z :=
  if drop_last_batch
  then Qfloor (inject_Z file_length / inject_Z bytes_per_batch)
  else Qceiling (inject_Z file_length / inject_Z bytes_per_batch).

(** The futures of the fetches of the indices [idxs], as [submit_put] queues
    them. *)
Definition futures (INT_NAMES : list string) (fs : gmap string (list Byte.byte))
    (self : ParametricDataset) (idxs : list Z) : list Future :=
  (fun i => mkFuture i (_get_item INT_NAMES fs self i new_world).1) <$> idxs.

(** The reads a complete fetch of batch [idx] makes: label, numerical, then
    every categorical file, each of its group's [bytes_per_batch] at
    [idx * bytes_per_batch]. *)
Definition group_reads (self : ParametricDataset) (idx : Z)
  : list (string * Z * Z) :=
  (_label_file self, _label_bytes_per_batch self,
     idx * _label_bytes_per_batch self)
  :: match _numerical_features_file self with
     | Some f => [(f, _numerical_bytes_per_batch self,
                     idx * _numerical_bytes_per_batch self)]
     | None => []
     end
  ++ match _categorical_features_files self with
     | Some files =>
         (fun tr : Z * dtype * string => (tr.2, tr.1.1, idx * tr.1.1))
           <$> zip (zip (_categorical_bytes_per_batch self)
                        (_categorical_types self)) files
     | None => []
     end.

(** A read that one call of [os.pread] serves as modelled: at most [2^30]
    bytes, with length, offset and end among the 64-bit offsets. *)
Definition read_in_range (r : string * Z * Z) : Prop :=
  - 2 ^ 63 ≤ r.1.2 ≤ 2 ^ 30 ∧ - 2 ^ 63 ≤ r.2 ∧ r.2 + r.1.2 < 2 ^ 63.

(** A call returned rather than raised. *)
Definition returns {A} (r : res A) : bool :=
  match r with
  | Ok _ => true
  | _ => false
  end.

(** For each feature group of batch [idx], in the order of [group_reads]:
    whether its read and decoding return, that is the label getter, the
    numerical getter, and for each categorical file one pass of the loop of
    the categorical getter. *)
Definition group_outcomes (INT_NAMES : list string)
    (fs : gmap string (list Byte.byte)) (self : ParametricDataset) (idx : Z)
  : list bool :=
  returns (_get_label fs self idx new_world).1
  :: match _numerical_features_file self with
     | Some _ =>
         [returns (_get_numerical_features INT_NAMES fs self idx new_world).1]
     | None => []
     end
  ++ match _categorical_features_files self with
     | Some files =>
         (fun tr : Z * dtype * string =>
            returns (cat_loop fs idx [tr] [] new_world).1)
           <$> zip (zip (_categorical_bytes_per_batch self)
                        (_categorical_types self)) files
     | None => []
     end.

(** How many groups are read: all up to and including the first one that
    does not return. *)
Fixpoint groups_read (outcomes : list bool) : nat :=
  match outcomes with
  | [] => O
  | ok :: rest => S (if ok then groups_read rest else O)
  end.

(** The file behind [fd] holds batch [idx] of a group in full. *)
Definition holds_batch (fs : gmap string (list Byte.byte)) (fd : string)
    (bytes_per_batch idx : Z) : Prop :=
  ∃ content, fs !! fd = Some content
             ∧ (idx + 1) * bytes_per_batch ≤ Z.of_nat (length content).

(** The bytes of batch [idx] of a group: [bytes_per_batch] bytes at offset
    [idx * bytes_per_batch]. *)
Definition batch_bytes (fs : gmap string (list Byte.byte)) (fd : string)
    (bytes_per_batch idx : Z) : list Byte.byte :=
  take (Z.to_nat bytes_per_batch)
       (drop (Z.to_nat (idx * bytes_per_batch)) (default [] (fs !! fd))).

(** The ids of one categorical feature in batch [idx]: the bytes of the
    batch read as [batch_size] little-endian integers of the feature's own
    type. *)
Definition categorical_column (fs : gmap string (list Byte.byte))
    (path : string) (batch_size idx : Z) (name : string) (t : dtype)
  : list Z :=
  decode_elem t
    <$> chunks (Z.to_nat batch_size) (Z.to_nat (itemsize t))
          (batch_bytes fs (os_path_join path (String.append name ".bin"))
             (itemsize t * batch_size) idx).

(** ** Sample datasets *)

Definition mk_byte (z : Z) : Byte.byte :=
  match Byte.of_N (Z.to_N z) with
  | Some b => b
  | None => Byte.x00
  end.

Definition sample_cat_names : list string := ["cat_0"; "cat_1"]%string.
Definition sample_int_names : list string := ["int_0"]%string.

(** Maximum ids 5 and 200: an 8-bit and a 16-bit column. *)
Definition sample_sizes : gmap string Z :=
  <["cat_0"%string := 5]> (<["cat_1"%string := 200]> ∅).

(** Four complete batches of two records. *)
Definition sample_fs : gmap string (list Byte.byte) :=
  list_to_map
    [("d/cat_0.bin"%string, mk_byte <$> [1; 2; 3; 4; 5; 0; 1; 2]);
     ("d/cat_1.bin"%string,
        mk_byte <$> [1; 0; 2; 0; 3; 0; 4; 0; 5; 0; 255; 255; 7; 0; 200; 0]);
     ("d/numerical.bin"%string,
        mk_byte <$> [0; 60; 0; 64; 0; 66; 0; 68; 0; 69; 0; 70; 0; 71; 0; 72]);
     ("d/label.bin"%string, mk_byte <$> [0; 1; 1; 0; 2; 0; 1; 1])].

(** Three complete batches and a last one of a single record. *)
Definition partial_fs : gmap string (list Byte.byte) :=
  list_to_map
    [("d/cat_0.bin"%string, mk_byte <$> [1; 2; 3; 4; 5; 0; 1]);
     ("d/cat_1.bin"%string,
        mk_byte <$> [1; 0; 2; 0; 3; 0; 4; 0; 5; 0; 255; 255; 7; 0]);
     ("d/numerical.bin"%string,
        mk_byte <$> [0; 60; 0; 64; 0; 66; 0; 68; 0; 69; 0; 70; 0; 71]);
     ("d/label.bin"%string, mk_byte <$> [0; 1; 1; 0; 2; 0; 1])].

(** Label and categorical files of four batches next to a numerical file of
    five bytes. *)
Definition mismatch_fs : gmap string (list Byte.byte) :=
  list_to_map
    [("d/cat_0.bin"%string, mk_byte <$> [1; 2; 3; 4; 5; 0; 1; 2]);
     ("d/cat_1.bin"%string,
        mk_byte <$> [1; 0; 2; 0; 3; 0; 4; 0; 5; 0; 255; 255; 7; 0; 200; 0]);
     ("d/numerical.bin"%string, mk_byte <$> [0; 60; 0; 64; 0]);
     ("d/label.bin"%string, mk_byte <$> [0; 1; 1; 0; 2; 0; 1; 1])].

(** The dataset [__init__] builds over [sample_fs] with [batch_size = 2] and
    the given [prefetch_depth]. *)
Definition sample_dataset (prefetch_depth : Z) : ParametricDataset :=
  {| _batch_size := 2;
     _categorical_types := [np_int8; np_int16];
     _numerical_features_file := Some "d/numerical.bin"%string;
     _label_file := "d/label.bin"%string;
     _categorical_features_files :=
       Some ["d/cat_0.bin"; "d/cat_1.bin"]%string;
     _numerical_bytes_per_batch := 4;
     _label_bytes_per_batch := 2;
     _categorical_bytes_per_batch := [2; 4];
     _num_entries := 4;
     _prefetch_depth := Z.min prefetch_depth 4 |}.

(** The dataloader [NvtBinaryDataloader.__init__] builds over [sample_fs]
    with two categorical features, [batch_size = 2] and
    [prefetch_depth = 2]. *)
Definition sample_dataloader : NvtBinaryDataloader.t :=
  {| NvtBinaryDataloader.dataset := sample_dataset 2;
     NvtBinaryDataloader._num_ids_in_batch := 4;
     NvtBinaryDataloader.keys := sample_cat_names;
     NvtBinaryDataloader.lengths := Tensor np_int32 [4] [1; 1; 1; 1];
     NvtBinaryDataloader.offsets := Tensor np_int32 [5] [0; 1; 2; 3; 4];
     NvtBinaryDataloader.stride := 2;
     NvtBinaryDataloader.length_per_key := [2; 2];
     NvtBinaryDataloader.offset_per_key := [0; 2; 4];
     NvtBinaryDataloader.index_per_key :=
       <["cat_1"%string := 1]> (<["cat_0"%string := 0]> ∅) |}.

(** * Properties *)

Lemma sample_dataset_init prefetch_depth :
  __init__ sample_cat_names sample_int_names sample_fs "d" sample_sizes
           2 prefetch_depth false
  = Ok (sample_dataset prefetch_depth).
Proof. reflexivity. Qed.

(** ** The state monad *)

Lemma world_eta w : mkWorld (prefetch_queue w) (trace w ++ []) = w.
Proof. destruct w; simpl. by rewrite app_nil_r. Qed.

Lemma runs_ret {A} (a : A) : runs (mret a) (Ok a) [].
Proof. intros w. unfold mret, M_ret. by rewrite world_eta. Qed.

Lemma runs_lift {A} (r : res A) : runs (lift r) r [].
Proof. intros w. unfold lift. by rewrite world_eta. Qed.

Lemma runs_log e : runs (log e) (Ok tt) [e].
Proof. by intros w. Qed.

Lemma runs_bind_Ok {A B} (m : M A) (f : A → M B) a t1 r t2 :
  runs m (Ok a) t1 → runs (f a) r t2 → runs (m ≫= f) r (t1 ++ t2).
Proof.
  intros Hm Hf w. unfold mbind, M_bind. rewrite Hm, Hf. simpl.
  by rewrite app_assoc.
Qed.

Lemma runs_bind_Raise {A B} (m : M A) (f : A → M B) e t :
  runs m (Raise e) t → runs (m ≫= f) (Raise e) t.
Proof. intros Hm w. unfold mbind, M_bind. by rewrite Hm. Qed.

Lemma runs_bind_Blocks {A B} (m : M A) (f : A → M B) t :
  runs m Blocks t → runs (m ≫= f) Blocks t.
Proof. intros Hm w. unfold mbind, M_bind. by rewrite Hm. Qed.

Lemma runs_new_world {A} (m : M A) r t :
  runs m r t → (m new_world).1 = r ∧ trace (m new_world).2 = t.
Proof. intros H. by rewrite (H new_world). Qed.

Lemma reads_only_ret {A} (a : A) : reads_only (mret a).
Proof. exists (Ok a), []. split; [apply runs_ret | constructor]. Qed.

Lemma reads_only_lift {A} (r : res A) : reads_only (lift r).
Proof. exists r, []. split; [apply runs_lift | constructor]. Qed.

Lemma reads_only_bind {A B} (m : M A) (f : A → M B) :
  reads_only m → (∀ a, reads_only (f a)) → reads_only (m ≫= f).
Proof.
  intros (r & t & Hm & Ht) Hf. destruct r as [a | e | ].
  - destruct (Hf a) as (r' & t' & Hfa & Ht').
    exists r', (t ++ t'). split; [by eapply runs_bind_Ok | by apply Forall_app].
  - exists (Raise e), t. split; [by apply runs_bind_Raise | done].
  - exists Blocks, t. split; [by apply runs_bind_Blocks | done].
Qed.

(** Stepping over a pure call [lift x] whose outcome [H : x = ...] is known:
    [run_lift] continues after [Ok], [stop_lift] ends at an exception. *)
Ltac run_lift H :=
  rewrite H; eapply (runs_bind_Ok _ _ _ []); [apply runs_lift | cbn beta].

Ltac stop_lift H :=
  rewrite H;
  first [apply runs_bind_Raise; apply runs_lift
        | apply runs_bind_Blocks; apply runs_lift].

(** ** Traces *)

Lemma outstanding_app t1 t2 :
  outstanding (t1 ++ t2) = outstanding t1 + outstanding t2.
Proof. induction t1 as [ | [ | | ] t1 IH]; simpl; lia. Qed.

Lemma submitted_app t1 t2 : submitted (t1 ++ t2) = submitted t1 ++ submitted t2.
Proof. induction t1 as [ | [ | | ] t1 IH]; simpl; by rewrite ?IH. Qed.

Lemma preads_app t1 t2 : preads (t1 ++ t2) = preads t1 ++ preads t2.
Proof. induction t1 as [ | [ | | ] t1 IH]; simpl; by rewrite ?IH. Qed.

Lemma outstanding_reads t : Forall is_pread t → outstanding t = 0.
Proof. induction 1 as [ | [ | | ] t H _ IH]; simpl in *; done. Qed.

Lemma submitted_reads t : Forall is_pread t → submitted t = [].
Proof. induction 1 as [ | [ | | ] t H _ IH]; simpl in *; done. Qed.

Lemma outstanding_le_submitted t :
  outstanding t ≤ Z.of_nat (length (submitted t)).
Proof. induction t as [ | [ | | ] t IH]; simpl; lia. Qed.

Lemma outstanding_prefix_le t1 t2 :
  outstanding t1 ≤ Z.of_nat (length (submitted (t1 ++ t2))).
Proof.
  rewrite submitted_app, length_app.
  pose proof (outstanding_le_submitted t1). lia.
Qed.

(** ** Integer ranges *)

Lemma seqZ_snoc m k : 0 ≤ k → seqZ m k ++ [m + k] = seqZ m (k + 1).
Proof. intros Hk. by rewrite seqZ_app by lia. Qed.

Lemma seqZ_head m k : 0 < k → seqZ m k = m :: seqZ (m + 1) (k - 1).
Proof. intros Hk. by rewrite seqZ_cons by lia. Qed.

(** ** One fetch only reads *)

Section Fetch.

Variable INT_NAMES : list string.
Variable fs : gmap string (list Byte.byte).

Lemma os_pread_runs fd n off :
  ∃ r, runs (os_pread fs fd n off) r [Pread fd n off].
Proof.
  eexists. unfold os_pread.
  change [Pread fd n off] with ([Pread fd n off] ++ []).
  eapply runs_bind_Ok; [apply runs_log | apply runs_lift].
Qed.

Lemma os_pread_reads_only fd n off : reads_only (os_pread fs fd n off).
Proof.
  destruct (os_pread_runs fd n off) as [r Hr].
  exists r, [Pread fd n off]. split; [done | by repeat constructor].
Qed.

Lemma os_pread_full fd n off content :
  fs !! fd = Some content → 0 ≤ n → 0 ≤ off →
  runs (os_pread fs fd n off)
       (Ok (take (Z.to_nat n) (drop (Z.to_nat off) content)))
       [Pread fd n off].
Proof.
  intros Hfd Hn Hoff. unfold os_pread.
  change [Pread fd n off] with ([Pread fd n off] ++ []).
  eapply runs_bind_Ok; [apply runs_log | ].
  rewrite Hfd.
  replace (n <? 0) with false by (symmetry; apply Z.ltb_ge; lia).
  replace (off <? 0) with false by (symmetry; apply Z.ltb_ge; lia).
  apply runs_lift.
Qed.

Lemma get_label_reads_only self idx : reads_only (_get_label fs self idx).
Proof.
  unfold _get_label.
  apply reads_only_bind; [apply os_pread_reads_only | intros raw].
  apply reads_only_bind; [apply reads_only_lift | intros a].
  apply reads_only_ret.
Qed.

Lemma get_numerical_reads_only self idx :
  reads_only (_get_numerical_features INT_NAMES fs self idx).
Proof.
  unfold _get_numerical_features.
  destruct (_numerical_features_file self); [ | apply reads_only_ret].
  apply reads_only_bind; [apply os_pread_reads_only | intros raw].
  apply reads_only_bind; [apply reads_only_lift | intros a].
  apply reads_only_bind; [apply reads_only_lift | intros t].
  apply reads_only_ret.
Qed.

Lemma cat_loop_reads_only idx triples acc :
  reads_only (cat_loop fs idx triples acc).
Proof.
  revert acc. induction triples as [ | [[b ty] f] triples IH]; intros acc.
  - apply reads_only_ret.
  - simpl.
    apply reads_only_bind; [apply os_pread_reads_only | intros raw].
    apply reads_only_bind; [apply reads_only_lift | intros a].
    apply reads_only_bind; [apply reads_only_lift | intros _].
    apply reads_only_bind; [apply reads_only_lift | intros _].
    apply IH.
Qed.

Lemma get_categorical_reads_only self idx :
  reads_only (_get_categorical_features fs self idx).
Proof.
  unfold _get_categorical_features.
  destruct (_categorical_features_files self); [ | apply reads_only_ret].
  apply reads_only_bind; [apply cat_loop_reads_only | intros ts].
  apply reads_only_bind; [apply reads_only_lift | intros t].
  apply reads_only_ret.
Qed.

Lemma get_item_reads_only self idx :
  reads_only (_get_item INT_NAMES fs self idx).
Proof.
  unfold _get_item.
  apply reads_only_bind; [apply get_label_reads_only | intros click].
  apply reads_only_bind; [apply get_numerical_reads_only | intros num].
  apply reads_only_bind; [apply get_categorical_reads_only | intros cat].
  apply reads_only_ret.
Qed.

(** What a fetch gives and the calls it makes do not depend on the state. *)
Lemma get_item_runs self idx :
  runs (_get_item INT_NAMES fs self idx)
       (_get_item INT_NAMES fs self idx new_world).1
       (trace (_get_item INT_NAMES fs self idx new_world).2).
Proof.
  destruct (get_item_reads_only self idx) as (r & t & Hrun & _).
  destruct (runs_new_world _ _ _ Hrun) as [-> ->]. done.
Qed.

Lemma get_item_trace_reads self idx :
  Forall is_pread (trace (_get_item INT_NAMES fs self idx new_world).2).
Proof.
  destruct (get_item_reads_only self idx) as (r & t & Hrun & Ht).
  by destruct (runs_new_world _ _ _ Hrun) as [_ ->].
Qed.

Lemma submit_put_spec self i w :
  submit_put INT_NAMES fs self i w =
  (Ok tt,
   mkWorld (prefetch_queue w ++ futures INT_NAMES fs self [i])
           (trace w ++ Submit i
              :: trace (_get_item INT_NAMES fs self i new_world).2)).
Proof.
  unfold submit_put, executor_submit, run_task, queue_put, log.
  unfold mbind, M_bind. simpl.
  rewrite (get_item_runs self i). simpl.
  by rewrite <- app_assoc.
Qed.

End Fetch.

(** ** The prefetch window *)

Section Prefetch.

Variable INT_NAMES : list string.
Variable fs : gmap string (list Byte.byte).
Variable self : ParametricDataset.

Local Abbreviation n := (_num_entries self).
Local Abbreviation p := (_prefetch_depth self).

Opaque _get_item.

Lemma consume_app l1 l2 w :
  consume INT_NAMES fs self (l1 ++ l2) w =
  let '(rs1, w1) := consume INT_NAMES fs self l1 w in
  let '(rs2, w2) := consume INT_NAMES fs self l2 w1 in
  (rs1 ++ rs2, w2).
Proof.
  revert w. induction l1 as [ | i l1 IH]; intros w; simpl.
  - by destruct (consume INT_NAMES fs self l2 w).
  - destruct (__getitem__ INT_NAMES fs self i w) as [r w1].
    rewrite IH.
    destruct (consume INT_NAMES fs self l1 w1) as [rs1 w2].
    by destruct (consume INT_NAMES fs self l2 w2).
Qed.

Lemma futures_app l1 l2 :
  futures INT_NAMES fs self (l1 ++ l2) =
  futures INT_NAMES fs self l1 ++ futures INT_NAMES fs self l2.
Proof. unfold futures. by rewrite fmap_app. Qed.

(** Submitting the fetches of [idxs] one after the other queues their
    futures in that order and submits exactly those indices. *)
Lemma for_each_submit_put idxs w :
  ∃ t, for_each idxs (submit_put INT_NAMES fs self) w =
       (Ok tt, mkWorld (prefetch_queue w ++ futures INT_NAMES fs self idxs)
                       (trace w ++ t))
       ∧ submitted t = idxs
       ∧ outstanding t = Z.of_nat (length idxs).
Proof.
  revert w. induction idxs as [ | i idxs IH]; intros w.
  - exists []. simpl. unfold mret, M_ret. rewrite !app_nil_r.
    destruct w. repeat split; reflexivity.
  - cbn [for_each]. unfold mbind, M_bind. rewrite submit_put_spec.
    edestruct IH as (t & -> & Ht & Hout).
    exists (Submit i :: trace (_get_item INT_NAMES fs self i new_world).2 ++ t).
    pose proof (get_item_trace_reads INT_NAMES fs self i) as Hreads.
    split; [ | split].
    + cbn [prefetch_queue trace].
      change (i :: idxs) with ([i] ++ idxs).
      rewrite futures_app, <- !app_assoc. reflexivity.
    + cbn [submitted]. rewrite submitted_app, Ht.
      by rewrite (submitted_reads _ Hreads).
    + cbn [outstanding length]. rewrite outstanding_app, Hout.
      rewrite (outstanding_reads _ Hreads). lia.
Qed.

(** The indices [extend_window] submits at index [idx]. *)
Lemma extend_window_spec idx w :
  ∃ t, extend_window INT_NAMES fs self idx w =
       (Ok tt,
        mkWorld (prefetch_queue w ++
                 futures INT_NAMES fs self
                   ((if idx =? 0 then seqZ 0 p else []) ++
                    (if idx <? n - p then [idx + p] else [])))
                (trace w ++ t))
       ∧ submitted t = (if idx =? 0 then seqZ 0 p else []) ++
                       (if idx <? n - p then [idx + p] else [])
       ∧ outstanding t = Z.of_nat (length (submitted t)).
Proof.
  unfold extend_window, when, mbind, M_bind.
  destruct (idx =? 0).
  - destruct (for_each_submit_put (seqZ 0 p) w) as (t & -> & Ht & Hout).
    destruct (idx <? n - p).
    + rewrite submit_put_spec. cbn [prefetch_queue trace].
      pose proof (get_item_trace_reads INT_NAMES fs self (idx + p)) as Hreads.
      exists (t ++ Submit (idx + p)
                :: trace (_get_item INT_NAMES fs self (idx + p) new_world).2).
      split; [ | split].
      * rewrite futures_app, <- !app_assoc. reflexivity.
      * rewrite submitted_app, Ht. cbn [submitted].
        by rewrite (submitted_reads _ Hreads).
      * rewrite outstanding_app, submitted_app, length_app, Ht, Hout.
        cbn [outstanding submitted].
        rewrite (submitted_reads _ Hreads), (outstanding_reads _ Hreads).
        cbn [length]. lia.
    + exists t. unfold mret, M_ret. rewrite !app_nil_r.
      split; [done | split; [done | by rewrite Ht]].
  - unfold mret, M_ret. destruct (idx <? n - p).
    + rewrite submit_put_spec.
      pose proof (get_item_trace_reads INT_NAMES fs self (idx + p)) as Hreads.
      exists (Submit (idx + p)
                :: trace (_get_item INT_NAMES fs self (idx + p) new_world).2).
      split; [reflexivity | ]. cbn [submitted app outstanding].
      rewrite (submitted_reads _ Hreads), (outstanding_reads _ Hreads).
      split; reflexivity.
    + exists []. cbn [app]. unfold futures. cbn [fmap list_fmap].
      rewrite !app_nil_r. destruct w. repeat split; reflexivity.
Qed.

(** The number of indices submitted before the call for index [i] of an
    in-order pass. *)
Local Abbreviation hi i := (if i =? 0 then 0 else Z.min (i + p) n).

(** One call of an in-order pass: the window holds the fetches of
    [i .. hi i - 1]; the call submits [hi i .. hi (i + 1) - 1], takes the
    fetch of [i] and leaves those of [i + 1 .. hi (i + 1) - 1]. *)
Lemma getitem_step i w :
  1 < p → p ≤ n → 0 ≤ i < n →
  prefetch_queue w = futures INT_NAMES fs self (seqZ i (hi i - i)) →
  ∃ t, __getitem__ INT_NAMES fs self i w =
       ((_get_item INT_NAMES fs self i new_world).1,
        mkWorld (futures INT_NAMES fs self
                   (seqZ (i + 1) (hi (i + 1) - (i + 1))))
                (trace w ++ t ++ [Get i]))
       ∧ submitted t = seqZ (hi i) (hi (i + 1) - hi i)
       ∧ outstanding t = Z.of_nat (length (submitted t)).
Proof.
  intros Hp Hpn Hi Hq. unfold __getitem__.
  replace (i >=? n) with false
    by (symmetry; rewrite Z.geb_leb; apply Z.leb_gt; lia).
  replace (p <=? 1) with false by (symmetry; apply Z.leb_gt; lia).
  unfold mbind at 1, M_bind at 1.
  destruct (extend_window_spec i w) as (t & -> & Ht & Hout).
  exists t.
  assert (seqZ i (hi i - i) ++
          ((if i =? 0 then seqZ 0 p else []) ++
           (if i <? n - p then [i + p] else []))
          = i :: seqZ (i + 1) (hi (i + 1) - (i + 1))
          ∧ (if i =? 0 then seqZ 0 p else []) ++
            (if i <? n - p then [i + p] else [])
            = seqZ (hi i) (hi (i + 1) - hi i)) as [Hwin Hnew].
  { replace (i + 1 =? 0) with false by (symmetry; apply Z.eqb_neq; lia).
    destruct (Z.eqb_spec i 0) as [Hi0 | Hi0];
      destruct (Z.ltb_spec i (n - p)) as [Hlt | Hge]; try subst i.
    - replace (Z.min (0 + 1 + p) n - (0 + 1)) with (p + 1 - 1) by lia.
      replace (Z.min (0 + 1 + p) n - 0) with (p + 1) by lia.
      replace (0 - 0) with 0 by lia. rewrite (seqZ_nil 0 0) by lia.
      cbn [app]. rewrite seqZ_snoc by lia.
      split; [apply seqZ_head; lia | done].
    - replace (Z.min (0 + 1 + p) n - (0 + 1)) with (p - 1) by lia.
      replace (Z.min (0 + 1 + p) n - 0) with p by lia.
      replace (0 - 0) with 0 by lia. rewrite (seqZ_nil 0 0), app_nil_r by lia.
      cbn [app]. split; [apply seqZ_head; lia | done].
    - replace (Z.min (i + p) n - i) with p by lia.
      replace (Z.min (i + 1 + p) n - (i + 1)) with (p + 1 - 1) by lia.
      replace (Z.min (i + 1 + p) n - Z.min (i + p) n) with 1 by lia.
      replace (Z.min (i + p) n) with (i + p) by lia.
      cbn [app]. rewrite seqZ_snoc by lia.
      split; [apply seqZ_head; lia | done].
    - replace (Z.min (i + 1 + p) n - Z.min (i + p) n) with 0 by lia.
      replace (Z.min (i + p) n - i) with (n - i) by lia.
      replace (Z.min (i + 1 + p) n - (i + 1)) with (n - i - 1) by lia.
      cbn [app]. rewrite app_nil_r.
      split; [apply seqZ_head; lia | symmetry; apply seqZ_nil; lia]. }
  split; [ | split; [by rewrite Ht | done]].
  cbn [prefetch_queue trace]. rewrite Hq, <- futures_app, Hwin.
  unfold mbind, M_bind, queue_get, result, lift, futures.
  cbn [fmap list_fmap prefetch_queue trace fut_idx fut_result].
  by rewrite <- app_assoc.
Qed.

(** An in-order pass over the first [m] indices of a fresh dataset: what the
    calls return, what is left in the window, what was submitted, and the
    number of outstanding fetches along the trace. *)
Lemma in_order_pass (m : nat) :
  1 < p → p ≤ n → Z.of_nat m ≤ n →
  ∃ w, consume INT_NAMES fs self (seqZ 0 (Z.of_nat m)) new_world =
         ((fun i => (_get_item INT_NAMES fs self i new_world).1)
            <$> seqZ 0 (Z.of_nat m), w)
    ∧ prefetch_queue w =
        futures INT_NAMES fs self
          (seqZ (Z.of_nat m) (hi (Z.of_nat m) - Z.of_nat m))
    ∧ submitted (trace w) = seqZ 0 (hi (Z.of_nat m))
    ∧ outstanding (trace w) = hi (Z.of_nat m) - Z.of_nat m
    ∧ (∀ t1 t2, trace w = t1 ++ t2 → outstanding t1 ≤ p + 1).
Proof.
  intros Hp Hpn. induction m as [ | m IH]; intros Hm.
  - exists new_world. repeat split; try reflexivity.
    intros t1 t2 Ht. symmetry in Ht. apply app_eq_nil in Ht as [-> _].
    simpl. lia.
  - destruct IH as (w & Hc & Hq & Hs & Ho & Hb); [lia | ].
    destruct (getitem_step (Z.of_nat m) w) as (t & Hg & Hst & Hot);
      [done | done | lia | done | ].
    rewrite seqZ_S, consume_app, Hc, fmap_app.
    change (0 + Z.of_nat m) with (Z.of_nat m).
    cbn [consume fmap list_fmap]. rewrite Hg.
    replace (Z.of_nat (S m)) with (Z.of_nat m + 1) by lia.
    eexists. split; [reflexivity | ]. cbn [prefetch_queue trace].
    assert (0 ≤ hi (Z.of_nat m) ≤ hi (Z.of_nat m + 1)
            ∧ hi (Z.of_nat m) - Z.of_nat m ≤ p
            ∧ hi (Z.of_nat m + 1) ≤ Z.of_nat m + 1 + p) as (Hhi & Hwin & Hnext).
    { destruct (Z.eqb_spec (Z.of_nat m) 0), (Z.eqb_spec (Z.of_nat m + 1) 0);
        lia. }
    assert (Z.of_nat (length (submitted t))
            = hi (Z.of_nat m + 1) - hi (Z.of_nat m)) as Hlen.
    { rewrite Hst, length_seqZ. lia. }
    split; [done | split; [ | split]].
    + rewrite !submitted_app, Hs, Hst. cbn [submitted]. rewrite app_nil_r.
      rewrite <- seqZ_app by lia. f_equal. lia.
    + rewrite !outstanding_app, Ho, Hot, Hlen. cbn [outstanding]. lia.
    + intros t1 t2 Ht. apply app_eq_inv in Ht as [(k & Hk & _) | (k & Hk & Ht)].
      * by eapply Hb.
      * subst t1. rewrite outstanding_app, Ho.
        pose proof (outstanding_prefix_le k t2) as Hle.
        rewrite <- Ht, submitted_app in Hle. cbn [submitted] in Hle.
        rewrite app_nil_r, Hlen in Hle. lia.
Qed.

(** C1. On a fresh dataset with [1 < prefetch_depth <= length], asking for
    the indices [0, 1, ..., length - 1] in this order through [__getitem__]
    gives, index by index, exactly what a direct call [_get_item(i)] gives
    (the batch, or the exception the fetch raises), in whatever state the
    direct call is made. *)
Theorem C1_prefetch_path_equals_direct_fetch (w' : world) :
  1 < p → p ≤ n →
  (consume INT_NAMES fs self (seqZ 0 n) new_world).1 =
  (fun i => (_get_item INT_NAMES fs self i w').1) <$> seqZ 0 n.
Proof.
  intros Hp Hpn.
  destruct (in_order_pass (Z.to_nat n)) as (w & Hc & _); [done | done | lia | ].
  rewrite Z2Nat.id in Hc by lia. rewrite Hc. cbn [fst].
  apply list_fmap_ext. intros _ i _.
  by rewrite (get_item_runs INT_NAMES fs self i w').
Qed.

(** C2 (amended). During an in-order pass over the first [k] indices of a
    fresh dataset with [1 < prefetch_depth <= length]: at every point of the
    trace at most [prefetch_depth + 1] fetches are submitted and not yet
    taken by the caller; whenever a call has returned there are at most
    [prefetch_depth], all of them in the queue; and the indices submitted so
    far are exactly [0, 1, 2, ...] up to the edge of the window, each once,
    in increasing order. *)
Theorem C2_window_bound (k : Z) :
  1 < p → p ≤ n → 0 ≤ k ≤ n →
  (∀ t1 t2,
     trace (consume INT_NAMES fs self (seqZ 0 k) new_world).2 = t1 ++ t2 →
     outstanding t1 ≤ p + 1)
  ∧ outstanding (trace (consume INT_NAMES fs self (seqZ 0 k) new_world).2) ≤ p
  ∧ outstanding (trace (consume INT_NAMES fs self (seqZ 0 k) new_world).2)
    = Z.of_nat
        (length (prefetch_queue
                   (consume INT_NAMES fs self (seqZ 0 k) new_world).2))
  ∧ submitted (trace (consume INT_NAMES fs self (seqZ 0 k) new_world).2)
    = seqZ 0 (if k =? 0 then 0 else Z.min (k + p) n).
Proof.
  intros Hp Hpn Hk.
  destruct (in_order_pass (Z.to_nat k)) as (w & Hc & Hq & Hs & Ho & Hb);
    [done | done | lia | ].
  rewrite Z2Nat.id in * by lia. rewrite Hc. cbn [snd].
  split; [done | ]. rewrite Ho, Hq, Hs. unfold futures.
  rewrite length_fmap, length_seqZ.
  destruct (Z.eqb_spec k 0); repeat split; lia.
Qed.

(** C7 (amended). Every index [idx >= length], [length] itself included,
    makes [__getitem__] raise [IndexError] at once: no file is read, nothing
    is submitted, the queue is left as it was. *)
Theorem C7_index_past_end_raises (idx : Z) (w : world) :
  n ≤ idx → __getitem__ INT_NAMES fs self idx w = (Raise IndexError, w).
Proof.
  intros Hidx. unfold __getitem__.
  replace (idx >=? n) with true
    by (symmetry; rewrite Z.geb_leb; apply Z.leb_le; lia).
  done.
Qed.

(** C8 (amended). When the window is bypassed ([prefetch_depth <= 1]), a
    second call for an index already served runs exactly one more
    synchronous fetch of that index (its reads, no submission), leaves the
    queue untouched and returns what the first call returned. *)
Theorem C8_unwindowed_second_get (idx : Z) (w : world) :
  p ≤ 1 → idx < n →
  (__getitem__ INT_NAMES fs self idx
     (__getitem__ INT_NAMES fs self idx w).2).1
  = (__getitem__ INT_NAMES fs self idx w).1
  ∧ (__getitem__ INT_NAMES fs self idx w).1
    = (_get_item INT_NAMES fs self idx new_world).1
  ∧ trace (__getitem__ INT_NAMES fs self idx
             (__getitem__ INT_NAMES fs self idx w).2).2
    = trace (__getitem__ INT_NAMES fs self idx w).2
      ++ trace (_get_item INT_NAMES fs self idx new_world).2
  ∧ Forall is_pread (trace (_get_item INT_NAMES fs self idx new_world).2)
  ∧ prefetch_queue (__getitem__ INT_NAMES fs self idx
                      (__getitem__ INT_NAMES fs self idx w).2).2
    = prefetch_queue w.
Proof.
  intros Hp Hidx.
  assert (∀ w0, __getitem__ INT_NAMES fs self idx w0
                = _get_item INT_NAMES fs self idx w0) as Hsync.
  { intros w0. unfold __getitem__.
    replace (idx >=? n) with false
      by (symmetry; rewrite Z.geb_leb; apply Z.leb_gt; lia).
    by replace (p <=? 1) with true by (symmetry; apply Z.leb_le; lia). }
  rewrite !Hsync. rewrite (get_item_runs INT_NAMES fs self idx w). cbn [fst snd].
  rewrite (get_item_runs INT_NAMES fs self idx (mkWorld _ _)).
  cbn [fst snd prefetch_queue trace].
  repeat split; try done. apply get_item_trace_reads.
Qed.

Transparent _get_item.

End Prefetch.

(** ** The feature layout resolver *)

Lemma resolved_type_in_types size t :
  get_categorical_feature_type size = Ok t → t ∈ types.
Proof.
  unfold get_categorical_feature_type, types. cbn [first_type_above].
  repeat case_match; intros [= <-]; apply list_elem_of_In; simpl; tauto.
Qed.

(** C3 (amended). For a maximum id [m] the resolver is called with the
    cardinality [m + 1] and returns the narrowest of the 8-, 16- and 32-bit
    signed types whose largest value is strictly greater than [m + 1]; when
    no candidate's largest value is strictly greater, it raises
    [RuntimeError]. *)
Theorem C3_resolved_type_strictly_above (m : Z) :
  match get_categorical_feature_type (m + 1) with
  | Ok t =>
      t ∈ types ∧ m + 1 < iinfo_max t
      ∧ ∀ t', t' ∈ types → itemsize t' < itemsize t → iinfo_max t' ≤ m + 1
  | Raise e => e = RuntimeError ∧ ∀ t', t' ∈ types → iinfo_max t' ≤ m + 1
  | Blocks => False
  end.
Proof.
  unfold get_categorical_feature_type, types. cbn [first_type_above].
  destruct (Z.ltb_spec (m + 1) (iinfo_max np_int8));
    [ | destruct (Z.ltb_spec (m + 1) (iinfo_max np_int16));
        [ | destruct (Z.ltb_spec (m + 1) (iinfo_max np_int32))]].
  all: repeat split; try done; try (apply list_elem_of_In; simpl; tauto).
  all: intros t' Hin; apply list_elem_of_In in Hin; simpl in Hin.
  all: destruct Hin as [<- | [<- | [<- | []]]]; simpl in *; lia.
Qed.

(** ** Construction *)

Lemma bind_Ok_inv {A B} (m : res A) (f : A → res B) b :
  m ≫= f = Ok b → ∃ a, m = Ok a ∧ f a = Ok b.
Proof. destruct m as [a | e | ]; [ | done | done]. intros H. by exists a. Qed.

Lemma mapM_res_ext {A B} (f g : A → res B) l :
  (∀ x, x ∈ l → f x = g x) → mapM f l = mapM g l.
Proof.
  induction l as [ | x l IH]; intros Hfg; [done | ].
  cbn [mapM]. rewrite (Hfg x) by left.
  rewrite IH; [done | ]. intros y Hy. apply Hfg. by right.
Qed.

Lemma mapM_res_Ok {A B} (f : A → res B) l k :
  mapM f l = Ok k → Forall2 (fun x y => f x = Ok y) l k.
Proof.
  revert k. induction l as [ | x l IH]; intros k Hk.
  - cbn [mapM] in Hk. injection Hk as <-. constructor.
  - cbn [mapM] in Hk.
    apply bind_Ok_inv in Hk as (y & Hy & Hk).
    apply bind_Ok_inv in Hk as (k' & Hk' & Hk).
    injection Hk as <-. constructor; [done | by apply IH].
Qed.

Lemma mapM_res_fmap {A B} (f : A → res B) (g : A → B) l k :
  mapM f l = Ok k → (∀ x y, x ∈ l → f x = Ok y → y = g x) → k = g <$> l.
Proof.
  intros Hk%mapM_res_Ok Hg. induction Hk as [ | x y l k Hxy Hk IH]; [done | ].
  cbn [fmap list_fmap]. f_equal.
  - apply Hg; [left | done].
  - apply IH. intros x' y' Hx'. apply Hg. by right.
Qed.

Lemma true_div_Ok_inv a b q :
  true_div a b = Ok q → b ≠ 0 ∧ q = float_quotient a b.
Proof.
  unfold true_div. destruct (Z.eqb_spec b 0); [done | ].
  intros H. by injection H as <-.
Qed.

(** The dict [bytes_per_feature]. *)

Lemma foldl_insert_const_lookup (v : Z) (l : list string) (d : gmap string Z) k :
  foldl (fun d name => <[name := v]> d) d l !! k
  = if decide (k ∈ l) then Some v else d !! k.
Proof.
  revert d. induction l as [ | x l IH]; intros d; cbn [foldl].
  - case_decide as Hk; [by apply elem_of_nil in Hk | done].
  - rewrite IH. destruct (decide (k ∈ l)) as [Hl | Hl].
    + rewrite decide_True; [done | by right].
    + destruct (decide (k = x)) as [-> | Hne].
      * rewrite lookup_insert_eq. rewrite decide_True; [done | by left].
      * rewrite lookup_insert_ne by done.
        rewrite decide_False; [done | ].
        intros [-> | Hin]%elem_of_cons; done.
Qed.

Lemma foldl_insert_zip_notin (l : list (string * dtype)) (d : gmap string Z) k :
  k ∉ l.*1 →
  foldl (fun d nt => <[nt.1 := itemsize nt.2]> d) d l !! k = d !! k.
Proof.
  revert d. induction l as [ | [x t] l IH]; intros d Hk; [done | ].
  cbn [foldl fst snd]. cbn [fmap list_fmap fst] in Hk.
  apply not_elem_of_cons in Hk as [Hne Hk].
  rewrite IH by done. by rewrite lookup_insert_ne.
Qed.

Lemma foldl_insert_zip_lookup (l : list (string * dtype)) (d : gmap string Z)
    k t :
  NoDup l.*1 → (k, t) ∈ l →
  foldl (fun d nt => <[nt.1 := itemsize nt.2]> d) d l !! k
  = Some (itemsize t).
Proof.
  revert d. induction l as [ | [x t'] l IH]; intros d Hnd Hin.
  - by apply elem_of_nil in Hin.
  - cbn [fmap list_fmap fst] in Hnd. apply NoDup_cons in Hnd as [Hx Hnd].
    cbn [foldl fst snd].
    apply elem_of_cons in Hin as [Heq | Hin].
    + injection Heq as -> ->.
      rewrite foldl_insert_zip_notin by done. apply lookup_insert_eq.
    + by apply IH.
Qed.

Lemma os_open_Ok_inv fs path fd :
  os_open fs path = Ok fd → fd = path ∧ is_Some (fs !! path).
Proof.
  unfold os_open. destruct (fs !! path) eqn:E; [ | done].
  intros H. by injection H as <-.
Qed.

Lemma st_size_Ok_inv fs fd size :
  st_size fs fd = Ok size →
  ∃ content, fs !! fd = Some content ∧ size = Z.of_nat (length content).
Proof.
  unfold st_size. destruct (fs !! fd) as [content | ]; [ | done].
  intros H. injection H as <-. by exists content.
Qed.

Lemma os_open_same_files fs fs' path :
  (is_Some (fs !! path) ↔ is_Some (fs' !! path)) →
  os_open fs path = os_open fs' path.
Proof.
  unfold os_open. intros [H1 H2].
  destruct (fs !! path) as [c | ], (fs' !! path) as [c' | ]; try done.
  - by destruct H1 as [? [=]].
  - by destruct H2 as [? [=]].
Qed.

(** The quotient computed for a categorical or the numerical file is
    dropped: only a zero divisor shows. *)
Lemma size_quotient_dropped {B} fs fs' fd b (k : res B) :
  is_Some (fs !! fd) → is_Some (fs' !! fd) →
  (size ← st_size fs fd; _ ← true_div size b; k)
  = (size ← st_size fs' fd; _ ← true_div size b; k).
Proof.
  intros [c Hc] [c' Hc']. unfold st_size, true_div. rewrite Hc, Hc'.
  cbn [mbind res_bind]. by destruct (b =? 0).
Qed.

Lemma st_size_same_length fs fs' fd :
  length <$> fs !! fd = length <$> fs' !! fd →
  st_size fs fd = st_size fs' fd.
Proof.
  unfold st_size.
  destruct (fs !! fd) as [c | ], (fs' !! fd) as [c' | ]; try done.
  cbn [fmap option_fmap option_map]. intros [= ->]. done.
Qed.

Lemma math_floor_div a b : math_floor (inject_Z a / inject_Z b)%Q = a / b.
Proof. unfold math_floor. symmetry. apply Zdiv_Qdiv. Qed.

Lemma math_ceil_div a b :
  math_ceil (inject_Z a / inject_Z b)%Q = - ((- a) / b).
Proof.
  unfold math_ceil, Qceiling. f_equal. rewrite Zdiv_Qdiv.
  apply Qfloor_comp. rewrite inject_Z_opp. unfold Qdiv. ring.
Qed.

(** ** Rounding to a double *)

Lemma round_half_even_near n d :
  0 < d →
  2 * n - d ≤ 2 * (round_half_even n d * d) ≤ 2 * n + d.
Proof.
  intros Hd. unfold round_half_even.
  pose proof (Z.div_mod n d ltac:(lia)) as Hn.
  pose proof (Z.mod_pos_bound n d Hd) as Hr.
  destruct (Z.compare_spec (2 * (n mod d)) d) as [He | Hl | Hg];
    [destruct (Z.even (n / d)) | | ]; nia.
Qed.

Lemma round_half_even_multiple k d :
  0 < d → round_half_even (k * d) d = k.
Proof.
  intros Hd. unfold round_half_even.
  rewrite Z.mod_mul, Z.div_mul by lia.
  change (2 * 0) with 0.
  destruct (Z.compare_spec 0 d); lia.
Qed.

Lemma round_half_even_nonneg n d :
  0 ≤ n → 0 < d → 0 ≤ round_half_even n d.
Proof.
  intros Hn Hd. unfold round_half_even.
  pose proof (Z.div_pos n d Hn Hd).
  destruct (2 * (n mod d) ?= d); [destruct (Z.even (n / d)) | | ]; lia.
Qed.

Lemma floor_log2_quotient_le n d :
  0 < n → 0 < d →
  if 0 <=? floor_log2_quotient n d
  then d * 2 ^ floor_log2_quotient n d ≤ n
  else d ≤ n * 2 ^ (- floor_log2_quotient n d).
Proof.
  intros Hn Hd. unfold floor_log2_quotient.
  set (e := Z.log2 n - Z.log2 d).
  destruct (Z.log2_spec n Hn) as [Hn1 Hn2].
  destruct (Z.log2_spec d Hd) as [Hd1 Hd2].
  pose proof (Z.log2_nonneg n). pose proof (Z.log2_nonneg d).
  destruct (Z.leb_spec 0 e) as [He | He].
  - destruct (Z.leb_spec (d * 2 ^ e) n) as [Ht | Ht].
    + replace (0 <=? e) with true by (symmetry; apply Z.leb_le; lia). done.
    + destruct (Z.leb_spec 0 (e - 1)) as [He1 | He1].
      * assert (2 ^ Z.log2 n = 2 ^ (Z.log2 d + 1) * 2 ^ (e - 1)) as Hp
          by (rewrite <- Z.pow_add_r by lia; f_equal; lia).
        pose proof (Z.pow_pos_nonneg 2 (e - 1) ltac:(lia) ltac:(lia)).
        nia.
      * replace (- (e - 1)) with 1 by lia. subst e.
        assert (Z.log2 n = Z.log2 d) as Heq by lia.
        rewrite Z.pow_succ_r, <- Heq in Hd2 by lia. lia.
  - destruct (Z.leb_spec d (n * 2 ^ (- e))) as [Ht | Ht].
    + replace (0 <=? e) with false by (symmetry; apply Z.leb_gt; lia). done.
    + replace (0 <=? e - 1) with false by (symmetry; apply Z.leb_gt; lia).
      assert (2 ^ (Z.log2 d + 1) = 2 ^ Z.log2 n * 2 ^ (- (e - 1))) as Hp
        by (rewrite <- Z.pow_add_r by lia; f_equal; lia).
      pose proof (Z.pow_pos_nonneg 2 (- (e - 1)) ltac:(lia) ltac:(lia)).
      nia.
Qed.

(** The rounded quotient of two naturals below 2^53 is a fraction
    [m / 2^k] with the floor and the ceiling of the exact quotient. *)
Lemma round_to_double_floor_ceil n d :
  0 ≤ n < 2 ^ 53 → 0 < d < 2 ^ 53 →
  math_floor (round_to_double n d) = n / d
  ∧ math_ceil (round_to_double n d) = - ((- n) / d).
Proof.
  intros Hn Hd. unfold round_to_double.
  destruct (Z.eqb_spec n 0) as [-> | Hn0].
  { rewrite Z.div_0_l by lia. done. }
  pose proof (floor_log2_quotient_le n d ltac:(lia) ltac:(lia)) as He.
  set (e := floor_log2_quotient n d) in *. cbv zeta.
  set (ulp := Z.max e (-1022) - 52).
  assert (ulp ≤ 0 ∧ d < 2 * 2 ^ (- ulp)) as [Hulp HP].
  { destruct (Z.leb_spec 0 e) as [He0 | He0].
    - assert (e < 53) as He53.
      { apply (Z.pow_lt_mono_r_iff 2); [lia | lia | ].
        pose proof (Z.pow_pos_nonneg 2 e ltac:(lia) He0). nia. }
      subst ulp. rewrite Z.max_l by lia. split; [lia | ].
      replace (2 * 2 ^ (- (e - 52))) with (2 ^ (53 - e))
        by (rewrite <- (Z.pow_succ_r 2) by lia; f_equal; lia).
      assert (2 ^ 53 = 2 ^ e * 2 ^ (53 - e)) as Hp
        by (rewrite <- Z.pow_add_r by lia; f_equal; lia).
      pose proof (Z.pow_pos_nonneg 2 e ltac:(lia) He0).
      pose proof (Z.pow_pos_nonneg 2 (53 - e) ltac:(lia) ltac:(lia)).
      nia.
    - subst ulp. split; [lia | ].
      destruct (Z.le_gt_cases (-1022) e) as [Hmin | Hmin].
      + rewrite Z.max_l by lia.
        replace (2 * 2 ^ (- (e - 52))) with (2 ^ 53 * 2 ^ (- e))
          by (rewrite <- (Z.pow_succ_r 2), <- Z.pow_add_r by lia;
              f_equal; lia).
        pose proof (Z.pow_pos_nonneg 2 (- e) ltac:(lia) ltac:(lia)).
        nia.
      + rewrite Z.max_r by lia.
        assert (2 ^ 53 ≤ 2 ^ (- (-1022 - 52)))
          by (apply Z.pow_le_mono_r; lia).
        lia. }
  replace (0 <? ulp) with false by (symmetry; apply Z.ltb_ge; lia).
  rewrite math_floor_div, math_ceil_div.
  set (P := 2 ^ (- ulp)) in *.
  assert (0 < P) as HP0 by (apply Z.pow_pos_nonneg; lia).
  pose proof (round_half_even_near (n * P) d ltac:(lia)) as Hm.
  set (m := round_half_even (n * P) d) in *.
  pose proof (Z.div_mod n d ltac:(lia)) as Hdm.
  pose proof (Z.mod_pos_bound n d ltac:(lia)) as Hr.
  destruct (Z.eq_dec (n mod d) 0) as [Hr0 | Hr0].
  - assert (m = n / d * P) as ->.
    { subst m. replace (n * P) with (n / d * P * d) by nia.
      apply round_half_even_multiple. lia. }
    rewrite Z.div_mul by lia.
    replace (- (n / d * P)) with (- (n / d) * P) by lia.
    rewrite Z.div_mul by lia.
    split; [done | ]. f_equal.
    apply (Z.div_unique_pos _ _ _ 0); lia.
  - assert (n / d * P < m < (n / d + 1) * P) as Hk by nia.
    split.
    + symmetry. apply (Z.div_unique_pos _ _ _ (m - n / d * P)); lia.
    + f_equal.
      rewrite <- (Z.div_unique_pos (- m) P (- (n / d + 1))
                    ((n / d + 1) * P - m)) by lia.
      apply (Z.div_unique_pos _ _ _ (d - n mod d)); lia.
Qed.

Lemma round_to_double_nonneg n d :
  0 ≤ n → 0 < d → (0 <= round_to_double n d)%Q.
Proof.
  intros Hn Hd. unfold round_to_double.
  destruct (n =? 0); [done | ]. cbv zeta.
  match goal with |- context [0 <? ?u] => set (ulp := u) end.
  destruct (Z.ltb_spec 0 ulp) as [Hu | Hu].
  - rewrite <- (Zle_Qle 0).
    pose proof (Z.pow_pos_nonneg 2 ulp ltac:(lia) ltac:(lia)).
    pose proof (round_half_even_nonneg n (d * 2 ^ ulp) Hn ltac:(nia)). nia.
  - pose proof (Z.pow_pos_nonneg 2 (- ulp) ltac:(lia) ltac:(lia)).
    pose proof (round_half_even_nonneg (n * 2 ^ (- ulp)) d ltac:(nia) Hd).
    apply Qle_shift_div_l; [by rewrite <- (Zlt_Qlt 0) | ].
    rewrite Qmult_0_l. by rewrite <- (Zle_Qle 0).
Qed.

Lemma float_quotient_floor_ceil a b :
  0 ≤ a < 2 ^ 53 → b ≠ 0 → Z.abs b < 2 ^ 53 →
  math_floor (float_quotient a b) = a / b
  ∧ math_ceil (float_quotient a b) = - ((- a) / b).
Proof.
  intros Ha Hb0 Hb. unfold float_quotient. cbv zeta.
  rewrite (Z.abs_eq a) by lia.
  replace (a <? 0) with false by (symmetry; apply Z.ltb_ge; lia).
  cbn [xorb].
  destruct (round_to_double_floor_ceil a (Z.abs b) Ha ltac:(lia))
    as [Hf Hc].
  destruct (Z.ltb_spec b 0) as [Hneg | Hpos].
  - rewrite Z.abs_neq in Hf, Hc |- * by lia.
    unfold math_floor, math_ceil, Qceiling in *. split.
    + rewrite <- (Z.div_opp_opp a b) by lia. lia.
    + rewrite (Qfloor_comp _ (round_to_double a (- b)))
        by apply Qopp_involutive.
      rewrite Hf. f_equal. rewrite <- (Z.div_opp_opp (- a) b) by lia.
      f_equal. lia.
  - by rewrite Z.abs_eq in Hf, Hc |- * by lia.
Qed.

Lemma ceil_floor_gap x : 0 ≤ math_ceil x - math_floor x ≤ 1.
Proof.
  unfold math_ceil, math_floor.
  pose proof (Qfloor_le x) as H1. pose proof (Qlt_floor x) as H2.
  pose proof (Qle_ceiling x) as H3. pose proof (Qceiling_lt x) as H4.
  assert (Qfloor x ≤ Qceiling x)
    by (rewrite Zle_Qle; by eapply Qle_trans).
  assert (Qceiling x - 1 < Qfloor x + 1)
    by (rewrite Zlt_Qlt; by eapply Qlt_trans).
  lia.
Qed.

(** Some quotients as doubles: one third, the rounding of an integer of 54
    bits to even, a quotient that underflows to zero, and the rounding to a
    multiple of [2^-1074] below the normal range. *)
Lemma float_quotient_values :
  (float_quotient 1 3 == 6004799503160661 # 2 ^ 54)%Q
  ∧ (float_quotient (2 ^ 53 + 1) 1 == inject_Z (2 ^ 53))%Q
  ∧ (float_quotient (2 ^ 53 + 3) 1 == inject_Z (2 ^ 53 + 4))%Q
  ∧ (float_quotient 8 (10 ^ 330) == 0)%Q
  ∧ (float_quotient 1 (2 ^ 1075) == 0)%Q
  ∧ (float_quotient 3 (2 ^ 1075) == 1 # 2 ^ 1073)%Q
  ∧ (float_quotient (-7) 2 == - (7 # 2))%Q.
Proof. repeat split; vm_compute; reflexivity. Qed.

Lemma float_quotient_nonneg a b :
  0 ≤ a → 0 < b →
  0 ≤ math_floor (float_quotient a b) ∧ 0 ≤ math_ceil (float_quotient a b).
Proof.
  intros Ha Hb. unfold float_quotient. cbv zeta.
  replace (a <? 0) with false by (symmetry; apply Z.ltb_ge; lia).
  replace (b <? 0) with false by (symmetry; apply Z.ltb_ge; lia).
  cbn [xorb]. rewrite (Z.abs_eq a), (Z.abs_eq b) by lia.
  pose proof (round_to_double_nonneg a b Ha Hb) as Hq.
  assert (0 ≤ math_floor (round_to_double a b)) as Hf.
  { unfold math_floor. change 0 with (Qfloor 0). by apply Qfloor_resp_le. }
  pose proof (ceil_floor_gap (round_to_double a b)). lia.
Qed.

Section Construction.

Variable CAT_NAMES : list string.
Variable INT_NAMES : list string.

(** The dict [bytes_per_feature] once both loops have filled it. *)
Local Abbreviation bytes_per_feature categorical_types :=
  (foldl (fun (d : gmap string Z) nt => <[nt.1 := itemsize nt.2]> d)
     (foldl (fun (d : gmap string Z) name => <[name := itemsize np_float16]> d)
        ∅ INT_NAMES)
     (zip CAT_NAMES categorical_types)).

Local Abbreviation cat_path path :=
  (fun name => os_path_join path (String.append name ".bin")).

(** What a successful construction has computed. *)
Lemma init_Ok_inv fs path json bs pd drop_last self :
  __init__ CAT_NAMES INT_NAMES fs path json bs pd drop_last = Ok self →
  ∃ tys first_int first_bytes cbpb label,
    mapM (fun name => v ← dict_get json name;
                      get_categorical_feature_type (v + 1)) CAT_NAMES
    = Ok tys
    ∧ INT_NAMES !! 0%nat = Some first_int
    ∧ bytes_per_feature tys !! first_int = Some first_bytes
    ∧ mapM (fun feature => b ← dict_get (bytes_per_feature tys) feature;
                           mret (b * bs)) CAT_NAMES
      = Ok cbpb
    ∧ Forall (fun name => is_Some (fs !! cat_path path name)) CAT_NAMES
    ∧ is_Some (fs !! os_path_join path "numerical.bin")
    ∧ fs !! os_path_join path "label.bin" = Some label
    ∧ bs ≠ 0
    ∧ self =
      {| _batch_size := bs;
         _categorical_types := tys;
         _numerical_features_file := Some (os_path_join path "numerical.bin");
         _label_file := os_path_join path "label.bin";
         _categorical_features_files := Some (cat_path path <$> CAT_NAMES);
         _numerical_bytes_per_batch :=
           first_bytes * Z.of_nat (length INT_NAMES) * bs;
         _label_bytes_per_batch := 1 * bs;
         _categorical_bytes_per_batch := cbpb;
         _num_entries :=
           if negb drop_last
           then math_ceil (float_quotient (Z.of_nat (length label))
                             (1 * bs))
           else math_floor (float_quotient (Z.of_nat (length label))
                              (1 * bs));
         _prefetch_depth :=
           Z.min pd
             (if negb drop_last
              then math_ceil (float_quotient (Z.of_nat (length label))
                                (1 * bs))
              else math_floor (float_quotient (Z.of_nat (length label))
                                 (1 * bs))) |}.
Proof.
  unfold __init__. intros H. cbv zeta in H.
  apply bind_Ok_inv in H as (tys & Htys & H).
  apply bind_Ok_inv in H as (first_int & Hfirst & H).
  apply bind_Ok_inv in H as (first_bytes & Hbytes & H).
  apply bind_Ok_inv in H as (cbpb & Hcbpb & H).
  apply bind_Ok_inv in H as (files & Hfiles & H).
  apply bind_Ok_inv in H as (numf & Hnumf & H).
  apply bind_Ok_inv in H as (nsize & Hnsize & H).
  apply bind_Ok_inv in H as (nq & Hnq & H).
  apply bind_Ok_inv in H as (labf & Hlabf & H).
  apply bind_Ok_inv in H as (lsize & Hlsize & H).
  apply bind_Ok_inv in H as (q & Hq & H).
  apply os_open_Ok_inv in Hnumf as [-> Hnum].
  apply os_open_Ok_inv in Hlabf as [-> _].
  apply st_size_Ok_inv in Hlsize as (label & Hlabel & ->).
  apply true_div_Ok_inv in Hq as [Hbs ->].
  unfold list_get in Hfirst. destruct (INT_NAMES !! 0%nat) as [x | ] eqn:E;
    [ | done]. injection Hfirst as ->.
  unfold dict_get in Hbytes.
  destruct (bytes_per_feature tys !! first_int) as [x | ] eqn:E'; [ | done].
  injection Hbytes as ->.
  exists tys, first_int, first_bytes, cbpb, label.
  assert (files = cat_path path <$> CAT_NAMES) as ->.
  { eapply mapM_res_fmap; [exact Hfiles | ]. intros name y _ Hy.
    apply bind_Ok_inv in Hy as (f & Hf%os_open_Ok_inv & Hy).
    apply bind_Ok_inv in Hy as (? & _ & Hy).
    apply bind_Ok_inv in Hy as (? & _ & Hy).
    apply bind_Ok_inv in Hy as (? & _ & Hy).
    destruct Hf as [-> _]. by injection Hy as <-. }
  assert (Forall (fun name => is_Some (fs !! cat_path path name)) CAT_NAMES).
  { apply mapM_res_Ok in Hfiles. apply Forall_forall. intros name Hname.
    apply list_elem_of_lookup in Hname as [i Hi].
    destruct (Forall2_lookup_l _ _ _ _ _ Hfiles Hi) as (y & _ & Hy).
    apply bind_Ok_inv in Hy as (f & Hf%os_open_Ok_inv & _). by destruct Hf. }
  repeat split; try done.
  - intros ->. by apply Hbs.
  - by injection H as <-.
Qed.

(** The byte layout of a constructed dataset when the feature names are
    pairwise distinct. *)
Lemma init_layout fs path json bs pd drop_last self :
  NoDup (INT_NAMES ++ CAT_NAMES) →
  __init__ CAT_NAMES INT_NAMES fs path json bs pd drop_last = Ok self →
  _batch_size self = bs
  ∧ _label_bytes_per_batch self = 1 * bs
  ∧ _numerical_bytes_per_batch self
    = 2 * Z.of_nat (length INT_NAMES) * bs
  ∧ _categorical_bytes_per_batch self
    = (fun t => itemsize t * bs) <$> _categorical_types self
  ∧ length (_categorical_types self) = length CAT_NAMES
  ∧ Forall (fun t => t ∈ types) (_categorical_types self).
Proof.
  intros Hnd Hinit.
  destruct (init_Ok_inv _ _ _ _ _ _ _ Hinit)
    as (tys & fi & fb & cbpb & label
        & Htys & Hfi & Hfb & Hcbpb & _ & _ & _ & _ & ->).
  cbn [_batch_size _label_bytes_per_batch _numerical_bytes_per_batch
       _categorical_bytes_per_batch _categorical_types].
  apply NoDup_app in Hnd as (_ & Hdisj & Hcat).
  apply mapM_res_Ok in Htys. pose proof (Forall2_length _ _ _ Htys) as Hlen.
  assert ((zip CAT_NAMES tys).*1 = CAT_NAMES) as Hfst
    by (apply fst_zip; lia).
  assert (fb = 2) as ->.
  { apply list_elem_of_lookup_2 in Hfi as Hin.
    rewrite foldl_insert_zip_notin in Hfb by (rewrite Hfst; by apply Hdisj).
    rewrite foldl_insert_const_lookup, decide_True in Hfb by done.
    by injection Hfb as <-. }
  split; [done | split; [done | split; [done | split; [ | split; [done | ]]]]].
  - apply mapM_res_Ok in Hcbpb. apply list_eq. intros j.
    rewrite list_lookup_fmap.
    destruct (tys !! j) as [t | ] eqn:Ht; cbn [fmap option_fmap option_map].
    + destruct (Forall2_lookup_r _ _ _ _ _ Htys Ht) as (name & Hname & _).
      destruct (Forall2_lookup_l _ _ _ _ _ Hcbpb Hname) as (y & -> & Hy).
      apply bind_Ok_inv in Hy as (b & Hb & Hy). injection Hy as <-.
      unfold dict_get in Hb.
      rewrite (foldl_insert_zip_lookup _ _ name t) in Hb.
      * by injection Hb as <-.
      * by rewrite Hfst.
      * apply (list_elem_of_lookup_2 _ j). apply lookup_zip_with_Some.
        by exists name, t.
    + apply lookup_ge_None. apply lookup_ge_None in Ht.
      rewrite <- (Forall2_length _ _ _ Hcbpb). lia.
  - apply Forall_forall. intros t Ht.
    apply list_elem_of_lookup in Ht as [j Hj].
    destruct (Forall2_lookup_r _ _ _ _ _ Htys Hj) as (name & _ & Hname).
    apply bind_Ok_inv in Hname as (v & _ & Hv).
    by apply resolved_type_in_types in Hv.
Qed.

(** C5 (amended). After a successful construction [__len__] is the ceiling
    of the double [label_file_size / label_bytes_per_batch] when
    [drop_last_batch] is false and its floor when it is true, with
    [label_bytes_per_batch = 1 * batch_size]. Over a label file of fewer
    than 2^53 bytes with a batch size below 2^53 in absolute value this is
    the ceiling, resp. the floor, of the exact quotient; for a positive
    batch size it is the least number of batches covering the label file,
    resp. the greatest number of complete batches in it. Whatever the
    sizes, only the
    label file enters: over any other files with a label file of the same
    length the constructed length is the same. *)
Theorem C5_length_from_label_file fs path json bs pd drop_last self :
  __init__ CAT_NAMES INT_NAMES fs path json bs pd drop_last = Ok self →
  ∃ label,
    fs !! os_path_join path "label.bin" = Some label
    ∧ _label_bytes_per_batch self = 1 * bs
    ∧ __len__ self
      = (if drop_last
         then math_floor (float_quotient (Z.of_nat (length label))
                            (_label_bytes_per_batch self))
         else math_ceil (float_quotient (Z.of_nat (length label))
                           (_label_bytes_per_batch self)))
    ∧ (Z.of_nat (length label) < 2 ^ 53 → Z.abs bs < 2 ^ 53 →
       __len__ self
       = spec_group_batch_count (Z.of_nat (length label))
           (_label_bytes_per_batch self) drop_last
       ∧ (0 < bs →
          if drop_last
          then __len__ self * bs ≤ Z.of_nat (length label)
               < (__len__ self + 1) * bs
          else (__len__ self - 1) * bs < Z.of_nat (length label)
               ≤ __len__ self * bs))
    ∧ ∀ fs' label' self',
        fs' !! os_path_join path "label.bin" = Some label' →
        length label' = length label →
        __init__ CAT_NAMES INT_NAMES fs' path json bs pd drop_last = Ok self' →
        __len__ self' = __len__ self.
Proof.
  intros Hinit.
  destruct (init_Ok_inv _ _ _ _ _ _ _ Hinit)
    as (tys & fi & fb & cbpb & label & _ & _ & _ & _ & _ & _ & Hlab & Hbs & ->).
  exists label. unfold __len__, spec_group_batch_count.
  cbn [_label_bytes_per_batch _num_entries].
  split; [done | split; [done | split; [by destruct drop_last | split]]].
  - intros Hsize Hbound. replace (1 * bs) with bs by lia.
    destruct (float_quotient_floor_ceil (Z.of_nat (length label)) bs)
      as [Hfloor Hceil]; [lia | done | done | ].
    destruct drop_last; cbn [negb].
    + rewrite Hfloor. split; [symmetry; apply math_floor_div | ].
      intros Hpos.
      pose proof (Z.div_mod (Z.of_nat (length label)) bs Hbs).
      pose proof (Z.mod_pos_bound (Z.of_nat (length label)) bs Hpos). nia.
    + rewrite Hceil. split; [symmetry; apply math_ceil_div | ].
      intros Hpos.
      pose proof (Z.div_mod (- Z.of_nat (length label)) bs Hbs).
      pose proof (Z.mod_pos_bound (- Z.of_nat (length label)) bs Hpos). nia.
  - intros fs' label' self' Hlab' Hlen Hinit'.
    destruct (init_Ok_inv _ _ _ _ _ _ _ Hinit')
      as (? & ? & ? & ? & l' & _ & _ & _ & _ & _ & _ & Hl' & _ & ->).
    rewrite Hlab' in Hl'. injection Hl' as <-.
    cbn [_num_entries]. by rewrite Hlen.
Qed.

(** C6 (amended). Construction never compares the batch counts the group
    files imply. Its outcome, the dataset or the exception, is the same over
    any two sets of files in which the same paths exist and the label file
    has the same length, whatever the lengths of the categorical and
    numerical files. *)
Theorem C6_construction_ignores_other_lengths fs fs' path json bs pd drop_last :
  (∀ f, is_Some (fs !! f) ↔ is_Some (fs' !! f)) →
  length <$> fs !! os_path_join path "label.bin"
  = length <$> fs' !! os_path_join path "label.bin" →
  __init__ CAT_NAMES INT_NAMES fs path json bs pd drop_last
  = __init__ CAT_NAMES INT_NAMES fs' path json bs pd drop_last.
Proof.
  intros Hdom Hlabel. unfold __init__.
  destruct (mapM _ CAT_NAMES) as [tys | | ]; cbn [mbind res_bind];
    [ | done | done].
  cbv zeta.
  destruct (list_get INT_NAMES 0) as [first_int | | ]; cbn [mbind res_bind];
    [ | done | done].
  destruct (dict_get (bytes_per_feature tys) first_int) as [fb | | ];
    cbn [mbind res_bind]; [ | done | done].
  destruct (mapM (fun feature => b ← dict_get (bytes_per_feature tys) feature;
                                 mret (b * bs)) CAT_NAMES)
    as [cbpb | | ]; cbn [mbind res_bind]; [ | done | done].
  rewrite (mapM_res_ext
             (fun feature_name =>
                cat_file ← os_open fs (cat_path path feature_name);
                b ← dict_get (bytes_per_feature tys) feature_name;
                size ← st_size fs cat_file;
                _ ← true_div size (b * bs);
                mret cat_file)
             (fun feature_name =>
                cat_file ← os_open fs' (cat_path path feature_name);
                b ← dict_get (bytes_per_feature tys) feature_name;
                size ← st_size fs' cat_file;
                _ ← true_div size (b * bs);
                mret cat_file)).
  2:{ intros name _. rewrite (os_open_same_files fs fs') by apply Hdom.
      destruct (os_open fs' _) as [f | | ] eqn:Hf; cbn [mbind res_bind];
        [ | done | done].
      apply os_open_Ok_inv in Hf as [-> Hf].
      destruct (dict_get _ name); cbn [mbind res_bind]; [ | done | done].
      apply size_quotient_dropped; [by apply Hdom | done]. }
  destruct (mapM _ CAT_NAMES) as [files | | ]; cbn [mbind res_bind];
    [ | done | done].
  rewrite (os_open_same_files fs fs' (os_path_join path "numerical.bin"))
    by apply Hdom.
  destruct (os_open fs' (os_path_join path "numerical.bin"))
    as [f | | ] eqn:Hf; cbn [mbind res_bind]; [ | done | done].
  apply os_open_Ok_inv in Hf as [-> Hf].
  rewrite (size_quotient_dropped fs fs' (os_path_join path "numerical.bin"))
    by first [done | by apply Hdom].
  destruct (st_size fs' (os_path_join path "numerical.bin"))
    as [nsize | | ]; cbn [mbind res_bind]; [ | done | done].
  destruct (true_div nsize _); cbn [mbind res_bind]; [ | done | done].
  rewrite (os_open_same_files fs fs' (os_path_join path "label.bin"))
    by apply Hdom.
  destruct (os_open fs' (os_path_join path "label.bin"))
    as [f | | ] eqn:Hf'; cbn [mbind res_bind]; [ | done | done].
  apply os_open_Ok_inv in Hf' as [-> Hf'].
  by rewrite (st_size_same_length fs fs') by done.
Qed.

End Construction.

(** ** The reads of one fetch *)

Section Reads.

Variable INT_NAMES : list string.
Variable fs : gmap string (list Byte.byte).

(** The reads of the loop over the categorical files. *)
Local Abbreviation cat_events idx triples :=
  ((fun tr : Z * dtype * string => Pread tr.2 tr.1.1 (idx * tr.1.1))
     <$> triples).

Lemma get_label_trace self idx :
  ∃ r, runs (_get_label fs self idx) r
         [Pread (_label_file self) (_label_bytes_per_batch self)
                (idx * _label_bytes_per_batch self)].
Proof.
  unfold _get_label.
  destruct (os_pread_runs fs (_label_file self) (_label_bytes_per_batch self)
              (idx * _label_bytes_per_batch self)) as [[raw | e | ] Hr].
  - destruct (np_frombuffer raw np_bool) as [a | e | ] eqn:Ea.
    + eexists. eapply (runs_bind_Ok _ _ _ [_] _ []); [exact Hr | cbn beta].
      run_lift Ea. apply runs_ret.
    + eexists. eapply (runs_bind_Ok _ _ _ [_] _ []); [exact Hr | cbn beta].
      stop_lift Ea.
    + eexists. eapply (runs_bind_Ok _ _ _ [_] _ []); [exact Hr | cbn beta].
      stop_lift Ea.
  - eexists. by apply runs_bind_Raise.
  - eexists. by apply runs_bind_Blocks.
Qed.

Lemma get_numerical_trace self idx :
  ∃ r, runs (_get_numerical_features INT_NAMES fs self idx) r
         match _numerical_features_file self with
         | Some f => [Pread f (_numerical_bytes_per_batch self)
                        (idx * _numerical_bytes_per_batch self)]
         | None => []
         end.
Proof.
  unfold _get_numerical_features.
  destruct (_numerical_features_file self) as [f | ];
    [ | eexists; apply runs_ret].
  destruct (os_pread_runs fs f (_numerical_bytes_per_batch self)
              (idx * _numerical_bytes_per_batch self)) as [[raw | e | ] Hr].
  - destruct (np_frombuffer raw np_float16) as [a | e | ] eqn:Ea.
    + destruct (view_rows (Z.of_nat (length INT_NAMES)) (torch_from_numpy a))
        as [t | e | ] eqn:Et.
      * eexists. eapply (runs_bind_Ok _ _ _ [_] _ []); [exact Hr | cbn beta].
        run_lift Ea. run_lift Et. apply runs_ret.
      * eexists. eapply (runs_bind_Ok _ _ _ [_] _ []); [exact Hr | cbn beta].
        run_lift Ea. stop_lift Et.
      * eexists. eapply (runs_bind_Ok _ _ _ [_] _ []); [exact Hr | cbn beta].
        run_lift Ea. stop_lift Et.
    + eexists. eapply (runs_bind_Ok _ _ _ [_] _ []); [exact Hr | cbn beta].
      stop_lift Ea.
    + eexists. eapply (runs_bind_Ok _ _ _ [_] _ []); [exact Hr | cbn beta].
      stop_lift Ea.
  - eexists. by apply runs_bind_Raise.
  - eexists. by apply runs_bind_Blocks.
Qed.

Lemma cat_loop_trace idx triples acc :
  ∃ r t, runs (cat_loop fs idx triples acc) r t
    ∧ t `prefix_of` cat_events idx triples
    ∧ (∀ ts, r = Ok ts → t = cat_events idx triples).
Proof.
  revert acc. induction triples as [ | [[b ty] f] triples IH]; intros acc.
  - exists (Ok acc), []. split; [apply runs_ret | done].
  - cbn [cat_loop fmap list_fmap fst snd].
    destruct (os_pread_runs fs f b (idx * b)) as [[raw | e | ] Hr].
    2:{ exists (Raise e), [Pread f b (idx * b)].
        split; [by apply runs_bind_Raise | ].
        split; [apply prefix_cons, prefix_nil | done]. }
    2:{ exists Blocks, [Pread f b (idx * b)].
        split; [by apply runs_bind_Blocks | ].
        split; [apply prefix_cons, prefix_nil | done]. }
    destruct (np_frombuffer raw ty) as [a | e | ] eqn:Ea.
    2:{ exists (Raise e), [Pread f b (idx * b)]. split.
        - eapply (runs_bind_Ok _ _ _ [_] _ []); [exact Hr | cbn beta].
          stop_lift Ea.
        - split; [apply prefix_cons, prefix_nil | done]. }
    2:{ exists Blocks, [Pread f b (idx * b)]. split.
        - eapply (runs_bind_Ok _ _ _ [_] _ []); [exact Hr | cbn beta].
          stop_lift Ea.
        - split; [apply prefix_cons, prefix_nil | done]. }
    destruct (torch_amax (to_long (unsqueeze0 (torch_from_numpy a))))
      as [mx | e | ] eqn:Emax.
    2:{ exists (Raise e), [Pread f b (idx * b)]. split.
        - eapply (runs_bind_Ok _ _ _ [_] _ []); [exact Hr | cbn beta].
          run_lift Ea. stop_lift Emax.
        - split; [apply prefix_cons, prefix_nil | done]. }
    2:{ exists Blocks, [Pread f b (idx * b)]. split.
        - eapply (runs_bind_Ok _ _ _ [_] _ []); [exact Hr | cbn beta].
          run_lift Ea. stop_lift Emax.
        - split; [apply prefix_cons, prefix_nil | done]. }
    destruct (torch_amin (to_long (unsqueeze0 (torch_from_numpy a))))
      as [mn | e | ] eqn:Emin.
    2:{ exists (Raise e), [Pread f b (idx * b)]. split.
        - eapply (runs_bind_Ok _ _ _ [_] _ []); [exact Hr | cbn beta].
          run_lift Ea. run_lift Emax. stop_lift Emin.
        - split; [apply prefix_cons, prefix_nil | done]. }
    2:{ exists Blocks, [Pread f b (idx * b)]. split.
        - eapply (runs_bind_Ok _ _ _ [_] _ []); [exact Hr | cbn beta].
          run_lift Ea. run_lift Emax. stop_lift Emin.
        - split; [apply prefix_cons, prefix_nil | done]. }
    destruct (IH (acc ++ [to_long (unsqueeze0 (torch_from_numpy a))]))
      as (r & t & Hrun & Hpre & Hfull).
    exists r, (Pread f b (idx * b) :: t). split; [ | split].
    + eapply (runs_bind_Ok _ _ _ [_] _ t); [exact Hr | cbn beta].
      run_lift Ea. run_lift Emax. run_lift Emin. exact Hrun.
    + by apply prefix_cons.
    + intros ts Hts. by rewrite (Hfull ts Hts).
Qed.

Lemma get_categorical_trace self idx :
  ∃ r t, runs (_get_categorical_features fs self idx) r t
    ∧ t `prefix_of`
        match _categorical_features_files self with
        | Some files =>
            cat_events idx
              (zip (zip (_categorical_bytes_per_batch self)
                        (_categorical_types self)) files)
        | None => []
        end
    ∧ (∀ x, r = Ok x →
       t = match _categorical_features_files self with
           | Some files =>
               cat_events idx
                 (zip (zip (_categorical_bytes_per_batch self)
                           (_categorical_types self)) files)
           | None => []
           end).
Proof.
  unfold _get_categorical_features.
  destruct (_categorical_features_files self) as [files | ].
  2:{ exists (Ok None), []. split; [apply runs_ret | done]. }
  destruct (cat_loop_trace idx
              (zip (zip (_categorical_bytes_per_batch self)
                        (_categorical_types self)) files) [])
    as ([ts | e | ] & t & Hrun & Hpre & Hfull).
  - destruct (torch_cat_dim1 ts) as [c | e | ] eqn:Ec.
    + exists (Ok (Some (view_flat c))), t.
      split; [ | split; [done | intros _ _; by apply (Hfull ts)]].
      rewrite <- (app_nil_r t).
      eapply runs_bind_Ok; [exact Hrun | cbn beta].
      run_lift Ec. apply runs_ret.
    + exists (Raise e), t. split; [ | by split].
      rewrite <- (app_nil_r t).
      eapply runs_bind_Ok; [exact Hrun | cbn beta]. stop_lift Ec.
    + exists Blocks, t. split; [ | by split].
      rewrite <- (app_nil_r t).
      eapply runs_bind_Ok; [exact Hrun | cbn beta]. stop_lift Ec.
  - exists (Raise e), t. split; [by apply runs_bind_Raise | by split].
  - exists Blocks, t. split; [by apply runs_bind_Blocks | by split].
Qed.

Lemma preads_prefix t t' : t `prefix_of` t' → preads t `prefix_of` preads t'.
Proof. intros [k ->]. rewrite preads_app. by apply prefix_app_r. Qed.

Lemma preads_cat_events idx (triples : list (Z * dtype * string)) :
  preads (cat_events idx triples)
  = (fun tr : Z * dtype * string => (tr.2, tr.1.1, idx * tr.1.1))
      <$> triples.
Proof.
  induction triples as [ | tr triples IH]; [done | ].
  cbn [fmap list_fmap preads]. by rewrite <- IH.
Qed.

(** The reads of one fetch are those of [group_reads], in that order, up to
    the first group whose read or decoding raises; a fetch that returns has
    made all of them. *)
Lemma get_item_trace self idx :
  ∃ r t, runs (_get_item INT_NAMES fs self idx) r t
    ∧ preads t `prefix_of` group_reads self idx
    ∧ (∀ b, r = Ok b → preads t = group_reads self idx).
Proof.
  unfold _get_item, group_reads.
  destruct (get_label_trace self idx) as [rl Hl].
  destruct (get_numerical_trace self idx) as [rn Hn].
  destruct (get_categorical_trace self idx) as (rc & tc & Hc & Hpre & Hfull).
  set (el := Pread (_label_file self) (_label_bytes_per_batch self)
               (idx * _label_bytes_per_batch self)) in *.
  set (tn := match _numerical_features_file self with
             | Some f => [Pread f (_numerical_bytes_per_batch self)
                            (idx * _numerical_bytes_per_batch self)]
             | None => []
             end) in *.
  assert (preads tn
          = match _numerical_features_file self with
            | Some f => [(f, _numerical_bytes_per_batch self,
                            idx * _numerical_bytes_per_batch self)]
            | None => []
            end) as Htn.
  { subst tn. by destruct (_numerical_features_file self). }
  rewrite <- Htn. clear Htn.
  destruct rl as [click | e | ].
  2:{ exists (Raise e), [el]. split; [by apply runs_bind_Raise | ].
      split; [apply prefix_cons, prefix_nil | done]. }
  2:{ exists Blocks, [el]. split; [by apply runs_bind_Blocks | ].
      split; [apply prefix_cons, prefix_nil | done]. }
  destruct rn as [num | e | ].
  2:{ exists (Raise e), ([el] ++ tn). split.
      - eapply runs_bind_Ok; [exact Hl | by apply runs_bind_Raise].
      - rewrite preads_app. split; [ | done].
        apply prefix_cons, prefix_app_r. done. }
  2:{ exists Blocks, ([el] ++ tn). split.
      - eapply runs_bind_Ok; [exact Hl | by apply runs_bind_Blocks].
      - rewrite preads_app. split; [ | done].
        apply prefix_cons, prefix_app_r. done. }
  assert (preads ([el] ++ tn ++ tc) `prefix_of`
          ((_label_file self, _label_bytes_per_batch self,
              idx * _label_bytes_per_batch self)
           :: preads tn ++
              match _categorical_features_files self with
              | Some files =>
                  (fun tr : Z * dtype * string =>
                     (tr.2, tr.1.1, idx * tr.1.1))
                    <$> zip (zip (_categorical_bytes_per_batch self)
                                 (_categorical_types self)) files
              | None => []
              end)) as Hprefix.
  { rewrite !preads_app. apply prefix_cons, prefix_app.
    apply preads_prefix in Hpre.
    destruct (_categorical_features_files self); [ | done].
    by rewrite preads_cat_events in Hpre. }
  destruct rc as [cat | e | ].
  - exists (Ok (num, cat, click)), ([el] ++ tn ++ tc). split; [ | split].
    + eapply runs_bind_Ok; [exact Hl | cbn beta].
      eapply runs_bind_Ok; [exact Hn | cbn beta].
      rewrite <- (app_nil_r tc).
      eapply runs_bind_Ok; [exact Hc | apply runs_ret].
    + done.
    + intros _ _. rewrite (Hfull cat eq_refl), !preads_app.
      cbn [preads app]. do 2 f_equal.
      destruct (_categorical_features_files self); [ | done].
      by rewrite preads_cat_events.
  - exists (Raise e), ([el] ++ tn ++ tc). split; [ | by split].
    eapply runs_bind_Ok; [exact Hl | cbn beta].
    eapply runs_bind_Ok; [exact Hn | by apply runs_bind_Raise].
  - exists Blocks, ([el] ++ tn ++ tc). split; [ | by split].
    eapply runs_bind_Ok; [exact Hl | cbn beta].
    eapply runs_bind_Ok; [exact Hn | by apply runs_bind_Blocks].
Qed.

(** One pass of the loop of the categorical getter: what it gives alone,
    and inside any longer loop. *)
Lemma cat_loop_pass idx (tr : Z * dtype * string) :
  ∃ r, runs (cat_loop fs idx [tr] []) r [Pread tr.2 tr.1.1 (idx * tr.1.1)]
    ∧ match r with
      | Ok _ =>
          ∃ t, ∀ rest acc r' t',
            runs (cat_loop fs idx rest (acc ++ [t])) r' t' →
            runs (cat_loop fs idx (tr :: rest) acc) r'
                 (Pread tr.2 tr.1.1 (idx * tr.1.1) :: t')
      | Raise e =>
          ∀ rest acc,
            runs (cat_loop fs idx (tr :: rest) acc) (Raise e)
                 [Pread tr.2 tr.1.1 (idx * tr.1.1)]
      | Blocks =>
          ∀ rest acc,
            runs (cat_loop fs idx (tr :: rest) acc) Blocks
                 [Pread tr.2 tr.1.1 (idx * tr.1.1)]
      end.
Proof.
  destruct tr as [[b ty] f]. cbn [cat_loop fst snd].
  destruct (os_pread_runs fs f b (idx * b)) as [[raw | e | ] Hr].
  2:{ exists (Raise e). split; [by apply runs_bind_Raise | ].
      intros rest acc. by apply runs_bind_Raise. }
  2:{ exists Blocks. split; [by apply runs_bind_Blocks | ].
      intros rest acc. by apply runs_bind_Blocks. }
  destruct (np_frombuffer raw ty) as [a | e | ] eqn:Ea.
  2:{ exists (Raise e). split; [ | intros rest acc];
        (eapply (runs_bind_Ok _ _ _ [_] _ []); [exact Hr | cbn beta]);
        stop_lift Ea. }
  2:{ exists Blocks. split; [ | intros rest acc];
        (eapply (runs_bind_Ok _ _ _ [_] _ []); [exact Hr | cbn beta]);
        stop_lift Ea. }
  destruct (torch_amax (to_long (unsqueeze0 (torch_from_numpy a))))
    as [mx | e | ] eqn:Emax.
  2:{ exists (Raise e). split; [ | intros rest acc];
        (eapply (runs_bind_Ok _ _ _ [_] _ []); [exact Hr | cbn beta]);
        run_lift Ea; stop_lift Emax. }
  2:{ exists Blocks. split; [ | intros rest acc];
        (eapply (runs_bind_Ok _ _ _ [_] _ []); [exact Hr | cbn beta]);
        run_lift Ea; stop_lift Emax. }
  destruct (torch_amin (to_long (unsqueeze0 (torch_from_numpy a))))
    as [mn | e | ] eqn:Emin.
  2:{ exists (Raise e). split; [ | intros rest acc];
        (eapply (runs_bind_Ok _ _ _ [_] _ []); [exact Hr | cbn beta]);
        run_lift Ea; run_lift Emax; stop_lift Emin. }
  2:{ exists Blocks. split; [ | intros rest acc];
        (eapply (runs_bind_Ok _ _ _ [_] _ []); [exact Hr | cbn beta]);
        run_lift Ea; run_lift Emax; stop_lift Emin. }
  exists (Ok ([] ++ [to_long (unsqueeze0 (torch_from_numpy a))])). split.
  - eapply (runs_bind_Ok _ _ _ [_] _ []); [exact Hr | cbn beta].
    run_lift Ea. run_lift Emax. run_lift Emin. apply runs_ret.
  - exists (to_long (unsqueeze0 (torch_from_numpy a))).
    intros rest acc r' t' Hrest.
    eapply (runs_bind_Ok _ _ _ [_] _ t'); [exact Hr | cbn beta].
    run_lift Ea. run_lift Emax. run_lift Emin. exact Hrest.
Qed.

Local Abbreviation cat_returns idx :=
  (fun tr : Z * dtype * string =>
     returns (cat_loop fs idx [tr] [] new_world).1).

Local Abbreviation cat_reads idx triples :=
  ((fun tr : Z * dtype * string => (tr.2, tr.1.1, idx * tr.1.1))
     <$> triples).

(** The loop reads the categorical files in order, up to and including
    the first one whose pass does not return. *)
Lemma cat_loop_reads idx triples acc :
  ∃ r t, runs (cat_loop fs idx triples acc) r t
    ∧ preads t
      = take (groups_read (cat_returns idx <$> triples))
             (cat_reads idx triples)
    ∧ (∀ ts, r = Ok ts → Forall (fun tr => cat_returns idx tr = true) triples).
Proof.
  revert acc. induction triples as [ | tr triples IH]; intros acc.
  { exists (Ok acc), []. split; [apply runs_ret | by split]. }
  destruct (cat_loop_pass idx tr) as (r0 & Hr0 & Hin).
  destruct (runs_new_world _ _ _ Hr0) as [Hret _].
  cbn [fmap list_fmap groups_read]. rewrite Hret.
  destruct r0 as [ts0 | e | ].
  - destruct Hin as [t Hin].
    destruct (IH (acc ++ [t])) as (r & tl & Hrun & Hreads & Hall).
    exists r, (Pread tr.2 tr.1.1 (idx * tr.1.1) :: tl).
    split; [by apply Hin | ]. cbn [returns preads take]. split.
    + by rewrite Hreads.
    + intros ts Hts. constructor; [by rewrite Hret | by eapply Hall].
  - exists (Raise e), [Pread tr.2 tr.1.1 (idx * tr.1.1)].
    split; [apply Hin | ]. cbn [returns preads take]. by split.
  - exists Blocks, [Pread tr.2 tr.1.1 (idx * tr.1.1)].
    split; [apply Hin | ]. cbn [returns preads take]. by split.
Qed.

Lemma get_categorical_reads self idx :
  ∃ r t, runs (_get_categorical_features fs self idx) r t
    ∧ preads t
      = match _categorical_features_files self with
        | Some files =>
            take (groups_read
                    (cat_returns idx
                       <$> zip (zip (_categorical_bytes_per_batch self)
                                    (_categorical_types self)) files))
                 (cat_reads idx
                    (zip (zip (_categorical_bytes_per_batch self)
                              (_categorical_types self)) files))
        | None => []
        end
    ∧ (∀ x, r = Ok x →
       match _categorical_features_files self with
       | Some files =>
           Forall (fun tr => cat_returns idx tr = true)
             (zip (zip (_categorical_bytes_per_batch self)
                       (_categorical_types self)) files)
       | None => True
       end).
Proof.
  unfold _get_categorical_features.
  destruct (_categorical_features_files self) as [files | ].
  2:{ exists (Ok None), []. split; [apply runs_ret | done]. }
  destruct (cat_loop_reads idx
              (zip (zip (_categorical_bytes_per_batch self)
                        (_categorical_types self)) files) [])
    as ([ts | e | ] & t & Hrun & Hreads & Hall).
  - destruct (torch_cat_dim1 ts) as [c | e | ] eqn:Ec.
    + exists (Ok (Some (view_flat c))), t.
      split; [ | split; [done | intros _ _; by apply (Hall ts)]].
      rewrite <- (app_nil_r t).
      eapply runs_bind_Ok; [exact Hrun | cbn beta].
      run_lift Ec. apply runs_ret.
    + exists (Raise e), t. split; [ | by split].
      rewrite <- (app_nil_r t).
      eapply runs_bind_Ok; [exact Hrun | cbn beta]. stop_lift Ec.
    + exists Blocks, t. split; [ | by split].
      rewrite <- (app_nil_r t).
      eapply runs_bind_Ok; [exact Hrun | cbn beta]. stop_lift Ec.
  - exists (Raise e), t. split; [by apply runs_bind_Raise | by split].
  - exists Blocks, t. split; [by apply runs_bind_Blocks | by split].
Qed.

(** The reads of one fetch are exactly those of [group_reads], in that order,
    up to and including the first group whose read or decoding does not
    return; a fetch that returns has found every group returning. *)
Lemma get_item_reads self idx :
  ∃ r t, runs (_get_item INT_NAMES fs self idx) r t
    ∧ preads t
      = take (groups_read (group_outcomes INT_NAMES fs self idx))
             (group_reads self idx)
    ∧ (∀ b, r = Ok b →
       Forall (fun ok => ok = true) (group_outcomes INT_NAMES fs self idx)).
Proof.
  unfold _get_item, group_reads, group_outcomes.
  destruct (get_label_trace self idx) as [rl Hl].
  destruct (get_numerical_trace self idx) as [rn Hn].
  destruct (get_categorical_reads self idx) as (rc & tc & Hc & Hreads & Hall).
  destruct (runs_new_world _ _ _ Hl) as [Hrl _].
  destruct (runs_new_world _ _ _ Hn) as [Hrn _].
  set (el := Pread (_label_file self) (_label_bytes_per_batch self)
               (idx * _label_bytes_per_batch self)) in *.
  cbn [groups_read take]. rewrite Hrl.
  destruct rl as [click | e | ].
  2:{ exists (Raise e), [el]. split; [by apply runs_bind_Raise | ].
      cbn [returns]. by split. }
  2:{ exists Blocks, [el]. split; [by apply runs_bind_Blocks | ].
      cbn [returns]. by split. }
  cbn [returns].
  destruct (_numerical_features_file self) as [f | ] eqn:Ef.
  - set (en := Pread f (_numerical_bytes_per_batch self)
                 (idx * _numerical_bytes_per_batch self)) in *.
    cbn [app groups_read take]. rewrite Hrn.
    destruct rn as [num | e | ].
    2:{ exists (Raise e), ([el] ++ [en]). split.
        - eapply runs_bind_Ok; [exact Hl | by apply runs_bind_Raise].
        - cbn [returns]. by split. }
    2:{ exists Blocks, ([el] ++ [en]). split.
        - eapply runs_bind_Ok; [exact Hl | by apply runs_bind_Blocks].
        - cbn [returns]. by split. }
    cbn [returns].
    exists (rc ≫= fun cat => Ok (num, cat, click)),
           ([el] ++ [en] ++ tc).
    split; [ | split].
    + eapply runs_bind_Ok; [exact Hl | cbn beta].
      eapply runs_bind_Ok; [exact Hn | cbn beta].
      destruct rc as [cat | e | ]; cbn [mbind res_bind].
      * rewrite <- (app_nil_r tc).
        eapply runs_bind_Ok; [exact Hc | apply runs_ret].
      * by apply runs_bind_Raise.
      * by apply runs_bind_Blocks.
    + rewrite !preads_app. cbn [preads app]. do 2 f_equal.
      rewrite Hreads. by destruct (_categorical_features_files self).
    + intros b Hb. destruct rc as [cat | e | ]; [ | done | done].
      specialize (Hall cat eq_refl). repeat constructor.
      destruct (_categorical_features_files self); [ | constructor].
      by apply Forall_fmap.
  - assert (rn = Ok None) as ->.
    { rewrite <- Hrn. unfold _get_numerical_features. by rewrite Ef. }
    cbn [app].
    exists (rc ≫= fun cat => Ok (None, cat, click)), ([el] ++ [] ++ tc).
    split; [ | split].
    + eapply runs_bind_Ok; [exact Hl | cbn beta].
      eapply runs_bind_Ok; [exact Hn | cbn beta].
      destruct rc as [cat | e | ]; cbn [mbind res_bind].
      * rewrite <- (app_nil_r tc).
        eapply runs_bind_Ok; [exact Hc | apply runs_ret].
      * by apply runs_bind_Raise.
      * by apply runs_bind_Blocks.
    + rewrite !preads_app. cbn [preads app]. f_equal.
      rewrite Hreads. by destruct (_categorical_features_files self).
    + intros b Hb. destruct rc as [cat | e | ]; [ | done | done].
      specialize (Hall cat eq_refl). constructor; [done | ].
      destruct (_categorical_features_files self); [ | constructor].
      by apply Forall_fmap.
Qed.

End Reads.

Lemma cat_reads_zip idx bs path (names : list string) (tys : list dtype) :
  (fun tr : Z * dtype * string => (tr.2, tr.1.1, idx * tr.1.1))
    <$> zip (zip ((fun t => itemsize t * bs) <$> tys) tys)
            ((fun name => os_path_join path (String.append name ".bin"))
               <$> names)
  = zip_with
      (fun name t => (os_path_join path (String.append name ".bin"),
                      itemsize t * bs, idx * (itemsize t * bs)))
      names tys.
Proof.
  revert names. induction tys as [ | t tys IH]; intros [ | name names];
    cbn; try done.
  f_equal. apply IH.
Qed.

(** C4 (amended). In a dataset constructed over pairwise distinct feature
    names, [label_bytes_per_batch = 1 * batch_size], [numerical_bytes_per_batch
    = 2 * num_numerical_features * batch_size] and each categorical group's
    [bytes_per_batch] is its resolved element width times [batch_size]. A
    fetch of batch [idx] reads the groups in the order label, numerical,
    categorical features, each with one positional read of that group's
    [bytes_per_batch] bytes at offset [idx * bytes_per_batch], and stops at
    the first group whose read or decoding raises: the label read is always
    made, the reads are a prefix of the groups' reads and, when these are
    in the range of a read call, exactly those of the groups up to and
    including the first one that raises; a fetch that returns a batch has
    found every group returning and has made exactly one such read for
    every group. *)
Theorem C4_group_reads CAT_NAMES INT_NAMES fs path json bs pd drop_last self idx :
  NoDup (INT_NAMES ++ CAT_NAMES) →
  __init__ CAT_NAMES INT_NAMES fs path json bs pd drop_last = Ok self →
  group_reads self idx
  = (os_path_join path "label.bin", 1 * bs, idx * (1 * bs))
    :: (os_path_join path "numerical.bin",
        2 * Z.of_nat (length INT_NAMES) * bs,
        idx * (2 * Z.of_nat (length INT_NAMES) * bs))
    :: zip_with
         (fun name t => (os_path_join path (String.append name ".bin"),
                         itemsize t * bs, idx * (itemsize t * bs)))
         CAT_NAMES (_categorical_types self)
  ∧ length (_categorical_types self) = length CAT_NAMES
  ∧ length (group_outcomes INT_NAMES fs self idx)
    = length (group_reads self idx)
  ∧ (Forall read_in_range (group_reads self idx) →
     preads (trace (_get_item INT_NAMES fs self idx new_world).2)
     = take (groups_read (group_outcomes INT_NAMES fs self idx))
            (group_reads self idx))
  ∧ head (preads (trace (_get_item INT_NAMES fs self idx new_world).2))
    = Some (os_path_join path "label.bin", 1 * bs, idx * (1 * bs))
  ∧ preads (trace (_get_item INT_NAMES fs self idx new_world).2)
    `prefix_of` group_reads self idx
  ∧ ∀ b, (_get_item INT_NAMES fs self idx new_world).1 = Ok b →
         preads (trace (_get_item INT_NAMES fs self idx new_world).2)
         = group_reads self idx
         ∧ Forall (fun ok => ok = true)
             (group_outcomes INT_NAMES fs self idx).
Proof.
  intros Hnd Hinit.
  destruct (init_layout _ _ _ _ _ _ _ _ _ Hnd Hinit)
    as (_ & Hl & Hn & Hc & Hlen & _).
  destruct (get_item_trace INT_NAMES fs self idx)
    as (r & t & Hrun & Hpre & Hfull).
  destruct (runs_new_world _ _ _ Hrun) as [Hr Ht].
  destruct (get_item_reads INT_NAMES fs self idx)
    as (r' & t' & Hrun' & Hreads & Hall).
  destruct (runs_new_world _ _ _ Hrun') as [Hr' Ht'].
  rewrite Ht in Ht'. subst t'. rewrite Hr in Hr'. subst r'. rewrite Hr, Ht.
  assert (group_reads self idx
          = (os_path_join path "label.bin", 1 * bs, idx * (1 * bs))
            :: (os_path_join path "numerical.bin",
                2 * Z.of_nat (length INT_NAMES) * bs,
                idx * (2 * Z.of_nat (length INT_NAMES) * bs))
            :: zip_with
                 (fun name t => (os_path_join path (String.append name ".bin"),
                                 itemsize t * bs, idx * (itemsize t * bs)))
                 CAT_NAMES (_categorical_types self)) as Hgroups.
  { destruct (init_Ok_inv _ _ _ _ _ _ _ _ _ Hinit)
      as (tys & fi & fb & cbpb & label & _ & _ & _ & _ & _ & _ & _ & _ & ->).
    unfold group_reads. cbn in Hl, Hn, Hc |- *. rewrite Hn, Hc.
    do 2 f_equal. apply cat_reads_zip. }
  split; [exact Hgroups | split; [exact Hlen | ]].
  split; [ | split; [intros _; exact Hreads | split; [ | split; [exact Hpre | ]]]].
  - unfold group_outcomes, group_reads. cbn [length].
    rewrite !length_app.
    destruct (_numerical_features_file self),
      (_categorical_features_files self); by rewrite ?length_fmap.
  - rewrite Hreads, Hgroups. reflexivity.
  - intros b Hb. split; [by apply (Hfull b) | by apply (Hall b)].
Qed.

(** ** Decoding *)

Lemma chunks_length count k l : length (chunks count k l) = count.
Proof.
  revert l. induction count as [ | count IH]; intros l; [done | ].
  cbn [chunks length]. by rewrite IH.
Qed.

Lemma chunks_lookup count k l j :
  (j < count)%nat → chunks count k l !! j = Some (take k (drop (j * k) l)).
Proof.
  revert l j. induction count as [ | count IH]; intros l j Hj; [lia | ].
  destruct j as [ | j]; cbn [chunks]; [done | ].
  change ((take k l :: chunks count k (drop k l)) !! S j)
    with (chunks count k (drop k l) !! j).
  rewrite IH by lia. rewrite drop_drop. done.
Qed.

Lemma take_drop_length {A} (l : list A) off n :
  (off + n ≤ length l)%nat → length (take n (drop off l)) = n.
Proof. intros H. rewrite length_take, length_drop. lia. Qed.

Lemma np_frombuffer_full raw t count :
  0 < itemsize t → 0 ≤ count →
  Z.of_nat (length raw) = count * itemsize t →
  np_frombuffer raw t
  = Ok (Tensor t [count]
          (decode_elem t
             <$> chunks (Z.to_nat count) (Z.to_nat (itemsize t)) raw)).
Proof.
  intros Hsz Hcount Hlen. unfold np_frombuffer. rewrite Hlen.
  rewrite Z.mod_mul by lia. cbn [Z.eqb]. by rewrite Z.div_mul by lia.
Qed.

Lemma decode_bool_singleton b :
  decode_elem np_bool [b] = if byte_val b =? 0 then 0 else 1.
Proof. cbn [decode_elem le_unsigned]. by rewrite Z.mul_0_r, Z.add_0_r. Qed.

Lemma os_pread_batch fs fd bpb idx :
  holds_batch fs fd bpb idx → 0 ≤ idx → 0 ≤ bpb →
  runs (os_pread fs fd bpb (idx * bpb)) (Ok (batch_bytes fs fd bpb idx))
       [Pread fd bpb (idx * bpb)]
  ∧ Z.of_nat (length (batch_bytes fs fd bpb idx)) = bpb.
Proof.
  intros (content & Hfd & Hfull) Hidx Hbpb. unfold batch_bytes.
  rewrite Hfd. cbn [default from_option id].
  assert (0 ≤ idx * bpb) by nia. split.
  - apply os_pread_full; [done | lia | lia].
  - rewrite take_drop_length by lia. lia.
Qed.

(** The numerical read of a batch that the numerical file holds in full. *)
Lemma get_numerical_full INT_NAMES fs self idx f :
  _numerical_features_file self = Some f →
  0 ≤ idx → 0 < _batch_size self → (0 < length INT_NAMES)%nat →
  _numerical_bytes_per_batch self
  = 2 * Z.of_nat (length INT_NAMES) * _batch_size self →
  holds_batch fs f (_numerical_bytes_per_batch self) idx →
  runs (_get_numerical_features INT_NAMES fs self idx)
       (Ok (Some
              (Tensor np_float16
                 [_batch_size self; Z.of_nat (length INT_NAMES)]
                 (decode_elem np_float16
                    <$> chunks
                          (Z.to_nat (_batch_size self
                                     * Z.of_nat (length INT_NAMES)))
                          2
                          (batch_bytes fs f (_numerical_bytes_per_batch self)
                             idx)))))
       [Pread f (_numerical_bytes_per_batch self)
              (idx * _numerical_bytes_per_batch self)].
Proof.
  intros Hf Hidx Hbs Hk Hbpb Hfull. unfold _get_numerical_features.
  rewrite Hf.
  destruct (os_pread_batch fs f _ idx Hfull Hidx) as [Hrun Hlen]; [lia | ].
  eapply (runs_bind_Ok _ _ _ [_] _ []); [exact Hrun | cbn beta].
  rewrite (np_frombuffer_full _ np_float16
             (_batch_size self * Z.of_nat (length INT_NAMES)));
    [ | done | lia | rewrite Hlen, Hbpb; cbn [itemsize]; lia].
  eapply (runs_bind_Ok _ _ _ [] _ []); [apply runs_lift | cbn beta].
  unfold view_rows, numel, torch_from_numpy. cbn [t_data t_dtype].
  rewrite length_fmap, chunks_length, Z2Nat.id by lia.
  replace (Z.of_nat (length INT_NAMES) <=? 0) with false
    by (symmetry; apply Z.leb_gt; lia).
  rewrite Z.mod_mul, Z.div_mul by lia. cbn [Z.eqb negb orb].
  eapply (runs_bind_Ok _ _ _ [] _ []); [apply runs_lift | apply runs_ret].
Qed.

Lemma chunks_singletons (l : list Byte.byte) :
  chunks (length l) 1 l = (fun b => [b]) <$> l.
Proof. induction l as [ | b l IH]; [done | ]. cbn. by rewrite drop_0, IH. Qed.

Lemma types_itemsize_pos t : t ∈ types → 0 < itemsize t.
Proof.
  intros Ht. apply list_elem_of_In in Ht. simpl in Ht.
  destruct Ht as [<- | [<- | [<- | []]]]; done.
Qed.

Lemma types_decode t raw :
  t ∈ types →
  decode_elem t raw = to_signed (8 * itemsize t) (le_unsigned raw).
Proof.
  intros Ht. apply list_elem_of_In in Ht. simpl in Ht.
  destruct Ht as [<- | [<- | [<- | []]]]; done.
Qed.

Lemma lookup_concat_blocks {A} (ls : list (list A)) (m f r : nat) :
  Forall (fun l => length l = m) ls → (r < m)%nat →
  concat ls !! (f * m + r)%nat = ls !! f ≫= (fun l => l !! r).
Proof.
  intros Hls Hr. revert f. induction Hls as [ | l ls Hl _ IH]; intros f.
  - by destruct f.
  - destruct f as [ | f]; cbn [concat].
    + rewrite lookup_app_l by lia. done.
    + rewrite lookup_app_r by (cbn; lia).
      replace (S f * m + r - length l)%nat with (f * m + r)%nat
        by (cbn; lia).
      apply IH.
Qed.

Lemma length_concat_blocks {A} (ls : list (list A)) (m : nat) :
  Forall (fun l => length l = m) ls →
  length (concat ls) = (length ls * m)%nat.
Proof.
  induction 1 as [ | l ls Hl _ IH]; [done | ].
  cbn [concat length]. rewrite length_app, IH, Hl. lia.
Qed.

Lemma torch_amax_Ok t : t_data t ≠ [] → ∃ v, torch_amax t = Ok v.
Proof. unfold torch_amax. destruct (t_data t); [done | by eexists]. Qed.

Lemma torch_amin_Ok t : t_data t ≠ [] → ∃ v, torch_amin t = Ok v.
Proof. unfold torch_amin. destruct (t_data t); [done | by eexists]. Qed.

(** The loop over categorical files each holding the batch in full. *)
Lemma cat_loop_full fs path bs idx names tys acc :
  0 ≤ idx → 0 < bs →
  Forall2 (fun name t =>
             t ∈ types
             ∧ holds_batch fs (os_path_join path (String.append name ".bin"))
                 (itemsize t * bs) idx) names tys →
  ∃ tr,
    runs (cat_loop fs idx
            (zip (zip ((fun t => itemsize t * bs) <$> tys) tys)
                 ((fun name => os_path_join path (String.append name ".bin"))
                    <$> names))
            acc)
         (Ok (acc ++ zip_with
                       (fun name t =>
                          Tensor torch_long [1; bs]
                            (categorical_column fs path bs idx name t))
                       names tys))
         tr.
Proof.
  intros Hidx Hbs Hall. revert acc.
  induction Hall as [ | name t names tys [Ht Hfull] _ IH]; intros acc.
  - exists []. cbn. rewrite app_nil_r. apply runs_ret.
  - cbn [fmap list_fmap zip_with cat_loop].
    pose proof (types_itemsize_pos t Ht) as Hsz.
    destruct (os_pread_batch fs _ _ idx Hfull Hidx) as [Hrun Hlen]; [lia | ].
    destruct (IH (acc ++ [Tensor torch_long [1; bs]
                            (categorical_column fs path bs idx name t)]))
      as [tr Htr].
    exists ([Pread (os_path_join path (String.append name ".bin"))
               (itemsize t * bs) (idx * (itemsize t * bs))] ++ tr).
    eapply runs_bind_Ok; [exact Hrun | cbn beta].
    rewrite (np_frombuffer_full _ t bs); [ | done | lia | lia].
    eapply (runs_bind_Ok _ _ _ [] _ tr); [apply runs_lift | cbn beta].
    change (to_long (unsqueeze0 (torch_from_numpy (Tensor t [bs] ?d))))
      with (Tensor torch_long [1; bs] d).
    change (decode_elem t <$> _)
      with (categorical_column fs path bs idx name t).
    assert (categorical_column fs path bs idx name t ≠ []) as Hne.
    { intros Hnil%(f_equal length). revert Hnil. unfold categorical_column.
      rewrite length_fmap, chunks_length. cbn [length]. lia. }
    destruct (torch_amax_Ok (Tensor torch_long [1; bs]
                (categorical_column fs path bs idx name t)) Hne) as [mx ->].
    destruct (torch_amin_Ok (Tensor torch_long [1; bs]
                (categorical_column fs path bs idx name t)) Hne) as [mn ->].
    eapply (runs_bind_Ok _ _ _ [] _ tr); [apply runs_lift | cbn beta].
    eapply (runs_bind_Ok _ _ _ [] _ tr); [apply runs_lift | cbn beta].
    by rewrite <- app_assoc in Htr.
Qed.

Lemma fmap_data_zip_with {A B} (col : A → B → list Z) shape
    (names : list A) (tys : list B) :
  t_data <$> zip_with (fun name t => Tensor torch_long shape (col name t))
               names tys
  = zip_with col names tys.
Proof.
  revert tys. induction names as [ | name names IH]; intros [ | t tys];
    cbn; try done.
  by rewrite <- IH.
Qed.

Lemma torch_cat_columns {A B} (col : A → B → list Z) shape
    (names : list A) (tys : list B) :
  names ≠ [] → length names = length tys →
  torch_cat_dim1
    (zip_with (fun name t => Tensor torch_long shape (col name t)) names tys)
  = Ok (Tensor torch_long
          [1; Z.of_nat (length (concat (zip_with col names tys)))]
          (concat (zip_with col names tys))).
Proof.
  intros Hne Hlen. rewrite <- (fmap_data_zip_with col shape).
  destruct names as [ | name names]; [done | ].
  destruct tys as [ | t tys]; [done | ]. done.
Qed.

Lemma categorical_columns_length fs path bs idx names tys :
  0 ≤ bs →
  Forall (fun l => length l = Z.to_nat bs)
         (zip_with (categorical_column fs path bs idx) names tys).
Proof.
  intros Hbs. apply Forall_forall. intros l Hl.
  apply list_elem_of_lookup in Hl as [i Hi].
  apply lookup_zip_with_Some in Hi as (name & t & -> & _ & _).
  unfold categorical_column. by rewrite length_fmap, chunks_length.
Qed.

(** The categorical read of a batch that every categorical file holds in
    full. *)
Lemma get_categorical_full fs path bs idx names self :
  0 ≤ idx → 0 < bs → names ≠ [] →
  _categorical_features_files self
  = Some ((fun name => os_path_join path (String.append name ".bin"))
            <$> names) →
  _categorical_bytes_per_batch self
  = (fun t => itemsize t * bs) <$> _categorical_types self →
  Forall2 (fun name t =>
             t ∈ types
             ∧ holds_batch fs (os_path_join path (String.append name ".bin"))
                 (itemsize t * bs) idx) names (_categorical_types self) →
  ∃ tr,
    runs (_get_categorical_features fs self idx)
         (Ok (Some
                (Tensor torch_long
                   [Z.of_nat (length names) * bs]
                   (concat (zip_with (categorical_column fs path bs idx)
                              names (_categorical_types self))))))
         tr.
Proof.
  intros Hidx Hbs Hne Hfiles Hbpb Hall. unfold _get_categorical_features.
  rewrite Hfiles, Hbpb.
  destruct (cat_loop_full fs path bs idx names (_categorical_types self) []
              Hidx Hbs Hall) as [tr Htr].
  exists tr. rewrite <- (app_nil_r tr).
  eapply runs_bind_Ok; [exact Htr | cbn beta]. cbn [app].
  rewrite torch_cat_columns by (done || by eapply Forall2_length).
  eapply (runs_bind_Ok _ _ _ [] _ []); [apply runs_lift | cbn beta].
  unfold view_flat, numel. cbn [t_data t_dtype].
  rewrite (length_concat_blocks _ (Z.to_nat bs))
    by (apply categorical_columns_length; lia).
  rewrite length_zip_with, <- (Forall2_length _ _ _ Hall), Nat.min_id.
  replace (Z.of_nat (length names * Z.to_nat bs))
    with (Z.of_nat (length names) * bs) by lia.
  apply runs_ret.
Qed.

(** The label read of a batch that the label file holds in full. *)
Lemma get_label_batch fs self idx :
  0 ≤ idx → 0 ≤ _label_bytes_per_batch self →
  holds_batch fs (_label_file self) (_label_bytes_per_batch self) idx →
  runs (_get_label fs self idx)
       (Ok (to_float32
              (Tensor np_bool [_label_bytes_per_batch self]
                 ((fun b => if byte_val b =? 0 then 0 else 1)
                    <$> batch_bytes fs (_label_file self)
                          (_label_bytes_per_batch self) idx))))
       [Pread (_label_file self) (_label_bytes_per_batch self)
              (idx * _label_bytes_per_batch self)].
Proof.
  intros Hidx Hb Hfull. unfold _get_label.
  destruct (os_pread_batch fs _ _ idx Hfull Hidx Hb) as [Hrun Hlen].
  eapply (runs_bind_Ok _ _ _ [_] _ []); [exact Hrun | cbn beta].
  rewrite (np_frombuffer_full _ np_bool (_label_bytes_per_batch self));
    [ | done | done | cbn [itemsize]; lia].
  rewrite <- Hlen at 2. rewrite Nat2Z.id.
  change (Z.to_nat (itemsize np_bool)) with 1%nat.
  rewrite chunks_singletons, <- list_fmap_compose.
  rewrite (list_fmap_ext (decode_elem np_bool ∘ (fun b => [b]))
             (fun b => if byte_val b =? 0 then 0 else 1) _)
    by (intros; apply decode_bool_singleton).
  eapply (runs_bind_Ok _ _ _ [] _ []); [apply runs_lift | apply runs_ret].
Qed.

Lemma Forall2_and_Forall_r {A B} (P : A → B → Prop) (Q : B → Prop) l k :
  Forall2 P l k → Forall Q k → Forall2 (fun x y => Q y ∧ P x y) l k.
Proof.
  induction 1 as [ | x y l k Hxy _ IH]; [constructor | ].
  intros [Hy Hk]%Forall_cons. constructor; auto.
Qed.

(** C9 (amended). In a dataset constructed over pairwise distinct feature
    names with at least one categorical feature, for every index whose batch
    every group's file holds in full, the fetch returns: the label bytes
    read as a flat boolean array of length [batch_size] (handed out
    converted to float32); the numerical bytes read as 16-bit floats and
    shaped [batch_size x num_numerical_features], row-major, the columns in
    the order of the numerical features; and the categorical bytes of each
    feature read as integers of that feature's resolved type, kept in value
    in a 64-bit integer tensor, the features' columns concatenated in
    feature order into one flat tensor of length
    [num_categorical_features * batch_size]. *)
Theorem C9_decoding_of_full_batches CAT_NAMES INT_NAMES fs path json bs pd
    drop_last self idx :
  NoDup (INT_NAMES ++ CAT_NAMES) → CAT_NAMES ≠ [] →
  __init__ CAT_NAMES INT_NAMES fs path json bs pd drop_last = Ok self →
  0 ≤ idx → 0 < bs →
  holds_batch fs (os_path_join path "label.bin") bs idx →
  holds_batch fs (os_path_join path "numerical.bin")
    (2 * Z.of_nat (length INT_NAMES) * bs) idx →
  Forall2 (fun name t =>
             holds_batch fs (os_path_join path (String.append name ".bin"))
               (itemsize t * bs) idx)
          CAT_NAMES (_categorical_types self) →
  ∃ bools num cat,
    (∀ w, (_get_item INT_NAMES fs self idx w).1
          = Ok (Some num, Some cat, to_float32 bools))
    ∧ t_dtype bools = np_bool
    ∧ t_shape bools = [bs]
    ∧ t_data bools
      = (fun b => if byte_val b =? 0 then 0 else 1)
          <$> batch_bytes fs (os_path_join path "label.bin") bs idx
    ∧ Z.of_nat (length (t_data bools)) = bs
    ∧ t_dtype num = np_float16
    ∧ t_shape num = [bs; Z.of_nat (length INT_NAMES)]
    ∧ Z.of_nat (length (t_data num)) = bs * Z.of_nat (length INT_NAMES)
    ∧ (∀ r c, (r < Z.to_nat bs)%nat → (c < length INT_NAMES)%nat →
         t_data num !! (r * length INT_NAMES + c)%nat
         = Some (le_unsigned
                   (take 2 (drop ((r * length INT_NAMES + c) * 2)%nat
                              (batch_bytes fs
                                 (os_path_join path "numerical.bin")
                                 (2 * Z.of_nat (length INT_NAMES) * bs)
                                 idx)))))
    ∧ t_dtype cat = torch_long
    ∧ t_shape cat = [Z.of_nat (length CAT_NAMES) * bs]
    ∧ t_data cat
      = concat (zip_with (categorical_column fs path bs idx)
                  CAT_NAMES (_categorical_types self))
    ∧ Z.of_nat (length (t_data cat)) = Z.of_nat (length CAT_NAMES) * bs
    ∧ (∀ f name t r,
         CAT_NAMES !! f = Some name → _categorical_types self !! f = Some t →
         (r < Z.to_nat bs)%nat →
         t_data cat !! (f * Z.to_nat bs + r)%nat
         = Some (to_signed (8 * itemsize t)
                   (le_unsigned
                      (take (Z.to_nat (itemsize t))
                         (drop (r * Z.to_nat (itemsize t))%nat
                            (batch_bytes fs
                               (os_path_join path (String.append name ".bin"))
                               (itemsize t * bs) idx)))))).
Proof.
  intros Hnd Hne Hinit Hidx Hbs Hlab Hnum Hcat.
  destruct (init_layout _ _ _ _ _ _ _ _ _ Hnd Hinit)
    as (Hb & Hl & Hn & Hc & Hlen & Htypes).
  rewrite Z.mul_1_l in Hl.
  destruct (init_Ok_inv _ _ _ _ _ _ _ _ _ Hinit)
    as (tys & fi & fb & cbpb & label & _ & Hfi & _ & _ & _ & _ & _ & _ & Hself).
  assert (_label_file self = os_path_join path "label.bin"
          ∧ _numerical_features_file self
            = Some (os_path_join path "numerical.bin")
          ∧ _categorical_features_files self
            = Some ((fun name => os_path_join path (String.append name ".bin"))
                      <$> CAT_NAMES)) as (Hlf & Hnf & Hcf)
    by (by rewrite Hself).
  clear Hself.
  assert (0 < length INT_NAMES)%nat as Hk
    by (apply lookup_lt_Some in Hfi; lia).
  pose proof (get_label_batch fs self idx) as Hrl.
  rewrite Hlf, Hl in Hrl. specialize (Hrl Hidx ltac:(lia) Hlab).
  pose proof (get_numerical_full INT_NAMES fs self idx _ Hnf) as Hrn.
  rewrite Hb, Hn in Hrn. specialize (Hrn Hidx Hbs Hk eq_refl Hnum).
  destruct (get_categorical_full fs path bs idx CAT_NAMES self
              Hidx Hbs Hne Hcf Hc) as [tc Hrc].
  { by apply Forall2_and_Forall_r. }
  eexists _, _, _. split.
  { intros w. unfold _get_item.
    erewrite (runs_bind_Ok _ _ _ _ _ _ Hrl); [done | cbn beta].
    eapply runs_bind_Ok; [exact Hrn | cbn beta].
    eapply runs_bind_Ok; [exact Hrc | apply runs_ret]. }
  cbn [t_dtype t_shape t_data].
  pose proof (categorical_columns_length fs path bs idx CAT_NAMES
                (_categorical_types self) ltac:(lia)) as Hcols.
  repeat split.
  - rewrite length_fmap. unfold batch_bytes.
    destruct Hlab as (content & -> & Hfull). cbn [default from_option id].
    rewrite take_drop_length by nia. lia.
  - rewrite length_fmap, chunks_length. lia.
  - intros r c Hr Hc'. rewrite list_lookup_fmap, chunks_lookup by nia. done.
  - rewrite (length_concat_blocks _ (Z.to_nat bs)) by done.
    rewrite length_zip_with, Hlen, Nat.min_id. lia.
  - intros f name t r Hname Ht Hr.
    rewrite (lookup_concat_blocks _ (Z.to_nat bs)) by done.
    rewrite lookup_zip_with, Hname, Ht. cbn [mbind option_bind].
    unfold categorical_column.
    rewrite list_lookup_fmap, chunks_lookup by done.
    cbn [fmap option_fmap option_map]. f_equal. apply types_decode.
    exact (Forall_lookup_1 (fun t => t ∈ types) _ f t Htypes Ht).
Qed.

(** C10. In a constructed dataset, for an index whose batch is wholly
    inside the label file, the label the caller receives is a float32
    tensor of shape [batch_size] whose [j]-th entry is 1.0 when the [j]-th
    byte of the batch is non-zero and 0.0 when it is zero: a vector of
    floats, each exactly 0.0 or 1.0, not a boolean array. *)
Theorem C10_label_is_float_zero_one CAT_NAMES INT_NAMES fs path json bs pd
    drop_last self idx label :
  __init__ CAT_NAMES INT_NAMES fs path json bs pd drop_last = Ok self →
  fs !! os_path_join path "label.bin" = Some label →
  0 ≤ idx → 0 < bs → (idx + 1) * bs ≤ Z.of_nat (length label) →
  ∃ click,
    (∀ w, (_get_label fs self idx w).1 = Ok click)
    ∧ (∀ w num cat c,
         (_get_item INT_NAMES fs self idx w).1 = Ok (num, cat, c) → c = click)
    ∧ t_dtype click = torch_float32
    ∧ t_shape click = [bs]
    ∧ Z.of_nat (length (t_data click)) = bs
    ∧ Forall (fun x => x = f32_zero ∨ x = f32_one) (t_data click)
    ∧ ∀ j b, (j < Z.to_nat bs)%nat →
             label !! (Z.to_nat (idx * bs) + j)%nat = Some b →
             t_data click !! j
             = Some (if byte_val b =? 0 then f32_zero else f32_one).
Proof.
  intros Hinit Hlabel Hidx Hbs Hfull.
  destruct (init_Ok_inv _ _ _ _ _ _ _ _ _ Hinit)
    as (tys & fi & fb & cbpb & label' & _ & _ & _ & _ & _ & _ & _ & _ & Hself).
  assert (_label_file self = os_path_join path "label.bin"
          ∧ _label_bytes_per_batch self = bs) as [Hfile Hbpb].
  { rewrite Hself. cbn [_label_file _label_bytes_per_batch].
    split; [done | lia]. }
  clear Hself.
  pose proof (get_label_batch fs self idx) as Hrun.
  rewrite Hfile, Hbpb in Hrun.
  specialize (Hrun Hidx ltac:(lia) ltac:(by exists label)).
  eexists. split; [intros w; by rewrite (Hrun w) | ].
  unfold batch_bytes. rewrite Hlabel. cbn [default from_option id].
  split; [ | split; [done | split; [done | split; [ | split]]]].
  - intros w num cat c. unfold _get_item, mbind, M_bind.
    rewrite (Hrun w). unfold batch_bytes. rewrite Hlabel.
    destruct (_get_numerical_features _ _ _ _ _) as [[n | | ] w1];
      [ | done | done].
    destruct (_get_categorical_features _ _ _ _) as [[k | | ] w2];
      [ | done | done].
    cbn. by intros [= _ _ <-].
  - cbn [to_float32 t_data]. rewrite !length_fmap.
    rewrite take_drop_length by nia. lia.
  - cbn [to_float32 t_data]. apply Forall_forall. intros x Hx.
    apply list_elem_of_fmap in Hx as (v & -> & _). by destruct (v =? 0); auto.
  - intros j b Hj Hb. cbn [to_float32 t_data].
    rewrite !list_lookup_fmap, lookup_take_lt, lookup_drop, Hb by done.
    cbn [fmap option_fmap option_map]. by destruct (byte_val b =? 0).
Qed.

(** * The properties on the sample datasets *)

Lemma sample_names_distinct : NoDup (sample_int_names ++ sample_cat_names).
Proof. apply (bool_decide_unpack _). vm_compute. reflexivity. Defined.

Lemma mismatch_same_files f :
  is_Some (sample_fs !! f) ↔ is_Some (mismatch_fs !! f).
Proof.
  unfold sample_fs, mismatch_fs. cbn [list_to_map foldr fst snd uncurry].
  rewrite !lookup_insert. by repeat case_decide.
Defined.

Lemma mismatch_dataset_init :
  __init__ sample_cat_names sample_int_names mismatch_fs "d" sample_sizes
           2 2 false
  = Ok (sample_dataset 2).
Proof. reflexivity. Qed.

Lemma C1_sample_pass :
  1 < _prefetch_depth (sample_dataset 2)
  ∧ _prefetch_depth (sample_dataset 2) ≤ _num_entries (sample_dataset 2)
  ∧ (consume sample_int_names sample_fs (sample_dataset 2) (seqZ 0 4)
       new_world).1
    = (fun i => (_get_item sample_int_names sample_fs (sample_dataset 2) i
                   new_world).1) <$> seqZ 0 4.
Proof.
  split; [ | split]; [cbn; lia | cbn; lia | ].
  apply (C1_prefetch_path_equals_direct_fetch
           sample_int_names sample_fs (sample_dataset 2) new_world);
    cbn; lia.
Defined.

(** C2, as stated, fails: with four batches and [prefetch_depth = 2] the
    call for index 0 submits the fetches of 0, 1 and 2 before it takes the
    first one, so three fetches are outstanding. *)
Lemma C2_three_outstanding_with_depth_two :
  ∃ t1 t2,
    trace (consume sample_int_names sample_fs (sample_dataset 2) (seqZ 0 4)
             new_world).2 = t1 ++ t2
    ∧ submitted t1 = [0; 1; 2]
    ∧ outstanding t1 = 3
    ∧ _prefetch_depth (sample_dataset 2) = 2.
Proof.
  exists (take 15 (trace (consume sample_int_names sample_fs (sample_dataset 2)
                            (seqZ 0 4) new_world).2)),
         (drop 15 (trace (consume sample_int_names sample_fs (sample_dataset 2)
                            (seqZ 0 4) new_world).2)).
  split; [by rewrite take_drop | ]. repeat split; vm_compute; reflexivity.
Qed.

Lemma C2_sample_window :
  1 < _prefetch_depth (sample_dataset 2)
  ∧ _prefetch_depth (sample_dataset 2) ≤ _num_entries (sample_dataset 2)
  ∧ 0 ≤ 3 ≤ _num_entries (sample_dataset 2)
  ∧ outstanding
      (trace (consume sample_int_names sample_fs (sample_dataset 2)
                (seqZ 0 3) new_world).2)
    ≤ _prefetch_depth (sample_dataset 2).
Proof.
  split; [ | split; [ | split]]; [cbn; lia | cbn; lia | cbn; lia | ].
  apply (C2_window_bound sample_int_names sample_fs (sample_dataset 2) 3);
    cbn; lia.
Defined.

(** C3, as stated, fails: for the maximum id 126 the cardinality 127 fits
    the 8-bit type, whose largest value is 127, and the resolver returns the
    16-bit type. *)
Lemma C3_cardinality_127_gets_int16 :
  get_categorical_feature_type (126 + 1) = Ok np_int16
  ∧ spec_resolved_type (126 + 1) = Ok np_int8
  ∧ 126 + 1 ≤ iinfo_max np_int8.
Proof. repeat split; vm_compute; congruence. Qed.

(** C4, as stated, fails: index 1 is valid, the numerical read returns a
    single byte, [np.frombuffer] raises [ValueError] and no categorical file
    is read. *)
Lemma C4_no_categorical_read_after_ValueError :
  __init__ sample_cat_names sample_int_names mismatch_fs "d" sample_sizes
           2 2 false = Ok (sample_dataset 2)
  ∧ 0 ≤ 1 < __len__ (sample_dataset 2)
  ∧ (_get_item sample_int_names mismatch_fs (sample_dataset 2) 1
       new_world).1 = Raise ValueError
  ∧ preads (trace (_get_item sample_int_names mismatch_fs (sample_dataset 2)
                     1 new_world).2)
    = [("d/label.bin"%string, 2, 2); ("d/numerical.bin"%string, 4, 4)]
  ∧ length (group_reads (sample_dataset 2) 1) = 4%nat.
Proof. repeat split; vm_compute; congruence. Qed.

Lemma C4_sample_reads :
  NoDup (sample_int_names ++ sample_cat_names)
  ∧ __init__ sample_cat_names sample_int_names sample_fs "d" sample_sizes
             2 2 false = Ok (sample_dataset 2)
  ∧ Forall read_in_range (group_reads (sample_dataset 2) 3)
  ∧ preads (trace (_get_item sample_int_names sample_fs (sample_dataset 2) 3
                     new_world).2)
    = take (groups_read
              (group_outcomes sample_int_names sample_fs (sample_dataset 2)
                 3))
           (group_reads (sample_dataset 2) 3)
  ∧ head (preads (trace (_get_item sample_int_names sample_fs
                           (sample_dataset 2) 3 new_world).2))
    = Some (os_path_join "d" "label.bin", 1 * 2, 3 * (1 * 2))
  ∧ preads (trace (_get_item sample_int_names sample_fs (sample_dataset 2) 3
                     new_world).2)
    `prefix_of` group_reads (sample_dataset 2) 3.
Proof.
  assert (Forall read_in_range (group_reads (sample_dataset 2) 3)) as Hrange
    by (repeat constructor; cbn; lia).
  split; [exact sample_names_distinct | split; [reflexivity | ]].
  destruct (C4_group_reads sample_cat_names sample_int_names sample_fs "d"
              sample_sizes 2 2 false (sample_dataset 2) 3
              sample_names_distinct eq_refl)
    as (_ & _ & _ & Hreads & Hhead & Hpre & _).
  split; [exact Hrange | ].
  split; [exact (Hreads Hrange) | split; [exact Hhead | exact Hpre]].
Defined.

(** C5, as stated, fails: the quotient is a double. With
    [batch_size = 10^330] over the label file of eight bytes the quotient
    rounds to zero and the constructed length is 0, where the ceiling of
    the quotient is 1. *)
Lemma C5_huge_batch_size_gives_length_zero :
  ∃ self,
    __init__ sample_cat_names sample_int_names sample_fs "d" sample_sizes
             (10 ^ 330) 2 false = Ok self
    ∧ length <$> sample_fs !! os_path_join "d" "label.bin" = Some 8%nat
    ∧ __len__ self = 0
    ∧ spec_group_batch_count 8 (_label_bytes_per_batch self) false = 1.
Proof.
  eexists. split; [vm_compute; reflexivity | ].
  repeat split; vm_compute; reflexivity.
Qed.

Lemma C5_sample_length :
  __init__ sample_cat_names sample_int_names sample_fs "d" sample_sizes
           2 2 false = Ok (sample_dataset 2)
  ∧ ∃ label, sample_fs !! os_path_join "d" "label.bin" = Some label
             ∧ Z.of_nat (length label) < 2 ^ 53
             ∧ Z.abs 2 < 2 ^ 53
             ∧ __len__ (sample_dataset 2)
               = spec_group_batch_count (Z.of_nat (length label))
                   (_label_bytes_per_batch (sample_dataset 2)) false.
Proof.
  split; [reflexivity | ].
  destruct (C5_length_from_label_file sample_cat_names sample_int_names
              sample_fs "d" sample_sizes 2 2 false (sample_dataset 2) eq_refl)
    as (label & Hlabel & _ & _ & Hlen & _).
  assert (Z.of_nat (length label) = 8) as Hsize.
  { change (Some (mk_byte <$> [0; 1; 1; 0; 2; 0; 1; 1]) = Some label)
      in Hlabel.
    by injection Hlabel as <-. }
  assert (Z.of_nat (length label) < 2 ^ 53) as Hsmall by (rewrite Hsize; lia).
  assert (Z.abs 2 < 2 ^ 53) as Hbs by lia.
  exists label.
  split; [exact Hlabel | split; [exact Hsmall | split; [exact Hbs | ]]].
  exact (proj1 (Hlen Hsmall Hbs)).
Defined.

(** C6, as stated, fails: the numerical file implies two batches, the label
    file four, and construction succeeds. *)
Lemma C6_mismatched_lengths_are_accepted :
  __init__ sample_cat_names sample_int_names mismatch_fs "d" sample_sizes
           2 2 false = Ok (sample_dataset 2)
  ∧ length <$> mismatch_fs !! "d/numerical.bin"%string = Some 5%nat
  ∧ length <$> mismatch_fs !! "d/label.bin"%string = Some 8%nat
  ∧ spec_group_batch_count 5
      (_numerical_bytes_per_batch (sample_dataset 2)) false = 2
  ∧ spec_group_batch_count 8
      (_label_bytes_per_batch (sample_dataset 2)) false = 4.
Proof. repeat split; vm_compute; reflexivity. Qed.

Lemma C6_sample_and_mismatch_agree :
  (∀ f, is_Some (sample_fs !! f) ↔ is_Some (mismatch_fs !! f))
  ∧ length <$> sample_fs !! os_path_join "d" "label.bin"
    = length <$> mismatch_fs !! os_path_join "d" "label.bin"
  ∧ __init__ sample_cat_names sample_int_names sample_fs "d" sample_sizes
             2 2 false
    = __init__ sample_cat_names sample_int_names mismatch_fs "d" sample_sizes
               2 2 false.
Proof.
  split; [exact mismatch_same_files | split; [reflexivity | ]].
  apply (C6_construction_ignores_other_lengths sample_cat_names
           sample_int_names sample_fs mismatch_fs "d" sample_sizes 2 2 false
           mismatch_same_files eq_refl).
Defined.

(** C7, as stated, fails: with [prefetch_depth = 2] the call for index -1
    raises nothing; it submits the fetch of batch 1 and returns that
    batch. *)
Lemma C7_minus_one_returns_a_batch :
  (__getitem__ sample_int_names sample_fs (sample_dataset 2) (-1)
     new_world).1
  = (_get_item sample_int_names sample_fs (sample_dataset 2) 1 new_world).1
  ∧ (__getitem__ sample_int_names sample_fs (sample_dataset 2) (-1)
       new_world).1 ≠ Raise IndexError
  ∧ submitted (trace (__getitem__ sample_int_names sample_fs
                        (sample_dataset 2) (-1) new_world).2) = [1].
Proof. repeat split; vm_compute; congruence. Qed.

Lemma C7_sample_length_raises :
  _num_entries (sample_dataset 2) ≤ 4
  ∧ __getitem__ sample_int_names sample_fs (sample_dataset 2) 4 new_world
    = (Raise IndexError, new_world).
Proof.
  split; [cbn; lia | ].
  apply (C7_index_past_end_raises sample_int_names sample_fs
           (sample_dataset 2) 4 new_world).
  cbn; lia.
Defined.

(** C8, as stated, fails: after a complete pass with [prefetch_depth = 2]
    over four batches, a second call for index 1 submits the fetch of batch
    3, not of batch 1, and returns batch 3. *)
Lemma C8_second_get_returns_another_batch :
  (consume sample_int_names sample_fs (sample_dataset 2) (seqZ 0 4)
     new_world).1 !! 1%nat
  = Some (_get_item sample_int_names sample_fs (sample_dataset 2) 1
            new_world).1
  ∧ (__getitem__ sample_int_names sample_fs (sample_dataset 2) 1
       (consume sample_int_names sample_fs (sample_dataset 2) (seqZ 0 4)
          new_world).2).1
    = (_get_item sample_int_names sample_fs (sample_dataset 2) 3 new_world).1
  ∧ (_get_item sample_int_names sample_fs (sample_dataset 2) 3 new_world).1
    ≠ (_get_item sample_int_names sample_fs (sample_dataset 2) 1 new_world).1.
Proof. repeat split; vm_compute; congruence. Qed.

Lemma C8_sample_unwindowed :
  _prefetch_depth (sample_dataset 1) ≤ 1
  ∧ 1 < _num_entries (sample_dataset 1)
  ∧ (__getitem__ sample_int_names sample_fs (sample_dataset 1) 1
       (__getitem__ sample_int_names sample_fs (sample_dataset 1) 1
          new_world).2).1
    = (__getitem__ sample_int_names sample_fs (sample_dataset 1) 1
         new_world).1.
Proof.
  split; [cbn; lia | split; [cbn; lia | ]].
  apply (C8_unwindowed_second_get sample_int_names sample_fs
           (sample_dataset 1) 1 new_world); cbn; lia.
Defined.

Lemma C10_sample_label :
  __init__ sample_cat_names sample_int_names sample_fs "d" sample_sizes
           2 2 false = Ok (sample_dataset 2)
  ∧ 0 ≤ 2 ∧ 0 < 2
  ∧ ∃ click,
      (_get_label sample_fs (sample_dataset 2) 2 new_world).1 = Ok click
      ∧ t_dtype click = torch_float32 ∧ t_shape click = [2].
Proof.
  split; [reflexivity | split; [lia | split; [lia | ]]].
  destruct (C10_label_is_float_zero_one sample_cat_names sample_int_names
              sample_fs "d" sample_sizes 2 2 false (sample_dataset 2) 2
              (mk_byte <$> [0; 1; 1; 0; 2; 0; 1; 1]) eq_refl eq_refl)
    as (click & Hget & _ & Hty & Hshape & _); [lia | lia | cbn; lia | ].
  exists click. split; [apply Hget | split; [exact Hty | exact Hshape]].
Defined.

Lemma sample_holds_batch fd bpb idx content :
  sample_fs !! fd = Some content →
  (idx + 1) * bpb ≤ Z.of_nat (length content) →
  holds_batch sample_fs fd bpb idx.
Proof. intros Hfd Hlen. by exists content. Defined.

(** C9, as stated, fails: with three and a half batches in every file and
    [drop_last_batch = false] index 3 is valid, and its label has one
    entry, its numerical matrix one row and its categorical tensor two
    entries, for [batch_size = 2]. *)
Lemma C9_partial_last_batch_is_short :
  __init__ sample_cat_names sample_int_names partial_fs "d" sample_sizes
           2 2 false = Ok (sample_dataset 2)
  ∧ 0 ≤ 3 < __len__ (sample_dataset 2)
  ∧ _batch_size (sample_dataset 2) = 2
  ∧ ∃ num cat click,
      (_get_item sample_int_names partial_fs (sample_dataset 2) 3
         new_world).1 = Ok (Some num, Some cat, click)
      ∧ t_shape click = [1]
      ∧ t_shape num = [1; 1]
      ∧ t_shape cat = [2].
Proof.
  split; [reflexivity | split; [cbn; lia | split; [reflexivity | ]]].
  eexists _, _, _. split; [vm_compute; reflexivity | ].
  repeat split.
Qed.

Lemma C9_sample_decoding :
  NoDup (sample_int_names ++ sample_cat_names)
  ∧ sample_cat_names ≠ []
  ∧ __init__ sample_cat_names sample_int_names sample_fs "d" sample_sizes
             2 2 false = Ok (sample_dataset 2)
  ∧ ∃ bools num cat,
      (_get_item sample_int_names sample_fs (sample_dataset 2) 1
         new_world).1 = Ok (Some num, Some cat, to_float32 bools)
      ∧ t_shape bools = [2]
      ∧ t_shape num = [2; 1]
      ∧ t_shape cat = [2 * 2].
Proof.
  split; [exact sample_names_distinct | split; [done | split; [done | ]]].
  destruct (C9_decoding_of_full_batches sample_cat_names sample_int_names
              sample_fs "d" sample_sizes 2 2 false (sample_dataset 2) 1
              sample_names_distinct)
    as (bools & num & cat & Hget & _ & Hb & _ & _ & _ & Hn & _ & _ & _ & Hc & _).
  - done.
  - reflexivity.
  - lia.
  - lia.
  - eapply sample_holds_batch; [reflexivity | cbn; lia].
  - eapply sample_holds_batch; [reflexivity | cbn; lia].
  - repeat constructor;
      (eapply sample_holds_batch; [reflexivity | cbn; lia]).
  - exists bools, num, cat. repeat split; [apply Hget | done | done | done].
Defined.

(** * Further properties of the code *)

(** ** The resolver *)

Lemma resolver_outcome size :
  (size < 2147483647 ∧ ∃ t, get_categorical_feature_type size = Ok t
                            ∧ t ∈ types ∧ size < iinfo_max t)
  ∨ (2147483647 ≤ size
     ∧ get_categorical_feature_type size = Raise RuntimeError).
Proof.
  unfold get_categorical_feature_type, types. cbn [first_type_above].
  destruct (Z.ltb_spec size (iinfo_max np_int8));
    [ | destruct (Z.ltb_spec size (iinfo_max np_int16));
        [ | destruct (Z.ltb_spec size (iinfo_max np_int32))]];
    cbn [iinfo_max] in *.
  4: right; split; [lia | done].
  all: left; split; [lia | eexists; split; [done | split; [ | done]]].
  all: apply list_elem_of_In; simpl; tauto.
Qed.

(** X1. The resolver is monotone: when it accepts a size it accepts every
    smaller size, and with a type that is no wider. *)
Theorem X1_resolver_monotone (size1 size2 : Z) (t2 : dtype) :
  size1 ≤ size2 →
  get_categorical_feature_type size2 = Ok t2 →
  ∃ t1, get_categorical_feature_type size1 = Ok t1
        ∧ itemsize t1 ≤ itemsize t2.
Proof.
  unfold get_categorical_feature_type, types. cbn [first_type_above].
  intros Hle.
  destruct (Z.ltb_spec size2 (iinfo_max np_int8));
    [ | destruct (Z.ltb_spec size2 (iinfo_max np_int16));
        [ | destruct (Z.ltb_spec size2 (iinfo_max np_int32))]];
    intros [= <-];
    destruct (Z.ltb_spec size1 (iinfo_max np_int8));
    try (eexists; split; [reflexivity | cbn; lia]);
    destruct (Z.ltb_spec size1 (iinfo_max np_int16));
    try (eexists; split; [reflexivity | cbn; lia]);
    destruct (Z.ltb_spec size1 (iinfo_max np_int32));
    try (eexists; split; [reflexivity | cbn; lia]);
    cbn [iinfo_max] in *; lia.
Qed.

Lemma X1_sample_sizes :
  6 ≤ 201
  ∧ get_categorical_feature_type 201 = Ok np_int16
  ∧ ∃ t1, get_categorical_feature_type 6 = Ok t1
          ∧ itemsize t1 ≤ itemsize np_int16.
Proof.
  split; [lia | split; [reflexivity | ]].
  apply (X1_resolver_monotone 6 201 np_int16); [lia | reflexivity].
Defined.

(** X2. With the type resolved for a maximum id [m], the bytes of every id
    between 0 and [m] decode to that id: no id of the column is read back
    as a negative number. *)
Theorem X2_ids_decode_as_stored (m : Z) (t : dtype) (raw : list Byte.byte) :
  get_categorical_feature_type (m + 1) = Ok t →
  0 ≤ le_unsigned raw ≤ m →
  decode_elem t raw = le_unsigned raw.
Proof.
  intros Ht Hraw.
  destruct (resolver_outcome (m + 1)) as [(_ & t' & Ht' & Hin & Hmax) | [_ He]];
    [ | congruence].
  rewrite Ht in Ht'. injection Ht' as <-.
  rewrite types_decode by done. unfold to_signed.
  apply list_elem_of_In in Hin. simpl in Hin.
  destruct Hin as [<- | [<- | [<- | []]]]; cbn [itemsize iinfo_max] in *;
    match goal with
    | |- context [?u <? ?b] =>
        replace (u <? b) with true
          by (symmetry; apply Z.ltb_lt; change b with (Z.pow_pos 2 7)
              || change b with (Z.pow_pos 2 15)
              || change b with (Z.pow_pos 2 31); cbn; lia)
    end; done.
Qed.

Lemma X2_sample_id :
  get_categorical_feature_type (200 + 1) = Ok np_int16
  ∧ 0 ≤ le_unsigned [mk_byte 200; mk_byte 0] ≤ 200
  ∧ decode_elem np_int16 [mk_byte 200; mk_byte 0]
    = le_unsigned [mk_byte 200; mk_byte 0].
Proof.
  split; [reflexivity | split; [vm_compute; split; discriminate | ]].
  apply (X2_ids_decode_as_stored 200 np_int16 [mk_byte 200; mk_byte 0]);
    [reflexivity | vm_compute; split; discriminate].
Defined.

(** ** Outcomes of construction *)

Lemma mapM_res_Raise_inv {A B} (f : A → res B) l e :
  mapM f l = Raise e →
  ∃ pre x post, l = pre ++ x :: post
                ∧ Forall (fun y => ∃ z, f y = Ok z) pre ∧ f x = Raise e.
Proof.
  induction l as [ | x l IH]; [done | ].
  cbn [mapM]. destruct (f x) as [y | e' | ] eqn:Hx; cbn [mbind res_bind].
  - destruct (mapM f l) as [k | e' | ]; cbn [mbind res_bind]; try done.
    intros [= ->]. destruct IH as (pre & x' & post & -> & Hpre & Hx'); [done | ].
    exists (x :: pre), x', post. split; [done | ].
    split; [constructor; eauto | done].
  - intros [= ->]. exists [], x, l. by repeat split.
  - done.
Qed.

Lemma mapM_res_Blocks_inv {A B} (f : A → res B) l :
  mapM f l = Blocks → ∃ x, x ∈ l ∧ f x = Blocks.
Proof.
  induction l as [ | x l IH]; [done | ].
  cbn [mapM]. destruct (f x) as [y | e' | ] eqn:Hx; cbn [mbind res_bind].
  - destruct (mapM f l) as [k | e' | ]; cbn [mbind res_bind]; try done.
    intros _. destruct IH as (x' & Hin & Hx'); [done | ].
    exists x'. split; [by right | done].
  - done.
  - intros _. exists x. split; [by left | done].
Qed.

Lemma mapM_res_first_Raise {A B} (f : A → res B) pre x post e :
  Forall (fun y => ∃ z, f y = Ok z) pre → f x = Raise e →
  mapM f (pre ++ x :: post) = Raise e.
Proof.
  intros Hpre Hx. induction Hpre as [ | y pre [z Hy] _ IH]; cbn [app mapM].
  - by rewrite Hx.
  - by rewrite Hy, IH.
Qed.

Lemma foldl_insert_values {X} (g : X → string) (h : X → Z) (P : Z → Prop)
    (l : list X) (d : gmap string Z) :
  map_Forall (fun _ v => P v) d → Forall (fun x => P (h x)) l →
  map_Forall (fun _ v => P v) (foldl (fun d x => <[g x := h x]> d) d l).
Proof.
  intros Hd Hl. revert d Hd. induction Hl as [ | x l Hx _ IH]; intros d Hd.
  - done.
  - cbn [foldl]. apply IH. by apply map_Forall_insert_2.
Qed.

Lemma foldl_insert_keys {X} (g : X → string) (h : X → Z)
    (l : list X) (d : gmap string Z) k :
  is_Some (d !! k) ∨ k ∈ g <$> l →
  is_Some (foldl (fun d x => <[g x := h x]> d) d l !! k).
Proof.
  revert d. induction l as [ | x l IH]; intros d [Hd | Hk]; cbn [foldl].
  - done.
  - by apply elem_of_nil in Hk.
  - apply IH. left. destruct (decide (g x = k)) as [<- | Hne].
    + rewrite lookup_insert_eq. by eexists.
    + by rewrite lookup_insert_ne.
  - cbn [fmap list_fmap] in Hk. apply elem_of_cons in Hk as [-> | Hk].
    + apply IH. left. rewrite lookup_insert_eq. by eexists.
    + apply IH. by right.
Qed.

Lemma mapM_res_all_Ok {A B} (f : A → res B) l :
  (∀ x, x ∈ l → ∃ y, f x = Ok y) → ∃ k, mapM f l = Ok k.
Proof.
  induction l as [ | x l IH]; intros Hl; [by exists [] | ].
  destruct (Hl x) as [y Hy]; [by left | ].
  destruct IH as [k Hk]; [intros x' Hx'; apply Hl; by right | ].
  exists (y :: k). cbn [mapM]. by rewrite Hy, Hk.
Qed.

Section ConstructionOutcomes.

Variable CAT_NAMES : list string.
Variable INT_NAMES : list string.

Local Abbreviation bytes_per_feature categorical_types :=
  (foldl (fun (d : gmap string Z) nt => <[nt.1 := itemsize nt.2]> d)
     (foldl (fun (d : gmap string Z) name => <[name := itemsize np_float16]> d)
        ∅ INT_NAMES)
     (zip CAT_NAMES categorical_types)).

Local Abbreviation cat_path path :=
  (fun name => os_path_join path (String.append name ".bin")).

Local Abbreviation resolve json :=
  (fun name => v ← dict_get json name; get_categorical_feature_type (v + 1)).

(** The entry of [name] in the sizes file is a maximum id the resolver
    accepts. *)
Local Abbreviation resolves json name :=
  (∃ v : Z, (json : gmap string Z) !! (name : string) = Some v
            ∧ v + 1 < 2147483647).

Lemma resolve_Ok_iff json name :
  (∃ t, resolve json name = Ok t) ↔ resolves json name.
Proof.
  unfold dict_get. split.
  - intros [t Ht]. destruct (json !! name) as [v | ]; [ | done].
    cbn [mbind res_bind] in Ht. exists v. split; [done | ].
    destruct (resolver_outcome (v + 1)) as [[? _] | [_ He]]; [done | congruence].
  - intros (v & -> & Hv). cbn [mbind res_bind].
    destruct (resolver_outcome (v + 1)) as [(_ & t & Ht & _) | [? _]]; [ | lia].
    by exists t.
Qed.

Lemma resolve_not_Blocks json name : resolve json name ≠ Blocks.
Proof.
  unfold dict_get. destruct (json !! name) as [v | ]; [ | done].
  cbn [mbind res_bind].
  by destruct (resolver_outcome (v + 1)) as [(_ & t & -> & _) | [_ ->]].
Qed.

Lemma resolve_all json :
  Forall (fun name => resolves json name) CAT_NAMES →
  ∃ tys, mapM (resolve json) CAT_NAMES = Ok tys.
Proof.
  intros Hall. destruct (mapM (resolve json) CAT_NAMES) as [tys | e | ] eqn:E.
  - by exists tys.
  - apply mapM_res_Raise_inv in E as (pre & x & post & Hl & _ & Hx).
    assert (resolves json x) as Hres.
    { rewrite Forall_forall in Hall. apply Hall. rewrite Hl.
      apply elem_of_app. right. by left. }
    apply resolve_Ok_iff in Hres as [t Ht]. congruence.
  - apply mapM_res_Blocks_inv in E as (x & _ & Hx).
    by apply resolve_not_Blocks in Hx.
Qed.

Lemma resolve_types json tys :
  mapM (resolve json) CAT_NAMES = Ok tys →
  Forall (fun t => t ∈ types) tys ∧ length tys = length CAT_NAMES.
Proof.
  intros Htys%mapM_res_Ok. split; [ | symmetry; by eapply Forall2_length].
  apply Forall_forall. intros t Ht.
  apply list_elem_of_lookup in Ht as [j Hj].
  destruct (Forall2_lookup_r _ _ _ _ _ Htys Hj) as (name & _ & Hname).
  apply bind_Ok_inv in Hname as (v & _ & Hv).
  by apply resolved_type_in_types in Hv.
Qed.

Lemma bytes_per_feature_pos tys k b :
  Forall (fun t => t ∈ types) tys →
  bytes_per_feature tys !! k = Some b → 0 < b.
Proof.
  intros Htys Hk.
  refine (foldl_insert_values fst (fun nt : string * dtype => itemsize nt.2)
            (fun v => 0 < v) _ _ _ _ k b Hk).
  - refine (foldl_insert_values id (fun _ => itemsize np_float16)
              (fun v => 0 < v) _ _ _ _).
    + apply map_Forall_empty.
    + by apply Forall_forall.
  - apply Forall_forall. intros [name t] Hin.
    apply elem_of_zip_r in Hin. cbn.
    apply types_itemsize_pos. rewrite Forall_forall in Htys. by apply Htys.
Qed.

Lemma bytes_per_feature_has tys name :
  length tys = length CAT_NAMES →
  name ∈ INT_NAMES ∨ name ∈ CAT_NAMES →
  is_Some (bytes_per_feature tys !! name).
Proof.
  intros Hlen Hname.
  apply (foldl_insert_keys fst (fun nt : string * dtype => itemsize nt.2)).
  destruct Hname as [Hint | Hcat].
  - left. apply (foldl_insert_keys id (fun _ => itemsize np_float16)).
    right. by rewrite list_fmap_id.
  - right. rewrite fst_zip by lia. done.
Qed.

(** Opening one categorical file and taking the quotient of its size. *)
Lemma cat_file_stage fs path tys bs name :
  Forall (fun t => t ∈ types) tys → length tys = length CAT_NAMES →
  name ∈ CAT_NAMES →
  (cat_file ← os_open fs (cat_path path name);
   b ← dict_get (bytes_per_feature tys) name;
   size ← st_size fs cat_file;
   _ ← true_div size (b * bs);
   mret cat_file)
  = match fs !! cat_path path name with
    | None => Raise FileNotFoundError
    | Some _ => if bs =? 0 then Raise ZeroDivisionError
                else Ok (cat_path path name)
    end.
Proof.
  intros Htys Hlen Hname. unfold os_open, st_size.
  destruct (fs !! cat_path path name) as [content | ] eqn:Hfd; [ | done].
  cbn [mbind res_bind].
  destruct (bytes_per_feature_has tys name Hlen) as [b Hb]; [by right | ].
  unfold dict_get. rewrite Hb, Hfd. cbn [mbind res_bind].
  pose proof (bytes_per_feature_pos tys name b Htys Hb) as Hpos.
  unfold true_div.
  destruct (Z.eqb_spec bs 0) as [-> | Hbs].
  - by rewrite Z.mul_0_r.
  - destruct (Z.eqb_spec (b * bs) 0) as [H0 | _]; [nia | done].
Qed.

(** The files a construction opens, in the order it opens them. *)
Local Abbreviation file_stage fs path bs :=
  (fun name : string =>
     match (fs : gmap string (list Byte.byte)) !! cat_path path name with
     | None => Raise FileNotFoundError
     | Some _ => if bs =? 0 then Raise ZeroDivisionError
                 else Ok (cat_path path name)
     end).

(** Construction once the types are resolved and there is a numerical
    feature: what is left is opening the files and dividing their sizes. *)
Lemma init_after_resolve fs path json bs pd drop_last tys first_int :
  mapM (resolve json) CAT_NAMES = Ok tys →
  INT_NAMES !! 0%nat = Some first_int →
  ∃ fb cbpb,
    __init__ CAT_NAMES INT_NAMES fs path json bs pd drop_last
    = (files ← mapM (file_stage fs path bs) CAT_NAMES;
       match fs !! os_path_join path "numerical.bin" with
       | None => Raise FileNotFoundError
       | Some _ =>
           if bs =? 0 then Raise ZeroDivisionError
           else
             match fs !! os_path_join path "label.bin" with
             | None => Raise FileNotFoundError
             | Some label =>
                 let n :=
                   if negb drop_last
                   then math_ceil (float_quotient (Z.of_nat (length label))
                                     (itemsize np_bool * bs))
                   else math_floor (float_quotient (Z.of_nat (length label))
                                      (itemsize np_bool * bs)) in
                 Ok {| _batch_size := bs;
                       _categorical_types := tys;
                       _numerical_features_file :=
                         Some (os_path_join path "numerical.bin");
                       _label_file := os_path_join path "label.bin";
                       _categorical_features_files := Some files;
                       _numerical_bytes_per_batch :=
                         fb * Z.of_nat (length INT_NAMES) * bs;
                       _label_bytes_per_batch := itemsize np_bool * bs;
                       _categorical_bytes_per_batch := cbpb;
                       _num_entries := n;
                       _prefetch_depth := Z.min pd n |}
             end
       end).
Proof.
  intros Htys Hfirst. destruct (resolve_types json tys Htys) as [Htypes Hlen].
  destruct (bytes_per_feature_has tys first_int Hlen) as [fb Hfb];
    [left; by eapply list_elem_of_lookup_2 | ].
  pose proof (bytes_per_feature_pos tys first_int fb Htypes Hfb) as Hfbpos.
  destruct (mapM_res_all_Ok
              (fun feature => b ← dict_get (bytes_per_feature tys) feature;
                              mret (b * bs)) CAT_NAMES) as [cbpb Hcbpb].
  { intros name Hname.
    destruct (bytes_per_feature_has tys name Hlen) as [b Hb]; [by right | ].
    unfold dict_get. rewrite Hb. by eexists. }
  exists fb, cbpb. unfold __init__. rewrite Htys. cbn [mbind res_bind].
  cbv zeta. unfold list_get. rewrite Hfirst. cbn [mbind res_bind].
  unfold dict_get in Hcbpb |- *. rewrite Hfb. cbn [mbind res_bind].
  rewrite Hcbpb. cbn [mbind res_bind].
  rewrite (mapM_res_ext _ (file_stage fs path bs))
    by (intros name Hname; by apply cat_file_stage).
  destruct (mapM (file_stage fs path bs) CAT_NAMES) as [files | e | ];
    cbn [mbind res_bind]; [ | done | done].
  unfold os_open, st_size, true_div.
  destruct (fs !! os_path_join path "numerical.bin") as [num | ] eqn:Hnum;
    [ | done].
  cbn [mbind res_bind]. rewrite Hnum. cbn [mbind res_bind].
  assert (0 < length INT_NAMES)%nat by (apply lookup_lt_Some in Hfirst; lia).
  destruct (Z.eqb_spec bs 0) as [-> | Hbs].
  { by rewrite Z.mul_0_r. }
  destruct (Z.eqb_spec (fb * Z.of_nat (length INT_NAMES) * bs) 0) as [H0 | _];
    [nia | ].
  cbn [mbind res_bind].
  destruct (fs !! os_path_join path "label.bin") as [label | ] eqn:Hlab;
    [ | done].
  cbn [mbind res_bind]. rewrite Hlab. cbn [mbind res_bind].
  destruct (Z.eqb_spec (itemsize np_bool * bs) 0) as [H0 | _];
    [cbn [itemsize] in H0; lia | ].
  done.
Qed.

Lemma file_stage_all fs path bs :
  bs ≠ 0 →
  Forall (fun name => is_Some (fs !! cat_path path name)) CAT_NAMES →
  mapM (file_stage fs path bs) CAT_NAMES = Ok (cat_path path <$> CAT_NAMES).
Proof.
  intros Hbs. induction 1 as [ | name l [c Hc] _ IH]; [done | ].
  cbn [mapM fmap list_fmap]. rewrite Hc, IH.
  by destruct (Z.eqb_spec bs 0).
Qed.

(** X3. Construction succeeds exactly when every categorical name has a
    maximum id in the sizes file whose cardinality is below [2^31 - 1],
    there is at least one numerical feature name, the batch size is not
    zero, and every column file exists. *)
Theorem X3_construction_succeeds_iff fs path json bs pd drop_last :
  (∃ self, __init__ CAT_NAMES INT_NAMES fs path json bs pd drop_last = Ok self)
  ↔ Forall (fun name => resolves json name) CAT_NAMES
    ∧ INT_NAMES ≠ []
    ∧ bs ≠ 0
    ∧ Forall (fun name => is_Some (fs !! cat_path path name)) CAT_NAMES
    ∧ is_Some (fs !! os_path_join path "numerical.bin")
    ∧ is_Some (fs !! os_path_join path "label.bin").
Proof.
  split.
  - intros [self Hinit].
    destruct (init_Ok_inv _ _ _ _ _ _ _ _ _ Hinit)
      as (tys & fi & fb & cbpb & label
          & Htys & Hfi & _ & _ & Hcat & Hnum & Hlab & Hbs & _).
    split; [ | split; [ | split; [done | split; [done | split; [done | ]]]]].
    + apply mapM_res_Ok in Htys. apply Forall_forall. intros name Hname.
      apply list_elem_of_lookup in Hname as [j Hj].
      destruct (Forall2_lookup_l _ _ _ _ _ Htys Hj) as (t & _ & Ht).
      apply resolve_Ok_iff. by exists t.
    + intros ->. done.
    + by eexists.
  - intros (Hres & Hint & Hbs & Hcat & [num Hnum] & [label Hlab]).
    destruct (resolve_all json Hres) as [tys Htys].
    destruct INT_NAMES as [ | first_int rest] eqn:HINT; [done | ].
    rewrite <- HINT in *.
    destruct (init_after_resolve fs path json bs pd drop_last tys first_int
                Htys) as (fb & cbpb & ->); [by rewrite HINT | ].
    rewrite (file_stage_all fs path bs Hbs Hcat). cbn [mbind res_bind].
    rewrite Hnum, Hlab. destruct (Z.eqb_spec bs 0); [done | by eexists].
Qed.

(** X4. With a batch size of zero construction raises [ZeroDivisionError]
    as soon as the sizes resolve, there is a numerical feature name and the
    categorical and numerical files exist. *)
Theorem X4_zero_batch_size_raises fs path json pd drop_last :
  Forall (fun name => resolves json name) CAT_NAMES →
  INT_NAMES ≠ [] →
  Forall (fun name => is_Some (fs !! cat_path path name)) CAT_NAMES →
  is_Some (fs !! os_path_join path "numerical.bin") →
  __init__ CAT_NAMES INT_NAMES fs path json 0 pd drop_last
  = Raise ZeroDivisionError.
Proof.
  intros Hres Hint Hcat [num Hnum].
  destruct (resolve_all json Hres) as [tys Htys].
  destruct INT_NAMES as [ | first_int rest] eqn:HINT; [done | ].
  rewrite <- HINT in *.
  destruct (init_after_resolve fs path json 0 pd drop_last tys first_int
              Htys) as (fb & cbpb & ->); [by rewrite HINT | ].
  destruct Hcat as [ | name l [c Hc] _].
  - cbn [mapM mbind res_bind mret res_ret]. by rewrite Hnum.
  - rewrite (mapM_res_first_Raise _ [] name l ZeroDivisionError);
      [done | constructor | by rewrite Hc].
Qed.

(** X5. With a non-zero batch size, resolved sizes and a numerical feature
    name, construction raises [FileNotFoundError] whenever one of the
    column files does not exist. *)
Theorem X5_missing_file_raises fs path json bs pd drop_last :
  Forall (fun name => resolves json name) CAT_NAMES →
  INT_NAMES ≠ [] → bs ≠ 0 →
  ¬ (Forall (fun name => is_Some (fs !! cat_path path name)) CAT_NAMES
     ∧ is_Some (fs !! os_path_join path "numerical.bin")
     ∧ is_Some (fs !! os_path_join path "label.bin")) →
  __init__ CAT_NAMES INT_NAMES fs path json bs pd drop_last
  = Raise FileNotFoundError.
Proof.
  intros Hres Hint Hbs Hmissing.
  destruct (resolve_all json Hres) as [tys Htys].
  destruct INT_NAMES as [ | first_int rest] eqn:HINT; [done | ].
  rewrite <- HINT in *.
  destruct (init_after_resolve fs path json bs pd drop_last tys first_int
              Htys) as (fb & cbpb & ->); [by rewrite HINT | ].
  destruct (mapM (file_stage fs path bs) CAT_NAMES) as [files | e | ] eqn:E;
    cbn [mbind res_bind].
  - assert (Forall (fun name => is_Some (fs !! cat_path path name))
              CAT_NAMES) as Hcat.
    { apply mapM_res_Ok in E. apply Forall_forall. intros name Hname.
      apply list_elem_of_lookup in Hname as [j Hj].
      destruct (Forall2_lookup_l _ _ _ _ _ E Hj) as (f & _ & Hf).
      by destruct (fs !! cat_path path name). }
    destruct (fs !! os_path_join path "numerical.bin") as [num | ]; [ | done].
    destruct (Z.eqb_spec bs 0); [done | ].
    destruct (fs !! os_path_join path "label.bin") as [label | ]; [ | done].
    destruct Hmissing. by repeat split.
  - apply mapM_res_Raise_inv in E as (pre & x & post & _ & _ & Hx).
    destruct (fs !! cat_path path x); [ | congruence].
    by destruct (Z.eqb_spec bs 0).
  - apply mapM_res_Blocks_inv in E as (x & _ & Hx).
    destruct (fs !! cat_path path x); [ | done].
    by destruct (Z.eqb_spec bs 0).
Qed.

(** X6. The first categorical name, in the order of the list, whose entry
    does not resolve decides the exception, whatever the files and the other
    arguments: [KeyError] when the name is not in the sizes file,
    [RuntimeError] when its cardinality is too large. *)
Theorem X6_first_unresolved_name_decides pre name post fs path json bs pd
    drop_last :
  CAT_NAMES = pre ++ name :: post →
  Forall (fun name => resolves json name) pre →
  ¬ resolves json name →
  __init__ CAT_NAMES INT_NAMES fs path json bs pd drop_last
  = Raise match json !! name with
          | None => KeyError
          | Some _ => RuntimeError
          end.
Proof.
  intros HCAT Hpre Hname. unfold __init__. rewrite HCAT.
  rewrite (mapM_res_first_Raise (resolve json) pre name post
             match json !! name with
             | None => KeyError
             | Some _ => RuntimeError
             end); [done | | ].
  - eapply Forall_impl; [exact Hpre | ]. intros x Hx. by apply resolve_Ok_iff.
  - unfold dict_get. destruct (json !! name) as [v | ]; [ | done].
    cbn [mbind res_bind].
    destruct (resolver_outcome (v + 1)) as [[Hv _] | [_ ->]]; [ | done].
    destruct Hname. by exists v.
Qed.

(** X7. With resolved sizes and no numerical feature name construction
    raises [IndexError], whatever the files and the batch size. *)
Theorem X7_no_numerical_name_raises fs path json bs pd drop_last :
  Forall (fun name => resolves json name) CAT_NAMES →
  INT_NAMES = [] →
  __init__ CAT_NAMES INT_NAMES fs path json bs pd drop_last
  = Raise IndexError.
Proof.
  intros Hres ->. destruct (resolve_all json Hres) as [tys Htys].
  unfold __init__. by rewrite Htys.
Qed.

End ConstructionOutcomes.

(** X8. A dataset constructed with a requested [prefetch_depth] of at most
    one, or holding at most one batch, never uses the window: every call of
    [__getitem__] below the length is the synchronous fetch itself, in every
    state. *)
Theorem X8_shallow_or_short_datasets_fetch_directly CAT_NAMES INT_NAMES fs
    path json bs pd drop_last self idx w :
  __init__ CAT_NAMES INT_NAMES fs path json bs pd drop_last = Ok self →
  pd ≤ 1 ∨ __len__ self ≤ 1 →
  idx < __len__ self →
  __getitem__ INT_NAMES fs self idx w = _get_item INT_NAMES fs self idx w.
Proof.
  intros Hinit Hshallow Hidx.
  destruct (init_Ok_inv _ _ _ _ _ _ _ _ _ Hinit)
    as (tys & fi & fb & cbpb & label & _ & _ & _ & _ & _ & _ & _ & _ & ->).
  unfold __getitem__, __len__ in *. cbn [_num_entries _prefetch_depth] in *.
  replace (idx >=? _) with false
    by (symmetry; rewrite Z.geb_leb; apply Z.leb_gt; lia).
  by replace (Z.min pd _ <=? 1) with true by (symmetry; apply Z.leb_le; lia).
Qed.

(** X9. Over the same files and arguments, keeping the last batch gives at
    most one batch more than dropping it; for a label file of fewer than
    2^53 bytes and a batch size below 2^53 in absolute value the two
    lengths are equal exactly when the batch size divides the size of the
    label file. *)
Theorem X9_last_batch_policy_differs_by_one CAT_NAMES INT_NAMES fs path json
    bs pd keep dropped :
  __init__ CAT_NAMES INT_NAMES fs path json bs pd false = Ok keep →
  __init__ CAT_NAMES INT_NAMES fs path json bs pd true = Ok dropped →
  ∃ label,
    fs !! os_path_join path "label.bin" = Some label
    ∧ 0 ≤ __len__ keep - __len__ dropped ≤ 1
    ∧ (Z.of_nat (length label) < 2 ^ 53 → Z.abs bs < 2 ^ 53 →
       (__len__ keep = __len__ dropped
        ↔ Z.of_nat (length label) mod bs = 0)).
Proof.
  intros Hk Hd.
  destruct (init_Ok_inv _ _ _ _ _ _ _ _ _ Hk)
    as (? & ? & ? & ? & label & _ & _ & _ & _ & _ & _ & Hlab & Hbs & ->).
  destruct (init_Ok_inv _ _ _ _ _ _ _ _ _ Hd)
    as (? & ? & ? & ? & label' & _ & _ & _ & _ & _ & _ & Hlab' & _ & ->).
  rewrite Hlab in Hlab'. injection Hlab' as <-.
  exists label. split; [done | ].
  unfold __len__. cbn [_num_entries negb].
  replace (1 * bs) with bs by lia.
  split; [apply ceil_floor_gap | ].
  intros Hsize Hbound.
  destruct (float_quotient_floor_ceil (Z.of_nat (length label)) bs)
    as [-> ->]; [lia | done | done | ].
  pose proof (Z.div_mod (Z.of_nat (length label)) bs Hbs) as H1.
  pose proof (Z.div_mod (- Z.of_nat (length label)) bs Hbs) as H2.
  destruct (Z.lt_total bs 0) as [Hneg | [-> | Hpos]]; [ | done | ].
  - pose proof (Z.mod_neg_bound (Z.of_nat (length label)) bs Hneg).
    pose proof (Z.mod_neg_bound (- Z.of_nat (length label)) bs Hneg).
    split; intros; nia.
  - pose proof (Z.mod_pos_bound (Z.of_nat (length label)) bs Hpos).
    pose proof (Z.mod_pos_bound (- Z.of_nat (length label)) bs Hpos).
    split; intros; nia.
Qed.

(** ** The window under any sequence of calls *)

Lemma handed_out_app t1 t2 :
  handed_out (t1 ++ t2) = handed_out t1 ++ handed_out t2.
Proof. induction t1 as [ | [ | | ] t1 IH]; simpl; by rewrite ?IH. Qed.

Lemma handed_out_reads t : Forall is_pread t → handed_out t = [].
Proof. induction 1 as [ | [ | | ] t H _ IH]; simpl in *; done. Qed.

Lemma preads_reads t :
  Forall is_pread t → Forall (fun e => ∃ fd n off, e = Pread fd n off) t.
Proof.
  induction 1 as [ | [fd n off | | ] t H _ IH]; constructor; try done.
  by exists fd, n, off.
Qed.

Section Scheduler.

Variable INT_NAMES : list string.
Variable fs : gmap string (list Byte.byte).
Variable self : ParametricDataset.

Local Abbreviation n := (_num_entries self).
Local Abbreviation p := (_prefetch_depth self).

Opaque _get_item.

(** What the direct fetch of batch [i] gives, the calls it makes, and the
    trace of submitting the fetches of a list of indices. *)
Local Abbreviation fetch i := ((_get_item INT_NAMES fs self i new_world).1).
Local Abbreviation fetch_trace i :=
  (trace (_get_item INT_NAMES fs self i new_world).2).
Local Abbreviation submit_events idxs :=
  (concat ((fun i => Submit i :: fetch_trace i) <$> idxs)).

(** The indices a call for [idx] submits. *)
Local Abbreviation new_fetches idx :=
  ((if idx =? 0 then seqZ 0 p else [])
   ++ (if idx <? n - p then [idx + p] else [])).

Lemma for_each_submit_put_trace idxs w :
  for_each idxs (submit_put INT_NAMES fs self) w
  = (Ok tt, mkWorld (prefetch_queue w ++ futures INT_NAMES fs self idxs)
                    (trace w ++ submit_events idxs)).
Proof.
  revert w. induction idxs as [ | i idxs IH]; intros w.
  - cbn. unfold mret, M_ret. rewrite !app_nil_r. by destruct w.
  - cbn [for_each]. unfold mbind, M_bind. rewrite submit_put_spec, IH.
    cbn [prefetch_queue trace fmap list_fmap concat].
    change (i :: idxs) with ([i] ++ idxs).
    rewrite futures_app, <- !app_assoc. reflexivity.
Qed.

Lemma submit_events_app l1 l2 :
  submit_events (l1 ++ l2) = submit_events l1 ++ submit_events l2.
Proof. by rewrite fmap_app, concat_app. Qed.

Lemma extend_window_trace idx w :
  extend_window INT_NAMES fs self idx w
  = (Ok tt,
     mkWorld (prefetch_queue w ++ futures INT_NAMES fs self (new_fetches idx))
             (trace w ++ submit_events (new_fetches idx))).
Proof.
  unfold extend_window, when, mbind, M_bind.
  rewrite submit_events_app, futures_app.
  destruct (idx =? 0).
  - rewrite for_each_submit_put_trace. destruct (idx <? n - p).
    + rewrite submit_put_spec. cbn [prefetch_queue trace].
      cbn [fmap list_fmap concat]. by rewrite !app_nil_r, <- !app_assoc.
    + unfold mret, M_ret. cbn. by rewrite !app_nil_r.
  - unfold mret, M_ret. destruct (idx <? n - p).
    + rewrite submit_put_spec. cbn [fmap list_fmap concat app].
      by rewrite !app_nil_r.
    + cbn. rewrite !app_nil_r. by destruct w.
Qed.

Lemma submit_events_submitted idxs : submitted (submit_events idxs) = idxs.
Proof.
  induction idxs as [ | i idxs IH]; [done | ].
  cbn [fmap list_fmap concat]. cbn [app submitted].
  rewrite submitted_app, IH.
  by rewrite (submitted_reads _ (get_item_trace_reads INT_NAMES fs self i)).
Qed.

Lemma submit_events_handed_out idxs : handed_out (submit_events idxs) = [].
Proof.
  induction idxs as [ | i idxs IH]; [done | ].
  cbn [fmap list_fmap concat]. cbn [app handed_out].
  rewrite handed_out_app, IH.
  by rewrite (handed_out_reads _ (get_item_trace_reads INT_NAMES fs self i)).
Qed.

Lemma submit_events_preads idxs :
  preads (submit_events idxs)
  = concat ((fun i => preads (fetch_trace i)) <$> idxs).
Proof.
  induction idxs as [ | i idxs IH]; [done | ].
  cbn [fmap list_fmap concat]. cbn [app preads].
  by rewrite preads_app, IH.
Qed.

(** One call in window mode. *)
Lemma window_call idx w pending :
  1 < p → idx < n →
  prefetch_queue w = futures INT_NAMES fs self pending →
  match pending ++ new_fetches idx with
  | [] => __getitem__ INT_NAMES fs self idx w = (Blocks, w)
  | j :: rest =>
      __getitem__ INT_NAMES fs self idx w
      = (fetch j,
         mkWorld (futures INT_NAMES fs self rest)
                 (trace w ++ submit_events (new_fetches idx) ++ [Get j]))
  end.
Proof.
  intros Hp Hidx Hq. unfold __getitem__.
  replace (idx >=? n) with false
    by (symmetry; rewrite Z.geb_leb; apply Z.leb_gt; lia).
  replace (p <=? 1) with false by (symmetry; apply Z.leb_gt; lia).
  destruct (pending ++ new_fetches idx) as [ | j rest] eqn:E;
    unfold mbind at 1, M_bind at 1; rewrite extend_window_trace;
    rewrite Hq, <- futures_app, E.
  - apply app_eq_nil in E as [-> E]. rewrite E.
    unfold mbind, M_bind, queue_get. cbn [futures fmap list_fmap app concat].
    cbn [prefetch_queue]. rewrite app_nil_r.
    destruct w as [q tr]. cbn in Hq |- *. by rewrite Hq.
  - unfold mbind, M_bind, queue_get, result, lift, futures.
    cbn [fmap list_fmap prefetch_queue trace fut_idx fut_result].
    by rewrite <- app_assoc.
Qed.

(** X10. One call in window mode, for any index below the length and any
    window: the call submits the fetches of [0 .. prefetch_depth - 1] when
    the index is 0 and the fetch of [idx + prefetch_depth] when that index
    is before the end, then returns the oldest fetch of the window,
    whichever index was asked for; when the window is empty and nothing is
    submitted the call never returns. *)
Theorem X10_window_call_returns_oldest_fetch idx w pending :
  1 < p → idx < n →
  prefetch_queue w = futures INT_NAMES fs self pending →
  match pending ++ new_fetches idx with
  | [] => __getitem__ INT_NAMES fs self idx w = (Blocks, w)
  | j :: rest =>
      __getitem__ INT_NAMES fs self idx w
      = (fetch j,
         mkWorld (futures INT_NAMES fs self rest)
                 (trace w ++ submit_events (new_fetches idx) ++ [Get j]))
  end.
Proof. apply window_call. Qed.

Lemma getitem_out_of_range idx w :
  n ≤ idx → __getitem__ INT_NAMES fs self idx w = (Raise IndexError, w).
Proof.
  intros Hidx. unfold __getitem__.
  by replace (idx >=? n) with true
    by (symmetry; rewrite Z.geb_leb; apply Z.leb_le; lia).
Qed.

Lemma getitem_direct idx w :
  p ≤ 1 → idx < n →
  __getitem__ INT_NAMES fs self idx w
  = (fetch idx, mkWorld (prefetch_queue w) (trace w ++ fetch_trace idx)).
Proof.
  intros Hp Hidx. unfold __getitem__.
  replace (idx >=? n) with false
    by (symmetry; rewrite Z.geb_leb; apply Z.leb_gt; lia).
  replace (p <=? 1) with true by (symmetry; apply Z.leb_le; lia).
  apply get_item_runs.
Qed.

(** The three ways a call can go. *)
Lemma getitem_cases idx w pending :
  prefetch_queue w = futures INT_NAMES fs self pending →
  __getitem__ INT_NAMES fs self idx w = (Raise IndexError, w)
  ∨ (p ≤ 1 ∧ idx < n
     ∧ __getitem__ INT_NAMES fs self idx w
       = (fetch idx, mkWorld (prefetch_queue w) (trace w ++ fetch_trace idx)))
  ∨ (1 < p ∧ idx < n
     ∧ ((pending ++ new_fetches idx = []
         ∧ __getitem__ INT_NAMES fs self idx w = (Blocks, w))
        ∨ ∃ j rest,
            pending ++ new_fetches idx = j :: rest
            ∧ __getitem__ INT_NAMES fs self idx w
              = (fetch j,
                 mkWorld (futures INT_NAMES fs self rest)
                   (trace w ++ submit_events (new_fetches idx) ++ [Get j])))).
Proof.
  intros Hq. destruct (Z.le_gt_cases n idx) as [Hidx | Hidx].
  { left. by apply getitem_out_of_range. }
  right. destruct (Z.le_gt_cases p 1) as [Hp | Hp].
  { left. split; [done | split; [done | by apply getitem_direct]]. }
  right. split; [lia | split; [done | ]].
  pose proof (window_call idx w pending ltac:(lia) Hidx Hq) as Hcall.
  destruct (pending ++ new_fetches idx) as [ | j rest]; [by left | ].
  right. by exists j, rest.
Qed.

Lemma consume_keeps_fifo idxs w pending :
  submitted (trace w) = handed_out (trace w) ++ pending →
  prefetch_queue w = futures INT_NAMES fs self pending →
  ∃ pending',
    submitted (trace (consume INT_NAMES fs self idxs w).2)
    = handed_out (trace (consume INT_NAMES fs self idxs w).2) ++ pending'
    ∧ prefetch_queue (consume INT_NAMES fs self idxs w).2
      = futures INT_NAMES fs self pending'.
Proof.
  revert w pending. induction idxs as [ | idx idxs IH]; intros w pending Hs Hq.
  { by exists pending. }
  cbn [consume].
  destruct (__getitem__ INT_NAMES fs self idx w) as [r w1] eqn:Hcall.
  assert (∃ pending1,
            submitted (trace w1) = handed_out (trace w1) ++ pending1
            ∧ prefetch_queue w1 = futures INT_NAMES fs self pending1)
    as (pending1 & Hs1 & Hq1).
  { destruct (getitem_cases idx w pending Hq)
      as [H | [(_ & _ & H) | (_ & _ & [[_ H] | (j & rest & E & H)])]];
      rewrite H in Hcall; injection Hcall as <- <-.
    - by exists pending.
    - exists pending. cbn [trace prefetch_queue].
      pose proof (get_item_trace_reads INT_NAMES fs self idx) as Hr.
      rewrite submitted_app, handed_out_app.
      rewrite (submitted_reads _ Hr), (handed_out_reads _ Hr).
      by rewrite !app_nil_r.
    - by exists pending.
    - exists rest. cbn [trace prefetch_queue]. split; [ | done].
      rewrite !submitted_app, !handed_out_app.
      rewrite submit_events_submitted, submit_events_handed_out.
      cbn [submitted handed_out app]. rewrite app_nil_r, Hs.
      by rewrite <- !app_assoc, E. }
  destruct (IH w1 pending1 Hs1 Hq1) as (pending' & Hs' & Hq').
  destruct (consume INT_NAMES fs self idxs w1) as [rs w2].
  by exists pending'.
Qed.

(** X11. After any sequence of calls on a fresh dataset, in any order and
    with any indices, the fetches handed out are the first ones submitted,
    in the order of submission, and the queue holds the fetches of the
    remaining submitted indices, in that order: no fetch is lost, handed out
    twice or overtaken. *)
Theorem X11_fetches_leave_in_submission_order (idxs : list Z) :
  ∃ pending,
    submitted (trace (consume INT_NAMES fs self idxs new_world).2)
    = handed_out (trace (consume INT_NAMES fs self idxs new_world).2)
      ++ pending
    ∧ prefetch_queue (consume INT_NAMES fs self idxs new_world).2
      = futures INT_NAMES fs self pending.
Proof. by apply (consume_keeps_fifo idxs new_world []). Qed.

Lemma preads_concat (ts : list (list event)) :
  preads (concat ts) = concat (preads <$> ts).
Proof.
  induction ts as [ | t ts IH]; [done | ].
  cbn [concat fmap list_fmap]. by rewrite preads_app, IH.
Qed.

(** A sequence of calls below the length when the window is bypassed. *)
Lemma consume_direct idxs w :
  p ≤ 1 → Forall (fun i => i < n) idxs →
  consume INT_NAMES fs self idxs w
  = ((fun i => fetch i) <$> idxs,
     mkWorld (prefetch_queue w)
             (trace w ++ concat ((fun i => fetch_trace i) <$> idxs))).
Proof.
  intros Hp Hall. revert w. induction Hall as [ | i idxs Hi _ IH]; intros w.
  - cbn. rewrite app_nil_r. by destruct w.
  - cbn [consume]. rewrite getitem_direct by done. rewrite IH.
    cbn [prefetch_queue trace fmap list_fmap concat].
    by rewrite <- app_assoc.
Qed.

Lemma consume_reads_follow_submissions idxs w pending :
  1 < p →
  preads (trace w)
  = concat ((fun i => preads (fetch_trace i)) <$> submitted (trace w)) →
  prefetch_queue w = futures INT_NAMES fs self pending →
  preads (trace (consume INT_NAMES fs self idxs w).2)
  = concat ((fun i => preads (fetch_trace i))
              <$> submitted (trace (consume INT_NAMES fs self idxs w).2)).
Proof.
  intros Hp. revert w pending.
  induction idxs as [ | idx idxs IH]; intros w pending Hr Hq; [done | ].
  cbn [consume].
  destruct (__getitem__ INT_NAMES fs self idx w) as [r w1] eqn:Hcall.
  assert (preads (trace w1)
          = concat ((fun i => preads (fetch_trace i))
                      <$> submitted (trace w1))
          ∧ ∃ pending1, prefetch_queue w1
                        = futures INT_NAMES fs self pending1)
    as (Hr1 & pending1 & Hq1).
  { destruct (getitem_cases idx w pending Hq)
      as [H | [(? & _ & _) | (_ & _ & [[_ H] | (j & rest & E & H)])]];
      [ | lia | | ]; rewrite H in Hcall; injection Hcall as <- <-.
    - split; [done | by exists pending].
    - split; [done | by exists pending].
    - cbn [trace prefetch_queue]. split; [ | by exists rest].
      rewrite !preads_app, !submitted_app.
      rewrite submit_events_preads, submit_events_submitted.
      change (preads [Get j]) with (@nil (string * Z * Z)).
      change (submitted [Get j]) with (@nil Z).
      rewrite !app_nil_r.
      rewrite (fmap_app _ (submitted (trace w))), concat_app.
      by rewrite Hr. }
  specialize (IH w1 pending1 Hr1 Hq1).
  by destruct (consume INT_NAMES fs self idxs w1) as [rs w2].
Qed.

(** X12. A complete in-order pass over a fresh dataset whose
    [prefetch_depth] does not exceed its length makes exactly the reads of
    the direct fetches of [0, 1, ..., length - 1], each once, batch after
    batch in index order, with or without the window. *)
Theorem X12_pass_reads_every_batch_once :
  p ≤ n →
  preads (trace (consume INT_NAMES fs self (seqZ 0 n) new_world).2)
  = concat ((fun i => preads (fetch_trace i)) <$> seqZ 0 n).
Proof.
  intros Hpn. destruct (Z.le_gt_cases p 1) as [Hp | Hp].
  - rewrite consume_direct; [ | done | ].
    + cbn [snd trace app new_world].
      by rewrite preads_concat, <- list_fmap_compose.
    + apply Forall_forall. intros i Hi. apply elem_of_seqZ in Hi. lia.
  - rewrite (consume_reads_follow_submissions _ new_world []) by done.
    destruct (in_order_pass INT_NAMES fs self (Z.to_nat n))
      as (w & Hc & _ & Hs & _); [lia | done | lia | ].
    rewrite Z2Nat.id in Hc, Hs by lia. rewrite Hc. cbn [snd]. rewrite Hs.
    replace (n =? 0) with false by (symmetry; apply Z.eqb_neq; lia).
    by replace (Z.min (n + p) n) with n by lia.
Qed.

(** An in-order pass in window mode from any state whose queue is empty. *)
Lemma window_pass_from (m : nat) w0 :
  1 < p → p ≤ n → Z.of_nat m ≤ n → prefetch_queue w0 = [] →
  ∃ w, consume INT_NAMES fs self (seqZ 0 (Z.of_nat m)) w0
       = ((fun i => fetch i) <$> seqZ 0 (Z.of_nat m), w)
    ∧ prefetch_queue w
      = futures INT_NAMES fs self
          (seqZ (Z.of_nat m)
             ((if Z.of_nat m =? 0 then 0 else Z.min (Z.of_nat m + p) n)
              - Z.of_nat m)).
Proof.
  intros Hp Hpn. induction m as [ | m IH]; intros Hm Hq0.
  - by exists w0.
  - destruct IH as (w & Hc & Hq); [lia | done | ].
    destruct (getitem_step INT_NAMES fs self (Z.of_nat m) w)
      as (t & Hg & _); [done | done | lia | done | ].
    rewrite seqZ_S, consume_app, Hc, fmap_app.
    change (0 + Z.of_nat m) with (Z.of_nat m).
    cbn [consume fmap list_fmap]. rewrite Hg.
    replace (Z.of_nat (S m)) with (Z.of_nat m + 1) by lia.
    eexists. split; [reflexivity | done].
Qed.

Lemma pass_from_empty_queue w0 :
  p ≤ n → prefetch_queue w0 = [] →
  ∃ w, consume INT_NAMES fs self (seqZ 0 n) w0
       = ((fun i => fetch i) <$> seqZ 0 n, w)
    ∧ prefetch_queue w = [].
Proof.
  intros Hpn Hq0. destruct (Z.le_gt_cases p 1) as [Hp | Hp].
  - eexists. rewrite consume_direct; [split; [reflexivity | done] | done | ].
    apply Forall_forall. intros i Hi. apply elem_of_seqZ in Hi. lia.
  - destruct (window_pass_from (Z.to_nat n) w0) as (w & Hc & Hq);
      [done | done | lia | done | ].
    rewrite Z2Nat.id in Hc, Hq by lia. exists w. split; [done | ].
    rewrite Hq.
    replace (n =? 0) with false by (symmetry; apply Z.eqb_neq; lia).
    by rewrite seqZ_nil by lia.
Qed.

(** X13. Epochs repeat: on a fresh dataset whose [prefetch_depth] does not
    exceed its length, [k] complete in-order passes one after the other
    return, in each pass, the results of the direct fetches of
    [0, 1, ..., length - 1]; each pass leaves the window empty and the next
    one fills it again. *)
Theorem X13_every_epoch_returns_the_same (k : nat) :
  p ≤ n →
  (consume INT_NAMES fs self (concat (replicate k (seqZ 0 n))) new_world).1
  = concat (replicate k ((fun i => fetch i) <$> seqZ 0 n))
  ∧ prefetch_queue
      (consume INT_NAMES fs self (concat (replicate k (seqZ 0 n)))
         new_world).2 = [].
Proof.
  intros Hpn.
  assert (∀ w0, prefetch_queue w0 = [] →
            (consume INT_NAMES fs self (concat (replicate k (seqZ 0 n)))
               w0).1
            = concat (replicate k ((fun i => fetch i) <$> seqZ 0 n))
            ∧ prefetch_queue
                (consume INT_NAMES fs self (concat (replicate k (seqZ 0 n)))
                   w0).2 = []) as H; [ | by apply H].
  induction k as [ | k IH]; intros w0 Hq0; [done | ].
  cbn [replicate concat]. rewrite consume_app.
  destruct (pass_from_empty_queue w0 Hpn Hq0) as (w & -> & Hq).
  destruct (IH w Hq) as [Hrs Hq'].
  destruct (consume INT_NAMES fs self (concat (replicate k (seqZ 0 n))) w)
    as [rs w'].
  cbn [fst snd] in *. by rewrite Hrs.
Qed.

(** Calls in window mode while fetches submitted by the first call are
    still in the window. *)
Lemma consume_initial_window idxs j extras w :
  1 < p → Forall (fun i => i < n) idxs →
  0 ≤ j → j + Z.of_nat (length idxs) ≤ p →
  prefetch_queue w
  = futures INT_NAMES fs self (seqZ j (p - j) ++ extras) →
  (consume INT_NAMES fs self idxs w).1
  = (fun i => fetch i) <$> seqZ j (Z.of_nat (length idxs)).
Proof.
  intros Hp Hall. revert j extras w.
  induction Hall as [ | idx idxs Hidx _ IH]; intros j extras w Hj Hlen Hq.
  { done. }
  cbn [length] in Hlen. cbn [consume].
  pose proof (window_call idx w _ Hp Hidx Hq) as Hcall.
  rewrite (seqZ_head j (p - j)) in Hcall by lia.
  cbn [app] in Hcall. rewrite Hcall.
  specialize (IH (j + 1) (extras ++ new_fetches idx)
                (mkWorld (futures INT_NAMES fs self
                            ((seqZ (j + 1) (p - j - 1) ++ extras)
                             ++ new_fetches idx))
                   (trace w ++ submit_events (new_fetches idx) ++ [Get j]))).
  destruct (consume INT_NAMES fs self idxs _) as [rs w'] eqn:E.
  cbn [fst length] in *.
  rewrite (seqZ_head j) by lia. cbn [fmap list_fmap]. f_equal.
  replace (Z.of_nat (S (length idxs)) - 1) with (Z.of_nat (length idxs))
    by lia.
  apply IH; [lia | lia | ].
  cbn [prefetch_queue]. rewrite <- app_assoc. do 3 f_equal. lia.
Qed.

(** X14. In window mode the index asked for does not select the batch:
    after the call for index 0 on a fresh dataset, the next calls, fewer
    than [prefetch_depth] of them and for any indices below the length,
    return the batches 1, 2, 3, ... in this order. *)
Theorem X14_window_ignores_requested_index (idxs : list Z) :
  1 < p → 0 < n →
  Forall (fun i => i < n) idxs →
  Z.of_nat (length idxs) < p →
  (consume INT_NAMES fs self (0 :: idxs) new_world).1
  = (fun i => fetch i) <$> seqZ 0 (1 + Z.of_nat (length idxs)).
Proof.
  intros Hp Hn Hall Hlen.
  change (0 :: idxs) with ([0] ++ idxs). rewrite consume_app.
  cbn [consume].
  pose proof (window_call 0 new_world [] Hp Hn eq_refl) as Hcall.
  cbn [app] in Hcall. replace (0 =? 0) with true in Hcall by done.
  rewrite (seqZ_head 0 p) in Hcall by lia. cbn [app] in Hcall.
  rewrite Hcall.
  pose proof (consume_initial_window idxs 1
                (if 0 <? n - p then [0 + p] else [])
                (mkWorld
                   (futures INT_NAMES fs self
                      (seqZ (0 + 1) (p - 1)
                       ++ (if 0 <? n - p then [0 + p] else [])))
                   (trace new_world
                    ++ submit_events
                         ((0 :: seqZ (0 + 1) (p - 1))
                          ++ (if 0 <? n - p then [0 + p] else []))
                    ++ [Get 0]))
                Hp Hall ltac:(lia) ltac:(lia) eq_refl) as Hrest.
  destruct (consume INT_NAMES fs self idxs _) as [rs w'].
  cbn [fst app length] in *. rewrite Hrest.
  rewrite (seqZ_head 0) by lia. cbn [fmap list_fmap]. do 3 f_equal. lia.
Qed.

Transparent _get_item.

End Scheduler.

(** ** Edge cases of one fetch *)

Lemma os_pread_negative fs fd n off :
  n < 0 ∨ off < 0 →
  runs (os_pread fs fd n off) (Raise OSError) [Pread fd n off].
Proof.
  intros Hneg. unfold os_pread.
  change [Pread fd n off] with ([Pread fd n off] ++ []).
  eapply runs_bind_Ok; [apply runs_log | ].
  replace ((n <? 0) || (off <? 0)) with true; [apply runs_lift | ].
  symmetry. apply orb_true_iff.
  destruct Hneg; [left | right]; by apply Z.ltb_lt.
Qed.

Lemma init_length_nonneg CAT_NAMES INT_NAMES fs path json bs pd drop_last
    self :
  __init__ CAT_NAMES INT_NAMES fs path json bs pd drop_last = Ok self →
  0 < bs → 0 ≤ __len__ self.
Proof.
  intros Hinit Hbs.
  destruct (init_Ok_inv _ _ _ _ _ _ _ _ _ Hinit)
    as (? & ? & ? & ? & label & _ & _ & _ & _ & _ & _ & _ & _ & ->).
  unfold __len__. cbn [_num_entries]. replace (1 * bs) with bs by lia.
  destruct (float_quotient_nonneg (Z.of_nat (length label)) bs) as [Hf Hc];
    [lia | done | ].
  by destruct drop_last.
Qed.

(** X15. In a dataset constructed with a positive batch size of at most
    2^30 that bypasses the window, a call for a negative index whose offset
    [idx * batch_size] is still a 64-bit offset is not rejected by the
    bounds check: it attempts one read of the label file at a negative
    offset, raises [OSError] and reads nothing else. *)
Theorem X15_negative_index_raises_OSError CAT_NAMES INT_NAMES fs path json bs
    pd drop_last self idx w :
  __init__ CAT_NAMES INT_NAMES fs path json bs pd drop_last = Ok self →
  0 < bs ≤ 2 ^ 30 →
  _prefetch_depth self ≤ 1 →
  idx < 0 → - 2 ^ 63 ≤ idx * bs →
  __getitem__ INT_NAMES fs self idx w
  = (Raise OSError,
     mkWorld (prefetch_queue w)
       (trace w ++ [Pread (os_path_join path "label.bin") bs (idx * bs)])).
Proof.
  intros Hinit [Hbs _] Hp Hidx _.
  pose proof (init_length_nonneg _ _ _ _ _ _ _ _ _ Hinit Hbs) as Hn.
  destruct (init_Ok_inv _ _ _ _ _ _ _ _ _ Hinit)
    as (tys & fi & fb & cbpb & label & _ & _ & _ & _ & _ & _ & _ & _ & Hself).
  assert (_label_file self = os_path_join path "label.bin"
          ∧ _label_bytes_per_batch self = bs) as [Hfile Hbpb].
  { rewrite Hself. cbn [_label_file _label_bytes_per_batch].
    split; [done | lia]. }
  clear Hself. unfold __getitem__, __len__ in *.
  replace (idx >=? _num_entries self) with false
    by (symmetry; rewrite Z.geb_leb; apply Z.leb_gt; lia).
  replace (_prefetch_depth self <=? 1) with true
    by (symmetry; apply Z.leb_le; lia).
  unfold _get_item, _get_label. rewrite Hfile, Hbpb.
  apply runs_bind_Raise, runs_bind_Raise, os_pread_negative. right. nia.
Qed.

(** X16. The label getter does not fail on a short read. With at most 2^30
    label bytes per batch, for a non-negative index whose read ends below
    the 64-bit offset limit, it returns a float32 vector with one entry per
    byte that the label file holds at the batch's offset, at most
    [label_bytes_per_batch] of them, and an empty vector at or past the end
    of the file. *)
Theorem X16_label_of_a_short_read fs self idx content :
  fs !! _label_file self = Some content →
  0 ≤ _label_bytes_per_batch self ≤ 2 ^ 30 →
  0 ≤ idx → (idx + 1) * _label_bytes_per_batch self < 2 ^ 63 →
  ∃ click,
    runs (_get_label fs self idx) (Ok click)
      [Pread (_label_file self) (_label_bytes_per_batch self)
             (idx * _label_bytes_per_batch self)]
    ∧ t_dtype click = torch_float32
    ∧ t_shape click = [Z.of_nat (length (t_data click))]
    ∧ Z.of_nat (length (t_data click))
      = Z.min (_label_bytes_per_batch self)
          (Z.max 0 (Z.of_nat (length content)
                    - idx * _label_bytes_per_batch self)).
Proof.
  intros Hfile [Hb _] Hidx _.
  assert (0 ≤ idx * _label_bytes_per_batch self) as Hoff by nia.
  pose proof (os_pread_full fs _ _ _ content Hfile Hb Hoff) as Hrun.
  set (raw := take (Z.to_nat (_label_bytes_per_batch self))
                (drop (Z.to_nat (idx * _label_bytes_per_batch self))
                   content)) in *.
  pose proof (np_frombuffer_full raw np_bool (Z.of_nat (length raw))
                ltac:(done) ltac:(lia) ltac:(cbn [itemsize]; lia)) as Harr.
  eexists. split.
  { unfold _get_label.
    eapply (runs_bind_Ok _ _ _ [_] _ []); [exact Hrun | cbn beta].
    rewrite Harr.
    eapply (runs_bind_Ok _ _ _ [] _ []); [apply runs_lift | apply runs_ret]. }
  cbn [to_float32 torch_from_numpy t_dtype t_shape t_data].
  rewrite !length_fmap, chunks_length, Nat2Z.id.
  split; [done | split; [done | ]].
  subst raw. rewrite length_take, length_drop. lia.
Qed.

Lemma torch_amax_Ok_inv t v : torch_amax t = Ok v → t_data t ≠ [].
Proof. unfold torch_amax. by destruct (t_data t). Qed.

Lemma np_frombuffer_Ok_inv raw ty a :
  np_frombuffer raw ty = Ok a →
  t_dtype a = ty
  ∧ Z.of_nat (length raw) mod itemsize ty = 0
  ∧ Z.of_nat (length (t_data a)) = Z.of_nat (length raw) / itemsize ty
  ∧ t_shape a = [Z.of_nat (length raw) / itemsize ty]
  ∧ 0 ≤ Z.of_nat (length raw) / itemsize ty.
Proof.
  unfold np_frombuffer.
  destruct (Z.eqb_spec (Z.of_nat (length raw) mod itemsize ty) 0) as [Hm | ];
    [ | done].
  intros [= <-]. cbn [t_dtype t_data t_shape].
  assert (0 ≤ Z.of_nat (length raw) / itemsize ty)
    by (apply Z.div_pos; [lia | by destruct ty]).
  rewrite length_fmap, chunks_length. repeat split; try done. lia.
Qed.

Lemma os_pread_Ok_inv fs fd n off w raw w' :
  os_pread fs fd n off w = (Ok raw, w') →
  0 ≤ n ∧ Z.of_nat (length raw) ≤ n.
Proof.
  unfold os_pread, mbind, M_bind, log, lift.
  destruct (Z.ltb_spec n 0); cbn [orb]; [done | ].
  destruct (off <? 0); [done | ].
  destruct (fs !! fd) as [content | ]; [ | done].
  intros [= <- _]. split; [done | ]. rewrite length_take. lia.
Qed.

(** The tensors a completed loop over the categorical files has added. *)
Lemma cat_loop_Ok_inv fs idx triples acc w ts :
  (cat_loop fs idx triples acc w).1 = Ok ts →
  ∃ new, ts = acc ++ new
         ∧ Forall2 (fun (t : tensor) (tr : Z * dtype * string) =>
                      t_dtype t = torch_long ∧ t_data t ≠ []
                      ∧ Z.of_nat (length (t_data t)) * itemsize tr.1.2
                        ≤ tr.1.1)
                   new triples.
Proof.
  revert acc w. induction triples as [ | [[b ty] f] triples IH]; intros acc w.
  - intros [= <-]. exists []. by rewrite app_nil_r.
  - cbn [cat_loop]. unfold mbind at 1, M_bind at 1.
    destruct (os_pread fs f b (idx * b) w) as [[raw | | ] w1] eqn:Hread;
      [ | done | done].
    apply os_pread_Ok_inv in Hread as [Hb Hraw].
    unfold mbind at 1, M_bind at 1, lift at 1.
    destruct (np_frombuffer raw ty) as [a | | ] eqn:Ha; [ | done | done].
    apply np_frombuffer_Ok_inv in Ha as (_ & Hmod & Hlen & _ & Hcount).
    unfold mbind at 1, M_bind at 1, lift at 1.
    destruct (torch_amax _) as [mx | | ] eqn:Hmax; [ | done | done].
    apply torch_amax_Ok_inv in Hmax.
    unfold mbind at 1, M_bind at 1, lift at 1.
    destruct (torch_amin _) as [mn | | ]; [ | done | done].
    intros Hts. apply IH in Hts as (new & -> & Hnew).
    exists (to_long (unsqueeze0 (torch_from_numpy a)) :: new).
    split; [by rewrite <- app_assoc | ].
    constructor; [ | done]. unfold torch_from_numpy in *.
    cbn [to_long unsqueeze0 t_dtype t_data fst snd] in *.
    split; [done | split; [done | ]]. rewrite Hlen.
    assert (itemsize ty ≠ 0) by (by destruct ty).
    pose proof (Z.div_mod (Z.of_nat (length raw)) (itemsize ty) ltac:(done)).
    nia.
Qed.

(** X17. Whenever the categorical getter returns a tensor, it is a flat
    64-bit integer tensor that holds at least one id of every categorical
    file and at most [bytes_per_batch / element width] ids of each: a
    categorical file with nothing to read at the batch's offset makes the
    fetch raise, it is never skipped and never contributes an empty
    column. *)
Theorem X17_categorical_result_is_never_empty fs self idx w files cat :
  _categorical_features_files self = Some files →
  (_get_categorical_features fs self idx w).1 = Ok (Some cat) →
  t_dtype cat = torch_long
  ∧ t_shape cat = [Z.of_nat (length (t_data cat))]
  ∧ ∃ columns,
      t_data cat = concat columns
      ∧ Forall2 (fun (col : list Z) (tr : Z * dtype * string) =>
                   col ≠ [] ∧ Z.of_nat (length col) * itemsize tr.1.2
                               ≤ tr.1.1)
          columns
          (zip (zip (_categorical_bytes_per_batch self)
                    (_categorical_types self)) files)
      ∧ columns ≠ [].
Proof.
  intros Hfiles. unfold _get_categorical_features. rewrite Hfiles.
  unfold mbind at 1, M_bind at 1.
  destruct (cat_loop fs idx _ [] w) as [[ts | | ] w1] eqn:Hloop;
    [ | done | done].
  pose proof (cat_loop_Ok_inv fs idx
                (zip (zip (_categorical_bytes_per_batch self)
                          (_categorical_types self)) files) [] w ts) as Hinv.
  rewrite Hloop in Hinv. destruct (Hinv eq_refl) as (new & -> & Hnew).
  cbn [app]. unfold mbind, M_bind, lift, torch_cat_dim1.
  destruct new as [ | t new]; [done | ].
  intros [= <-]. cbn [view_flat numel t_dtype t_shape t_data].
  apply Forall2_cons_inv_l in Hnew as (tr & triples & [Hty [Hne Hlen]] & Hrest
                                       & Htriples).
  split; [done | split; [done | ]].
  exists (t_data <$> (t :: new)). split; [done | ]. split; [ | done].
  rewrite Htriples. cbn [fmap list_fmap].
  constructor; [done | ].
  apply Forall2_fmap_l. eapply Forall2_impl; [exact Hrest | ].
  intros t' tr' (_ & ? & ?). done.
Qed.

(** X18. A dataset without categorical feature names can be constructed,
    but no batch can be fetched from it: for every index and in every state
    the fetch raises. *)
Theorem X18_no_categorical_names_no_batch INT_NAMES fs path json bs pd
    drop_last self idx w b :
  __init__ [] INT_NAMES fs path json bs pd drop_last = Ok self →
  (_get_item INT_NAMES fs self idx w).1 ≠ Ok b.
Proof.
  intros Hinit.
  destruct (init_Ok_inv _ _ _ _ _ _ _ _ _ Hinit)
    as (tys & fi & fb & cbpb & label & _ & _ & _ & _ & _ & _ & _ & _ & Hself).
  assert (_categorical_features_files self = Some []) as Hfiles
    by (by rewrite Hself).
  clear Hself. unfold _get_item. unfold mbind at 1, M_bind at 1.
  destruct (_get_label fs self idx w) as [[click | | ] w1]; [ | done | done].
  unfold mbind at 1, M_bind at 1.
  destruct (_get_numerical_features INT_NAMES fs self idx w1)
    as [[num | | ] w2]; [ | done | done].
  unfold mbind at 1, M_bind at 1.
  destruct (_get_categorical_features fs self idx w2) as [[cat | | ] w3] eqn:E;
    [ | done | done].
  exfalso. revert E. unfold _get_categorical_features. rewrite Hfiles.
  rewrite zip_with_nil_r.
  cbn. done.
Qed.

(** X19. Whenever the numerical getter returns a tensor, it is a 16-bit
    float matrix of whole records: as many columns as there are numerical
    feature names, as many rows as the bytes read hold records, never more
    bytes than [numerical_bytes_per_batch]. *)
Theorem X19_numerical_result_holds_whole_records INT_NAMES fs self idx w
    num :
  (_get_numerical_features INT_NAMES fs self idx w).1 = Ok (Some num) →
  t_dtype num = np_float16
  ∧ ∃ rows,
      0 ≤ rows
      ∧ t_shape num = [rows; Z.of_nat (length INT_NAMES)]
      ∧ Z.of_nat (length (t_data num)) = rows * Z.of_nat (length INT_NAMES)
      ∧ 2 * (rows * Z.of_nat (length INT_NAMES))
        ≤ _numerical_bytes_per_batch self.
Proof.
  unfold _get_numerical_features.
  destruct (_numerical_features_file self) as [f | ]; [ | done].
  unfold mbind at 1, M_bind at 1.
  destruct (os_pread fs f _ _ w) as [[raw | | ] w1] eqn:Hread;
    [ | done | done].
  apply os_pread_Ok_inv in Hread as [Hb Hraw].
  unfold mbind at 1, M_bind at 1, lift at 1.
  destruct (np_frombuffer raw np_float16) as [a | | ] eqn:Ha; [ | done | done].
  apply np_frombuffer_Ok_inv in Ha as (Hty & Hmod & Hlen & _ & Hcount).
  unfold mbind at 1, M_bind at 1, lift at 1, view_rows, numel, torch_from_numpy.
  cbn [itemsize] in *.
  destruct (Z.leb_spec (Z.of_nat (length INT_NAMES)) 0) as [ | Hk];
    cbn [orb]; [done | ].
  destruct (Z.eqb_spec (Z.of_nat (length (t_data a))
                        mod Z.of_nat (length INT_NAMES)) 0) as [Hrows | ];
    cbn [negb]; [ | done].
  intros [= <-]. cbn [t_dtype t_shape t_data].
  split; [done | ].
  exists (Z.of_nat (length (t_data a)) / Z.of_nat (length INT_NAMES)).
  pose proof (Z.div_mod (Z.of_nat (length (t_data a)))
                (Z.of_nat (length INT_NAMES)) ltac:(lia)) as Hdm.
  pose proof (Z.div_mod (Z.of_nat (length raw)) 2 ltac:(lia)) as Hdm2.
  split; [apply Z.div_pos; lia | split; [done | split; [lia | lia]]].
Qed.

(** A fetch of a batch that every group's file holds in full. *)
Lemma get_item_full CAT_NAMES INT_NAMES fs path json bs pd drop_last self
    idx :
  NoDup (INT_NAMES ++ CAT_NAMES) → CAT_NAMES ≠ [] →
  __init__ CAT_NAMES INT_NAMES fs path json bs pd drop_last = Ok self →
  0 ≤ idx → 0 < bs →
  holds_batch fs (os_path_join path "label.bin") bs idx →
  holds_batch fs (os_path_join path "numerical.bin")
    (2 * Z.of_nat (length INT_NAMES) * bs) idx →
  Forall2 (fun name t =>
             holds_batch fs (os_path_join path (String.append name ".bin"))
               (itemsize t * bs) idx)
          CAT_NAMES (_categorical_types self) →
  ∀ w,
    (_get_item INT_NAMES fs self idx w).1
    = Ok (Some (Tensor np_float16 [bs; Z.of_nat (length INT_NAMES)]
                  (decode_elem np_float16
                     <$> chunks (Z.to_nat (bs * Z.of_nat (length INT_NAMES)))
                           2
                           (batch_bytes fs
                              (os_path_join path "numerical.bin")
                              (2 * Z.of_nat (length INT_NAMES) * bs) idx))),
          Some (Tensor torch_long [Z.of_nat (length CAT_NAMES) * bs]
                  (concat (zip_with (categorical_column fs path bs idx)
                             CAT_NAMES (_categorical_types self)))),
          to_float32
            (Tensor np_bool [bs]
               ((fun b => if byte_val b =? 0 then 0 else 1)
                  <$> batch_bytes fs (os_path_join path "label.bin") bs
                        idx))).
Proof.
  intros Hnd Hne Hinit Hidx Hbs Hlab Hnum Hcat w.
  destruct (init_layout _ _ _ _ _ _ _ _ _ Hnd Hinit)
    as (Hb & Hl & Hn & Hc & Hlen & Htypes).
  rewrite Z.mul_1_l in Hl.
  destruct (init_Ok_inv _ _ _ _ _ _ _ _ _ Hinit)
    as (tys & fi & fb & cbpb & label & _ & Hfi & _ & _ & _ & _ & _ & _ & Hself).
  assert (_label_file self = os_path_join path "label.bin"
          ∧ _numerical_features_file self
            = Some (os_path_join path "numerical.bin")
          ∧ _categorical_features_files self
            = Some ((fun name => os_path_join path (String.append name ".bin"))
                      <$> CAT_NAMES)) as (Hlf & Hnf & Hcf)
    by (by rewrite Hself).
  clear Hself.
  assert (0 < length INT_NAMES)%nat as Hk
    by (apply lookup_lt_Some in Hfi; lia).
  pose proof (get_label_batch fs self idx) as Hrl.
  rewrite Hlf, Hl in Hrl. specialize (Hrl Hidx ltac:(lia) Hlab).
  pose proof (get_numerical_full INT_NAMES fs self idx _ Hnf) as Hrn.
  rewrite Hb, Hn in Hrn. specialize (Hrn Hidx Hbs Hk eq_refl Hnum).
  destruct (get_categorical_full fs path bs idx CAT_NAMES self
              Hidx Hbs Hne Hcf Hc) as [tc Hrc].
  { by apply Forall2_and_Forall_r. }
  unfold _get_item.
  erewrite (runs_bind_Ok _ _ _ _ _ _ Hrl); [done | cbn beta].
  eapply runs_bind_Ok; [exact Hrn | cbn beta].
  eapply runs_bind_Ok; [exact Hrc | apply runs_ret].
Qed.

(** ** The dataloader *)

Lemma enumerate_dict_notin i keys (d : gmap string Z) k :
  k ∉ keys →
  NvtBinaryDataloader.enumerate_dict i keys d !! k = d !! k.
Proof.
  revert i d. induction keys as [ | key keys IH]; intros i d Hk; [done | ].
  apply not_elem_of_cons in Hk as [Hne Hk].
  cbn [NvtBinaryDataloader.enumerate_dict].
  rewrite IH by done. by rewrite lookup_insert_ne.
Qed.

Lemma enumerate_dict_lookup i keys (d : gmap string Z) j k :
  NoDup keys → keys !! j = Some k →
  NvtBinaryDataloader.enumerate_dict i keys d !! k = Some (i + Z.of_nat j).
Proof.
  revert i d j. induction keys as [ | key keys IH]; intros i d j Hnd Hj;
    [done | ].
  apply NoDup_cons in Hnd as [Hkey Hnd].
  cbn [NvtBinaryDataloader.enumerate_dict].
  destruct j as [ | j].
  - cbn in Hj. injection Hj as ->.
    rewrite enumerate_dict_notin by done.
    rewrite lookup_insert_eq. f_equal. lia.
  - cbn in Hj. rewrite (IH (i + 1) _ j) by done. f_equal. lia.
Qed.

Section DataloaderProperties.

Variable CAT_NAMES : list string.
Variable INT_NAMES : list string.
Variable CAT_FEATURE_COUNT : Z.
Variable fs : gmap string (list Byte.byte).
Variable cast_float32 : dtype → Z → Z.

Lemma dataloader_Ok_inv path json bs pd drop_last dl :
  NvtBinaryDataloader.__init__ CAT_NAMES INT_NAMES CAT_FEATURE_COUNT fs
    path json bs pd drop_last = Ok dl →
  0 ≤ CAT_FEATURE_COUNT * bs
  ∧ __init__ CAT_NAMES INT_NAMES fs path json bs pd drop_last
    = Ok (NvtBinaryDataloader.dataset dl)
  ∧ dl = {| NvtBinaryDataloader.dataset := NvtBinaryDataloader.dataset dl;
            NvtBinaryDataloader._num_ids_in_batch := CAT_FEATURE_COUNT * bs;
            NvtBinaryDataloader.keys := CAT_NAMES;
            NvtBinaryDataloader.lengths :=
              Tensor np_int32 [CAT_FEATURE_COUNT * bs]
                (replicate (Z.to_nat (CAT_FEATURE_COUNT * bs)) 1);
            NvtBinaryDataloader.offsets :=
              Tensor np_int32 [CAT_FEATURE_COUNT * bs + 1]
                (seqZ 0 (CAT_FEATURE_COUNT * bs + 1));
            NvtBinaryDataloader.stride := bs;
            NvtBinaryDataloader.length_per_key :=
              replicate (Z.to_nat CAT_FEATURE_COUNT) bs;
            NvtBinaryDataloader.offset_per_key :=
              (fun i => bs * i) <$> seqZ 0 (CAT_FEATURE_COUNT + 1);
            NvtBinaryDataloader.index_per_key :=
              NvtBinaryDataloader.enumerate_dict 0 CAT_NAMES ∅ |}.
Proof.
  unfold NvtBinaryDataloader.__init__. intros H.
  apply bind_Ok_inv in H as (ds & Hds & H). cbv zeta in H.
  apply bind_Ok_inv in H as (lengths & Hlengths & H).
  apply bind_Ok_inv in H as (offsets & Hoffsets & H).
  unfold NvtBinaryDataloader.torch_ones in Hlengths.
  unfold NvtBinaryDataloader.torch_arange in Hoffsets.
  destruct (Z.ltb_spec (CAT_FEATURE_COUNT * bs) 0); [done | ].
  destruct (Z.ltb_spec (CAT_FEATURE_COUNT * bs + 1) 0); [done | ].
  injection Hlengths as <-. injection Hoffsets as <-. injection H as <-.
  by cbn.
Qed.

(** X20. How the construction of the dataloader fails: an exception of the
    construction of its dataset is passed on as it is; when the dataset is
    constructed and [CAT_FEATURE_COUNT * batch_size] is negative (and a
    64-bit integer), [torch.ones] raises [RuntimeError]. So a constructed
    dataloader holds a constructed dataset and has a non-negative number of
    ids per batch. *)
Theorem X20_dataloader_construction path json bs pd drop_last :
  (∀ e, __init__ CAT_NAMES INT_NAMES fs path json bs pd drop_last = Raise e →
        NvtBinaryDataloader.__init__ CAT_NAMES INT_NAMES CAT_FEATURE_COUNT
          fs path json bs pd drop_last = Raise e)
  ∧ (∀ ds, __init__ CAT_NAMES INT_NAMES fs path json bs pd drop_last = Ok ds →
           - 2 ^ 63 ≤ CAT_FEATURE_COUNT * bs < 0 →
           NvtBinaryDataloader.__init__ CAT_NAMES INT_NAMES CAT_FEATURE_COUNT
             fs path json bs pd drop_last = Raise RuntimeError)
  ∧ (∀ dl, NvtBinaryDataloader.__init__ CAT_NAMES INT_NAMES CAT_FEATURE_COUNT
             fs path json bs pd drop_last = Ok dl →
           __init__ CAT_NAMES INT_NAMES fs path json bs pd drop_last
           = Ok (NvtBinaryDataloader.dataset dl)
           ∧ 0 ≤ CAT_FEATURE_COUNT * bs).
Proof.
  split; [ | split].
  - intros e He. unfold NvtBinaryDataloader.__init__. by rewrite He.
  - intros ds Hds [_ Hneg]. unfold NvtBinaryDataloader.__init__.
    rewrite Hds. cbn [mbind res_bind]. cbv zeta.
    unfold NvtBinaryDataloader.torch_ones.
    by replace (CAT_FEATURE_COUNT * bs <? 0) with true
      by (symmetry; apply Z.ltb_lt; lia).
  - intros dl Hdl. apply dataloader_Ok_inv in Hdl as (Hn & Hds & _).
    by split.
Qed.

(** X21. The constant metadata of a constructed dataloader whose ids of one
    batch can be counted in 32 bits is consistent:
    every id has length one, [offsets] are the running sums of [lengths]
    from 0 to the number of ids in a batch, every key has [batch_size]
    ids, and [offset_per_key] are the running sums of [length_per_key],
    ending at the number of ids in a batch. *)
Theorem X21_jagged_metadata_is_consistent path json bs pd drop_last dl :
  NvtBinaryDataloader.__init__ CAT_NAMES INT_NAMES CAT_FEATURE_COUNT fs
    path json bs pd drop_last = Ok dl →
  0 ≤ CAT_FEATURE_COUNT → CAT_FEATURE_COUNT * bs < 2147483647 →
  NvtBinaryDataloader._num_ids_in_batch dl = CAT_FEATURE_COUNT * bs
  ∧ (∀ i, 0 ≤ i < NvtBinaryDataloader._num_ids_in_batch dl →
       t_data (NvtBinaryDataloader.lengths dl) !! Z.to_nat i = Some 1
       ∧ t_data (NvtBinaryDataloader.offsets dl) !! Z.to_nat i = Some i
       ∧ t_data (NvtBinaryDataloader.offsets dl) !! Z.to_nat (i + 1)
         = Some (i + 1))
  ∧ Z.of_nat (length (t_data (NvtBinaryDataloader.lengths dl)))
    = NvtBinaryDataloader._num_ids_in_batch dl
  ∧ Z.of_nat (length (t_data (NvtBinaryDataloader.offsets dl)))
    = NvtBinaryDataloader._num_ids_in_batch dl + 1
  ∧ (∀ k, 0 ≤ k < CAT_FEATURE_COUNT →
       NvtBinaryDataloader.length_per_key dl !! Z.to_nat k = Some bs
       ∧ NvtBinaryDataloader.offset_per_key dl !! Z.to_nat k = Some (bs * k)
       ∧ NvtBinaryDataloader.offset_per_key dl !! Z.to_nat (k + 1)
         = Some (bs * k + bs))
  ∧ NvtBinaryDataloader.offset_per_key dl !! Z.to_nat CAT_FEATURE_COUNT
    = Some (NvtBinaryDataloader._num_ids_in_batch dl).
Proof.
  intros Hdl HC _. apply dataloader_Ok_inv in Hdl as (Hn & _ & ->).
  cbn [NvtBinaryDataloader._num_ids_in_batch NvtBinaryDataloader.lengths
       NvtBinaryDataloader.offsets NvtBinaryDataloader.length_per_key
       NvtBinaryDataloader.offset_per_key t_data].
  split; [done | split; [ | split; [ | split; [ | split]]]].
  - intros i Hi. split; [ | split].
    + apply lookup_replicate_2. lia.
    + rewrite lookup_seqZ_lt by lia. f_equal. lia.
    + rewrite lookup_seqZ_lt by lia. f_equal. lia.
  - rewrite length_replicate. lia.
  - rewrite length_seqZ. lia.
  - intros k Hk. split; [ | split].
    + apply lookup_replicate_2. lia.
    + rewrite list_lookup_fmap, lookup_seqZ_lt by lia.
      cbn [fmap option_fmap option_map]. f_equal.
      rewrite Z2Nat.id by lia. lia.
    + rewrite list_lookup_fmap, lookup_seqZ_lt by lia.
      cbn [fmap option_fmap option_map]. f_equal.
      rewrite Z2Nat.id by lia. lia.
  - rewrite list_lookup_fmap, lookup_seqZ_lt by lia.
      cbn [fmap option_fmap option_map]. f_equal.
      rewrite Z2Nat.id by lia. lia.
Qed.

(** X22. In a dataloader constructed over distinct categorical names,
    [index_per_key] maps every key to its position in [keys], and has no
    entry for any other name. *)
Theorem X22_index_per_key_inverts_keys path json bs pd drop_last dl :
  NvtBinaryDataloader.__init__ CAT_NAMES INT_NAMES CAT_FEATURE_COUNT fs
    path json bs pd drop_last = Ok dl →
  NoDup CAT_NAMES →
  (∀ i key, NvtBinaryDataloader.keys dl !! i = Some key →
            NvtBinaryDataloader.index_per_key dl !! key
            = Some (Z.of_nat i))
  ∧ (∀ key, key ∉ NvtBinaryDataloader.keys dl →
            NvtBinaryDataloader.index_per_key dl !! key = None).
Proof.
  intros Hdl Hnd. apply dataloader_Ok_inv in Hdl as (_ & _ & ->).
  cbn [NvtBinaryDataloader.keys NvtBinaryDataloader.index_per_key].
  split.
  - intros i key Hi. by rewrite (enumerate_dict_lookup 0 _ _ i).
  - intros key Hkey. by rewrite enumerate_dict_notin.
Qed.

(** X23. Collating the fetch of a batch that every group's file holds in
    full, in a dataloader whose feature count is the number of categorical
    names: the jagged tensor's values are the batch's categorical ids, as
    many as [lengths] has entries and as the last offset says; the labels are
    passed on as fetched, [batch_size] of them; the dense features become a
    float32 matrix of [batch_size] rows and one column per numerical
    feature. *)
Theorem X23_collated_full_batch_is_consistent path json bs pd drop_last dl
    idx :
  NvtBinaryDataloader.__init__ CAT_NAMES INT_NAMES CAT_FEATURE_COUNT fs
    path json bs pd drop_last = Ok dl →
  CAT_FEATURE_COUNT = Z.of_nat (length CAT_NAMES) →
  CAT_FEATURE_COUNT * bs < 2147483647 →
  NoDup (INT_NAMES ++ CAT_NAMES) → CAT_NAMES ≠ [] →
  0 ≤ idx →
  holds_batch fs (os_path_join path "label.bin") bs idx →
  holds_batch fs (os_path_join path "numerical.bin")
    (2 * Z.of_nat (length INT_NAMES) * bs) idx →
  Forall2 (fun name t =>
             holds_batch fs (os_path_join path (String.append name ".bin"))
               (itemsize t * bs) idx)
          CAT_NAMES (_categorical_types (NvtBinaryDataloader.dataset dl)) →
  ∃ num cat click out,
    (∀ w, (_get_item INT_NAMES fs (NvtBinaryDataloader.dataset dl) idx w).1
          = Ok (Some num, Some cat, click))
    ∧ NvtBinaryDataloader.collate_fn CAT_NAMES cast_float32 dl
        (Some num, Some cat, click)
      = NvtBinaryDataloader.Collated out
    ∧ NvtBinaryDataloader.kjt_values
        (NvtBinaryDataloader.sparse_features out) = Some cat
    ∧ length (t_data cat)
      = length (t_data (NvtBinaryDataloader.kjt_lengths
                          (NvtBinaryDataloader.sparse_features out)))
    ∧ last (t_data (NvtBinaryDataloader.kjt_offsets
                      (NvtBinaryDataloader.sparse_features out)))
      = Some (Z.of_nat (length (t_data cat)))
    ∧ NvtBinaryDataloader.kjt_stride
        (NvtBinaryDataloader.sparse_features out) = bs
    ∧ NvtBinaryDataloader.labels out = click
    ∧ t_shape click = [bs]
    ∧ t_dtype (NvtBinaryDataloader.dense_features out) = torch_float32
    ∧ t_shape (NvtBinaryDataloader.dense_features out)
      = [bs; Z.of_nat (length INT_NAMES)]
    ∧ length (t_data (NvtBinaryDataloader.dense_features out))
      = length (t_data num).
Proof.
  intros Hdl HC _ Hnd Hne Hidx Hlab Hnum Hcat.
  apply dataloader_Ok_inv in Hdl as (Hn & Hds & Hdl).
  assert (0 < bs) as Hbs.
  { destruct (init_Ok_inv _ _ _ _ _ _ _ _ _ Hds)
      as (? & ? & ? & ? & ? & _ & _ & _ & _ & _ & _ & _ & Hbs & _).
    destruct CAT_NAMES; [done | ]. cbn [length] in HC. nia. }
  pose proof (get_item_full _ _ _ _ _ _ _ _ _ idx Hnd Hne Hds Hidx Hbs
                Hlab Hnum Hcat) as Hget.
  eexists _, _, _, _. split; [exact Hget | ].
  split; [reflexivity | ].
  destruct (init_layout _ _ _ _ _ _ _ _ _ Hnd Hds) as (_ & _ & _ & _ & Hlen & _).
  pose proof (categorical_columns_length fs path bs idx CAT_NAMES
                (_categorical_types (NvtBinaryDataloader.dataset dl))
                ltac:(lia)) as Hcols.
  assert (length (concat (zip_with (categorical_column fs path bs idx)
                            CAT_NAMES
                            (_categorical_types
                               (NvtBinaryDataloader.dataset dl))))
          = Z.to_nat (CAT_FEATURE_COUNT * bs)) as Hvalues.
  { rewrite (length_concat_blocks _ (Z.to_nat bs)) by done.
    rewrite length_zip_with, Hlen, Nat.min_id. lia. }
  cbn [NvtBinaryDataloader.sparse_features NvtBinaryDataloader.kjt_values
       NvtBinaryDataloader.kjt_lengths NvtBinaryDataloader.kjt_offsets
       NvtBinaryDataloader.kjt_stride NvtBinaryDataloader.labels
       NvtBinaryDataloader.dense_features
       NvtBinaryDataloader.type_FloatTensor t_data t_shape t_dtype
       to_float32].
  assert (NvtBinaryDataloader.lengths dl
          = Tensor np_int32 [CAT_FEATURE_COUNT * bs]
              (replicate (Z.to_nat (CAT_FEATURE_COUNT * bs)) 1)
          ∧ NvtBinaryDataloader.offsets dl
            = Tensor np_int32 [CAT_FEATURE_COUNT * bs + 1]
                (seqZ 0 (CAT_FEATURE_COUNT * bs + 1))
          ∧ NvtBinaryDataloader.stride dl = bs) as (-> & -> & ->)
    by (by rewrite Hdl).
  cbn [t_data].
  rewrite Hvalues, length_replicate, length_fmap.
  repeat split.
  replace (CAT_FEATURE_COUNT * bs + 1)
    with (Z.of_nat (S (Z.to_nat (CAT_FEATURE_COUNT * bs)))) by lia.
  rewrite seqZ_S, last_snoc. f_equal.
Qed.

End DataloaderProperties.

(** ** Fetching and collating *)

(** What a sequence of calls can give. *)
Lemma consume_results INT_NAMES fs self idxs w pending :
  prefetch_queue w = futures INT_NAMES fs self pending →
  Forall (fun r => r = Raise IndexError ∨ r = Blocks
                   ∨ ∃ j, r = (_get_item INT_NAMES fs self j new_world).1)
         (consume INT_NAMES fs self idxs w).1.
Proof.
  revert w pending. induction idxs as [ | idx idxs IH]; intros w pending Hq;
    [constructor | ].
  cbn [consume].
  destruct (getitem_cases INT_NAMES fs self idx w pending Hq)
    as [H | [(_ & _ & H) | (_ & _ & [[_ H] | (j & rest & E & H)])]];
    rewrite H.
  - pose proof (IH w pending Hq) as IH1.
    destruct (consume INT_NAMES fs self idxs w) as [rs w2].
    constructor; [by left | done].
  - match goal with
    | |- context [consume INT_NAMES fs self idxs ?w1] =>
        pose proof (IH w1 pending Hq) as IH1;
        destruct (consume INT_NAMES fs self idxs w1) as [rs w2]
    end.
    constructor; [right; right; by eexists | exact IH1].
  - pose proof (IH w pending Hq) as IH1.
    destruct (consume INT_NAMES fs self idxs w) as [rs w2].
    constructor; [right; by left | done].
  - match goal with
    | |- context [consume INT_NAMES fs self idxs ?w1] =>
        pose proof (IH w1 rest eq_refl) as IH1;
        destruct (consume INT_NAMES fs self idxs w1) as [rs w2]
    end.
    constructor; [right; right; by eexists | exact IH1].
Qed.

(** A fetch of a constructed dataset that returns has both feature groups. *)
Lemma get_item_Ok_some CAT_NAMES INT_NAMES fs path json bs pd drop_last self
    idx w num cat click :
  __init__ CAT_NAMES INT_NAMES fs path json bs pd drop_last = Ok self →
  (_get_item INT_NAMES fs self idx w).1 = Ok (num, cat, click) →
  is_Some num ∧ is_Some cat.
Proof.
  intros Hinit.
  destruct (init_Ok_inv _ _ _ _ _ _ _ _ _ Hinit)
    as (tys & fi & fb & cbpb & label & _ & _ & _ & _ & _ & _ & _ & _ & Hself).
  assert (is_Some (_numerical_features_file self)
          ∧ is_Some (_categorical_features_files self)) as [[f Hf] [fl Hfl]]
    by (by rewrite Hself).
  clear Hself. unfold _get_item. unfold mbind at 1, M_bind at 1.
  destruct (_get_label fs self idx w) as [[click' | | ] w1]; [ | done | done].
  unfold mbind at 1, M_bind at 1.
  destruct (_get_numerical_features INT_NAMES fs self idx w1)
    as [[num' | | ] w2] eqn:Hnum; [ | done | done].
  unfold mbind at 1, M_bind at 1.
  destruct (_get_categorical_features fs self idx w2) as [[cat' | | ] w3]
    eqn:Hcat; [ | done | done].
  intros [= <- <- <-]. split.
  - revert Hnum. unfold _get_numerical_features. rewrite Hf.
    unfold mbind at 1, M_bind at 1.
    destruct (os_pread fs f _ _ w1) as [[raw | | ] w1']; [ | done | done].
    unfold mbind at 1, M_bind at 1, lift at 1.
    destruct (np_frombuffer raw np_float16) as [a | | ]; [ | done | done].
    unfold mbind at 1, M_bind at 1, lift at 1.
    destruct (view_rows _ _) as [t | | ]; [ | done | done].
    intros [= <- _]. by eexists.
  - revert Hcat. unfold _get_categorical_features. rewrite Hfl.
    unfold mbind at 1, M_bind at 1.
    destruct (cat_loop fs idx _ [] w2) as [[ts | | ] w2']; [ | done | done].
    unfold mbind at 1, M_bind at 1, lift at 1.
    destruct (torch_cat_dim1 ts) as [t | | ]; [ | done | done].
    intros [= <- _]. by eexists.
Qed.

(** X24. Every batch that any sequence of calls on the fresh dataset of a
    constructed dataloader returns can be collated: it has dense features,
    so [collate_fn] never fails on [None.type], the jagged tensor gets
    values, and keys, labels and the constant metadata are passed on
    unchanged. *)
Theorem X24_returned_batches_always_collate CAT_NAMES INT_NAMES
    CAT_FEATURE_COUNT fs cast_float32 path json bs pd drop_last dl idxs
    batch :
  NvtBinaryDataloader.__init__ CAT_NAMES INT_NAMES CAT_FEATURE_COUNT fs
    path json bs pd drop_last = Ok dl →
  Ok batch
    ∈ (consume INT_NAMES fs (NvtBinaryDataloader.dataset dl) idxs
         new_world).1 →
  ∃ out dense values,
    NvtBinaryDataloader.collate_fn CAT_NAMES cast_float32 dl batch
    = NvtBinaryDataloader.Collated out
    ∧ batch = (Some dense, Some values, NvtBinaryDataloader.labels out)
    ∧ NvtBinaryDataloader.dense_features out
      = Tensor torch_float32 (t_shape dense)
          (cast_float32 (t_dtype dense) <$> t_data dense)
    ∧ NvtBinaryDataloader.kjt_values
        (NvtBinaryDataloader.sparse_features out) = Some values
    ∧ NvtBinaryDataloader.kjt_keys
        (NvtBinaryDataloader.sparse_features out)
      = NvtBinaryDataloader.keys dl
    ∧ NvtBinaryDataloader.kjt_stride
        (NvtBinaryDataloader.sparse_features out) = bs.
Proof.
  intros Hdl Hin.
  apply dataloader_Ok_inv in Hdl as (_ & Hds & Hdl).
  pose proof (consume_results INT_NAMES fs (NvtBinaryDataloader.dataset dl)
                idxs new_world [] eq_refl) as Hall.
  rewrite Forall_forall in Hall.
  destruct (Hall _ Hin) as [? | [? | [j Hj]]]; [done | done | ].
  destruct batch as [[num cat] click]. symmetry in Hj.
  destruct (get_item_Ok_some _ _ _ _ _ _ _ _ _ _ _ _ _ _ Hds Hj)
    as [[dense ->] [values ->]].
  assert (NvtBinaryDataloader.keys dl = CAT_NAMES
          ∧ NvtBinaryDataloader.stride dl = bs) as [Hkeys Hstride]
    by (by rewrite Hdl).
  eexists _, dense, values. split; [reflexivity | ].
  cbn [NvtBinaryDataloader.sparse_features NvtBinaryDataloader.kjt_values
       NvtBinaryDataloader.kjt_keys NvtBinaryDataloader.kjt_stride
       NvtBinaryDataloader.labels NvtBinaryDataloader.dense_features
       NvtBinaryDataloader.type_FloatTensor].
  by rewrite Hkeys, Hstride.
Qed.

(** ** Construction and iteration *)

(** Complete in-order passes from an empty window. *)
Lemma consume_epochs INT_NAMES fs self (k : nat) w0 :
  _prefetch_depth self ≤ _num_entries self →
  prefetch_queue w0 = [] →
  (consume INT_NAMES fs self
     (concat (replicate k (seqZ 0 (_num_entries self)))) w0).1
  = concat (replicate k
              ((fun i => (_get_item INT_NAMES fs self i new_world).1)
                 <$> seqZ 0 (_num_entries self)))
  ∧ prefetch_queue
      (consume INT_NAMES fs self
         (concat (replicate k (seqZ 0 (_num_entries self)))) w0).2 = [].
Proof.
  intros Hpn. revert w0. induction k as [ | k IH]; intros w0 Hq0; [done | ].
  cbn [replicate concat]. rewrite consume_app.
  destruct (pass_from_empty_queue INT_NAMES fs self w0 Hpn Hq0)
    as (w & -> & Hq).
  destruct (IH w Hq) as [Hrs Hq'].
  destruct (consume INT_NAMES fs self
              (concat (replicate k (seqZ 0 (_num_entries self)))) w)
    as [rs w'].
  cbn [fst snd] in *. by rewrite Hrs.
Qed.

(** X25. Whatever [prefetch_depth] a dataset was constructed with, also one
    larger than its length, zero or negative: [k] complete in-order passes
    over the fresh dataset return, in each pass, the results of the direct
    fetches of [0, 1, ..., length - 1]; no call waits on an empty window or
    is answered with the batch of another pass. *)
Theorem X25_constructed_dataset_iterates_in_order CAT_NAMES INT_NAMES fs path
    json bs pd drop_last self (k : nat) :
  __init__ CAT_NAMES INT_NAMES fs path json bs pd drop_last = Ok self →
  (consume INT_NAMES fs self
     (concat (replicate k (seqZ 0 (__len__ self)))) new_world).1
  = concat (replicate k
              ((fun i => (_get_item INT_NAMES fs self i new_world).1)
                 <$> seqZ 0 (__len__ self))).
Proof.
  intros Hinit.
  assert (_prefetch_depth self ≤ _num_entries self) as Hpn.
  { destruct (init_Ok_inv _ _ _ _ _ _ _ _ _ Hinit)
      as (? & ? & ? & ? & ? & _ & _ & _ & _ & _ & _ & _ & _ & ->).
    cbn [_prefetch_depth _num_entries]. lia. }
  unfold __len__. by apply consume_epochs.
Qed.

(** * The further properties on the sample datasets *)

Lemma sample_sizes_resolve :
  Forall (fun name => ∃ v : Z, sample_sizes !! name = Some v
                               ∧ v + 1 < 2147483647) sample_cat_names.
Proof.
  repeat constructor.
  - exists 5. split; [reflexivity | lia].
  - exists 200. split; [reflexivity | lia].
Defined.

Lemma sample_cat_files_exist :
  Forall (fun name => is_Some (sample_fs
                                 !! os_path_join "d"
                                      (String.append name ".bin")))
         sample_cat_names.
Proof. repeat constructor; eexists; reflexivity. Defined.

Lemma sample_cat_names_distinct : NoDup sample_cat_names.
Proof. apply (bool_decide_unpack _). vm_compute. reflexivity. Defined.

Lemma sample_dataloader_init :
  NvtBinaryDataloader.__init__ sample_cat_names sample_int_names 2 sample_fs
    "d" sample_sizes 2 2 false
  = Ok sample_dataloader.
Proof. reflexivity. Qed.

Lemma X4_sample_zero_batch_size :
  sample_int_names ≠ []
  ∧ is_Some (sample_fs !! os_path_join "d" "numerical.bin")
  ∧ __init__ sample_cat_names sample_int_names sample_fs "d" sample_sizes
             0 2 false
    = Raise ZeroDivisionError.
Proof.
  split; [done | split; [by eexists | ]].
  apply (X4_zero_batch_size_raises sample_cat_names sample_int_names
           sample_fs "d" sample_sizes 2 false);
    [exact sample_sizes_resolve | done | exact sample_cat_files_exist
     | by eexists].
Defined.

Lemma X5_sample_without_label_file :
  delete "d/label.bin"%string sample_fs !! os_path_join "d" "label.bin" = None
  ∧ __init__ sample_cat_names sample_int_names
             (delete "d/label.bin"%string sample_fs) "d" sample_sizes
             2 2 false
    = Raise FileNotFoundError.
Proof.
  split; [reflexivity | ].
  apply (X5_missing_file_raises sample_cat_names sample_int_names
           (delete "d/label.bin"%string sample_fs) "d" sample_sizes 2 2
           false);
    [exact sample_sizes_resolve | done | lia | ].
  intros (_ & _ & [x Hx]). vm_compute in Hx. discriminate Hx.
Defined.

Lemma X6_sample_without_size_entry :
  sample_cat_names = ["cat_0"%string] ++ "cat_1"%string :: []
  ∧ delete "cat_1"%string sample_sizes !! "cat_1"%string = None
  ∧ __init__ sample_cat_names sample_int_names sample_fs "d"
             (delete "cat_1"%string sample_sizes) 2 2 false
    = Raise KeyError.
Proof.
  split; [reflexivity | split; [reflexivity | ]].
  assert (Forall (fun name => ∃ v : Z,
                      delete "cat_1"%string sample_sizes !! name = Some v
                      ∧ v + 1 < 2147483647) ["cat_0"%string]) as Hpre.
  { repeat constructor. exists 5. split; [reflexivity | lia]. }
  assert (¬ ∃ v : Z, delete "cat_1"%string sample_sizes !! "cat_1"%string
                     = Some v ∧ v + 1 < 2147483647) as Hname.
  { intros (v & Hv & _). vm_compute in Hv. discriminate Hv. }
  exact (X6_first_unresolved_name_decides sample_cat_names sample_int_names
           ["cat_0"%string] "cat_1"%string [] sample_fs "d"
           (delete "cat_1"%string sample_sizes) 2 2 false eq_refl Hpre
           Hname).
Defined.

Lemma X7_sample_without_numerical_names :
  __init__ sample_cat_names [] sample_fs "d" sample_sizes 2 2 false
  = Raise IndexError.
Proof.
  apply (X7_no_numerical_name_raises sample_cat_names [] sample_fs "d"
           sample_sizes 2 2 false);
    [exact sample_sizes_resolve | reflexivity].
Defined.

Lemma X8_sample_depth_one :
  __init__ sample_cat_names sample_int_names sample_fs "d" sample_sizes
           2 1 false = Ok (sample_dataset 1)
  ∧ 2 < __len__ (sample_dataset 1)
  ∧ __getitem__ sample_int_names sample_fs (sample_dataset 1) 2 new_world
    = _get_item sample_int_names sample_fs (sample_dataset 1) 2 new_world.
Proof.
  split; [reflexivity | split; [cbn; lia | ]].
  apply (X8_shallow_or_short_datasets_fetch_directly sample_cat_names
           sample_int_names sample_fs "d" sample_sizes 2 1 false
           (sample_dataset 1) 2 new_world eq_refl);
    [left; lia | cbn; lia].
Defined.

Lemma X9_partial_file_policies :
  ∃ dropped label,
    __init__ sample_cat_names sample_int_names partial_fs "d" sample_sizes
             2 2 true = Ok dropped
    ∧ partial_fs !! os_path_join "d" "label.bin" = Some label
    ∧ Z.of_nat (length label) < 2 ^ 53
    ∧ 0 ≤ __len__ (sample_dataset 2) - __len__ dropped ≤ 1
    ∧ (__len__ (sample_dataset 2) = __len__ dropped
       ↔ Z.of_nat (length label) mod 2 = 0).
Proof.
  eexists.
  assert (__init__ sample_cat_names sample_int_names partial_fs "d"
            sample_sizes 2 2 true = Ok _) as Hd by reflexivity.
  destruct (X9_last_batch_policy_differs_by_one sample_cat_names
              sample_int_names partial_fs "d" sample_sizes 2 2
              (sample_dataset 2) _ eq_refl Hd) as (label & Hl & Hb & Hiff).
  assert (Z.of_nat (length label) = 7) as Hsize.
  { change (Some (mk_byte <$> [0; 1; 1; 0; 2; 0; 1]) = Some label) in Hl.
    by injection Hl as <-. }
  assert (Z.of_nat (length label) < 2 ^ 53) as Hsmall by (rewrite Hsize; lia).
  exists label.
  split; [exact Hd | split; [exact Hl | split; [exact Hsmall | ]]].
  split; [exact Hb | exact (Hiff Hsmall ltac:(lia))].
Defined.

Lemma X10_sample_first_call :
  1 < _prefetch_depth (sample_dataset 2)
  ∧ 0 < _num_entries (sample_dataset 2)
  ∧ (__getitem__ sample_int_names sample_fs (sample_dataset 2) 0
       new_world).1
    = (_get_item sample_int_names sample_fs (sample_dataset 2) 0
         new_world).1.
Proof.
  split; [cbn; lia | split; [cbn; lia | ]].
  pose proof (X10_window_call_returns_oldest_fetch sample_int_names sample_fs
                (sample_dataset 2) 0 new_world []
                ltac:(cbn; lia) ltac:(cbn; lia) eq_refl) as H.
  hnf in H. exact (f_equal fst H).
Defined.

Lemma X12_sample_pass_reads :
  _prefetch_depth (sample_dataset 2) ≤ _num_entries (sample_dataset 2)
  ∧ preads (trace (consume sample_int_names sample_fs (sample_dataset 2)
                     (seqZ 0 4) new_world).2)
    = concat ((fun i => preads (trace (_get_item sample_int_names sample_fs
                                         (sample_dataset 2) i new_world).2))
                <$> seqZ 0 4).
Proof.
  split; [cbn; lia | ].
  apply (X12_pass_reads_every_batch_once sample_int_names sample_fs
           (sample_dataset 2)).
  cbn; lia.
Defined.

Lemma X13_sample_two_epochs :
  _prefetch_depth (sample_dataset 2) ≤ _num_entries (sample_dataset 2)
  ∧ (consume sample_int_names sample_fs (sample_dataset 2)
       (concat (replicate 2 (seqZ 0 4))) new_world).1
    = concat (replicate 2
                ((fun i => (_get_item sample_int_names sample_fs
                              (sample_dataset 2) i new_world).1)
                   <$> seqZ 0 4))
  ∧ prefetch_queue
      (consume sample_int_names sample_fs (sample_dataset 2)
         (concat (replicate 2 (seqZ 0 4))) new_world).2 = [].
Proof.
  split; [cbn; lia | ].
  apply (X13_every_epoch_returns_the_same sample_int_names sample_fs
           (sample_dataset 2) 2).
  cbn; lia.
Defined.

Lemma X14_sample_repeated_index :
  1 < _prefetch_depth (sample_dataset 3)
  ∧ Forall (fun i => i < _num_entries (sample_dataset 3)) [3; 3]
  ∧ (consume sample_int_names sample_fs (sample_dataset 3) [0; 3; 3]
       new_world).1
    = (fun i => (_get_item sample_int_names sample_fs (sample_dataset 3) i
                   new_world).1) <$> seqZ 0 3.
Proof.
  split; [cbn; lia | split; [repeat constructor | ]].
  apply (X14_window_ignores_requested_index sample_int_names sample_fs
           (sample_dataset 3) [3; 3]);
    [cbn; lia | cbn; lia | repeat constructor | cbn; lia].
Defined.

Lemma X15_sample_negative_index :
  __init__ sample_cat_names sample_int_names sample_fs "d" sample_sizes
           2 1 false = Ok (sample_dataset 1)
  ∧ _prefetch_depth (sample_dataset 1) ≤ 1
  ∧ - 2 ^ 63 ≤ -1 * 2
  ∧ __getitem__ sample_int_names sample_fs (sample_dataset 1) (-1) new_world
    = (Raise OSError,
       mkWorld [] [Pread (os_path_join "d" "label.bin") 2 (-1 * 2)]).
Proof.
  split; [reflexivity | split; [cbn; lia | split; [lia | ]]].
  apply (X15_negative_index_raises_OSError sample_cat_names sample_int_names
           sample_fs "d" sample_sizes 2 1 false (sample_dataset 1) (-1)
           new_world eq_refl);
    [lia | cbn; lia | lia | lia].
Defined.

Lemma X16_sample_label_past_the_end :
  sample_fs !! _label_file (sample_dataset 2)
  = Some (mk_byte <$> [0; 1; 1; 0; 2; 0; 1; 1])
  ∧ (5 + 1) * _label_bytes_per_batch (sample_dataset 2) < 2 ^ 63
  ∧ ∃ click,
      (_get_label sample_fs (sample_dataset 2) 5 new_world).1 = Ok click
      ∧ t_dtype click = torch_float32
      ∧ Z.of_nat (length (t_data click)) = 0.
Proof.
  split; [reflexivity | split; [cbn; lia | ]].
  destruct (X16_label_of_a_short_read sample_fs (sample_dataset 2) 5
              (mk_byte <$> [0; 1; 1; 0; 2; 0; 1; 1]) eq_refl)
    as (click & Hrun & Hty & _ & Hlen);
    [cbn; lia | lia | cbn; lia | ].
  exists click. split; [by rewrite (Hrun new_world) | split; [exact Hty | ]].
  exact Hlen.
Defined.

Lemma X17_sample_categorical_result :
  ∃ cat,
    (_get_categorical_features sample_fs (sample_dataset 2) 1 new_world).1
    = Ok (Some cat)
    ∧ t_dtype cat = torch_long
    ∧ t_shape cat = [Z.of_nat (length (t_data cat))].
Proof.
  eexists. split; [reflexivity | ].
  destruct (X17_categorical_result_is_never_empty sample_fs
              (sample_dataset 2) 1 new_world
              ["d/cat_0.bin"; "d/cat_1.bin"]%string _ eq_refl eq_refl)
    as (Hty & Hshape & _).
  split; [exact Hty | exact Hshape].
Defined.

Lemma X18_sample_without_categorical_names :
  ∃ self,
    __init__ [] sample_int_names sample_fs "d" sample_sizes 2 2 false
    = Ok self
    ∧ ∀ b, (_get_item sample_int_names sample_fs self 0 new_world).1 ≠ Ok b.
Proof.
  eexists. split; [reflexivity | ]. intros b.
  apply (X18_no_categorical_names_no_batch sample_int_names sample_fs "d"
           sample_sizes 2 2 false _ 0 new_world b eq_refl).
Defined.

Lemma X19_sample_numerical_result :
  ∃ num,
    (_get_numerical_features sample_int_names sample_fs (sample_dataset 2) 1
       new_world).1 = Ok (Some num)
    ∧ t_dtype num = np_float16.
Proof.
  eexists. split; [reflexivity | ].
  destruct (X19_numerical_result_holds_whole_records sample_int_names
              sample_fs (sample_dataset 2) 1 new_world _ eq_refl)
    as (Hty & _).
  exact Hty.
Defined.

Lemma X21_sample_metadata :
  NvtBinaryDataloader.__init__ sample_cat_names sample_int_names 2 sample_fs
    "d" sample_sizes 2 2 false = Ok sample_dataloader
  ∧ NvtBinaryDataloader._num_ids_in_batch sample_dataloader = 2 * 2
  ∧ NvtBinaryDataloader.offset_per_key sample_dataloader !! Z.to_nat 2
    = Some (NvtBinaryDataloader._num_ids_in_batch sample_dataloader).
Proof.
  split; [reflexivity | ].
  destruct (X21_jagged_metadata_is_consistent sample_cat_names
              sample_int_names 2 sample_fs "d" sample_sizes 2 2 false
              sample_dataloader eq_refl)
    as (Hn & _ & _ & _ & _ & Hlast); [lia | lia | ].
  split; [exact Hn | exact Hlast].
Defined.

Lemma X22_sample_index_per_key :
  NoDup sample_cat_names
  ∧ (∀ i key,
       NvtBinaryDataloader.keys sample_dataloader !! i = Some key →
       NvtBinaryDataloader.index_per_key sample_dataloader !! key
       = Some (Z.of_nat i)).
Proof.
  split; [exact sample_cat_names_distinct | ].
  apply (X22_index_per_key_inverts_keys sample_cat_names sample_int_names 2
           sample_fs "d" sample_sizes 2 2 false sample_dataloader eq_refl
           sample_cat_names_distinct).
Defined.

Lemma X23_sample_collated_batch :
  ∃ num cat click out,
    (_get_item sample_int_names sample_fs (sample_dataset 2) 1 new_world).1
    = Ok (Some num, Some cat, click)
    ∧ NvtBinaryDataloader.collate_fn sample_cat_names (fun _ z => z)
        sample_dataloader (Some num, Some cat, click)
      = NvtBinaryDataloader.Collated out
    ∧ length (t_data cat)
      = length (t_data (NvtBinaryDataloader.kjt_lengths
                          (NvtBinaryDataloader.sparse_features out))).
Proof.
  destruct (X23_collated_full_batch_is_consistent sample_cat_names
              sample_int_names 2 sample_fs (fun _ z => z) "d" sample_sizes
              2 2 false sample_dataloader 1 eq_refl eq_refl)
    as (num & cat & click & out & Hget & Hcol & _ & Hlen & _).
  - lia.
  - exact sample_names_distinct.
  - done.
  - lia.
  - eapply sample_holds_batch; [reflexivity | cbn; lia].
  - eapply sample_holds_batch; [reflexivity | cbn; lia].
  - repeat constructor;
      (eapply sample_holds_batch; [reflexivity | cbn; lia]).
  - exists num, cat, click, out.
    split; [apply Hget | split; [exact Hcol | exact Hlen]].
Defined.

Lemma X24_sample_first_batch_collates :
  ∃ batch out,
    Ok batch
      ∈ (consume sample_int_names sample_fs (sample_dataset 2) [0]
           new_world).1
    ∧ NvtBinaryDataloader.collate_fn sample_cat_names (fun _ z => z)
        sample_dataloader batch
      = NvtBinaryDataloader.Collated out.
Proof.
  eexists.
  assert (Ok _ ∈ (consume sample_int_names sample_fs (sample_dataset 2) [0]
                    new_world).1) as Hin
    by (apply (list_elem_of_lookup_2 _ 0%nat); reflexivity).
  destruct (X24_returned_batches_always_collate sample_cat_names
              sample_int_names 2 sample_fs (fun _ z => z) "d" sample_sizes
              2 2 false sample_dataloader [0] _ eq_refl Hin)
    as (out & dense & values & Hcol & _).
  exists out. split; [exact Hin | exact Hcol].
Defined.

Lemma X25_sample_depth_beyond_length :
  __init__ sample_cat_names sample_int_names sample_fs "d" sample_sizes
           2 10 false = Ok (sample_dataset 10)
  ∧ (consume sample_int_names sample_fs (sample_dataset 10)
       (concat (replicate 2 (seqZ 0 4))) new_world).1
    = concat (replicate 2
                ((fun i => (_get_item sample_int_names sample_fs
                              (sample_dataset 10) i new_world).1)
                   <$> seqZ 0 4)).
Proof.
  split; [reflexivity | ].
  apply (X25_constructed_dataset_iterates_in_order sample_cat_names
           sample_int_names sample_fs "d" sample_sizes 2 10 false
           (sample_dataset 10) 2 eq_refl).
Defined.

Lemma X20_sample_negative_batch_size :
  - 2 ^ 63 ≤ 2 * -2 < 0
  ∧ NvtBinaryDataloader.__init__ sample_cat_names sample_int_names 2
      sample_fs "d" sample_sizes (-2) 2 false
    = Raise RuntimeError.
Proof.
  split; [lia | ].
  destruct (X20_dataloader_construction sample_cat_names sample_int_names 2
              sample_fs "d" sample_sizes (-2) 2 false) as (_ & Hneg & _).
  eapply Hneg; [reflexivity | lia].
Defined.
